(** * prepare_huggingface.py: the resumable multi-source ingestion pipeline

    A shallow embedding of
    [crates/context-graph-benchmark/scripts/prepare_huggingface.py]
    and the properties of its chunker, identifier generator, topic
    extractor, quota allocation, checkpoint store and orchestrator.

    Conventions of the embedding.
    - A Python [str] is a list of 8-bit characters: the code points
      0..255 (the Latin-1 fragment of Python strings).  Whitespace,
      [lower()] and UTF-8 encoding are the Python ones on that fragment.
    - A Python [int] is a [Z].
    - A [while] loop that may run forever takes fuel; running out of
      fuel is [None], and the lemmas say when that happens.
    - Exceptions are an explicit result type; file-system effects are an
      explicit event trace over a small model of the output directory.

    Outside the embedding: console output and the progress bar, the
    command-line parser of [main], failures of the operating system on
    file operations, and the contents of the remote datasets, which
    enter as a parameter (the [World]) giving the records each source
    streams. *)

From Stdlib Require Import ZArith List Ascii Bool Lia Sorted Permutation.
From Stdlib Require String DecimalString DecimalZ DecimalPos.
Import ListNotations String.StringSyntax.

Local Open Scope string_scope.
Local Open Scope Z_scope.

(** ** Python strings *)

Module PyStr.

Definition pystr := list ascii.

(** A literal. *)
Definition str (s : String.string) : pystr := String.list_ascii_of_string s.

Definition code (c : ascii) : N := N_of_ascii c.

(** [str.isspace] on the code points below 256: TAB..CR, FS..US, space,
    NEL and NBSP. *)
Definition isspace (c : ascii) : bool :=
  let n := code c in
  ((9 <=? n) && (n <=? 13) || (28 <=? n) && (n <=? 32)
   || (n =? 133) || (n =? 160))%N.

(** [str.lower] on the code points below 256: A..Z and the capital
    letters of Latin-1 (U+00C0..U+00DE except the multiplication sign)
    move up by 32; every other character is left alone. *)
Definition lower_char (c : ascii) : ascii :=
  let n := code c in
  if ((65 <=? n) && (n <=? 90)
      || (192 <=? n) && (n <=? 222) && negb (n =? 215))%N
  then ascii_of_N (n + 32) else c.

Definition lower (s : pystr) : pystr := map lower_char s.

(** [s.split()] with no argument: maximal runs of non-space characters.
    [w] is the word being read. *)
Fixpoint split_go (w s : pystr) : list pystr :=
  match s with
  | [] => match w with [] => [] | _ => [w] end
  | c :: s' =>
      if isspace c
      then match w with
           | [] => split_go [] s'
           | _ => w :: split_go [] s'
           end
      else split_go (w ++ [c]) s'
  end.

Definition split (s : pystr) : list pystr := split_go [] s.

(** [sep.join(ws)] *)
Fixpoint join (sep : pystr) (ws : list pystr) : pystr :=
  match ws with
  | [] => []
  | [w] => w
  | w :: ws' => w ++ sep ++ join sep ws'
  end.

Fixpoint lstrip (s : pystr) : pystr :=
  match s with
  | c :: s' => if isspace c then lstrip s' else s
  | [] => []
  end.

(** [s.strip()] *)
Definition strip (s : pystr) : pystr := rev (lstrip (rev (lstrip s))).

(** [c in s] for a one-character [c]. *)
Definition contains (c : ascii) (s : pystr) : bool :=
  existsb (Ascii.eqb c) s.

(** [s.split(c)[0]]: the text before the first [c]. *)
Fixpoint before (c : ascii) (s : pystr) : pystr :=
  match s with
  | [] => []
  | x :: s' => if Ascii.eqb x c then [] else x :: before c s'
  end.

(** [s.replace(a, b)] for one-character [a] and [b]. *)
Definition replace (a b : ascii) (s : pystr) : pystr :=
  map (fun x => if Ascii.eqb x a then b else x) s.

(** [len(l)] *)
Definition len {A} (l : list A) : Z := Z.of_nat (length l).

(** A slice bound as Python normalises it: a negative index counts from
    the end, and the result is clamped to [0, len]. *)
Definition clamp (n i : Z) : Z :=
  if i <? 0 then Z.max (i + n) 0 else Z.min i n.

(** [l[start:stop]] *)
Definition slice {A} (l : list A) (start stop : Z) : list A :=
  let s := clamp (len l) start in
  let e := clamp (len l) stop in
  firstn (Z.to_nat (e - s)) (skipn (Z.to_nat s) l).

(** [l[:n]] *)
Definition prefix {A} (n : Z) (l : list A) : list A := slice l 0 n.

(** [str(n)] for an int. *)
Definition of_int (n : Z) : pystr :=
  str (DecimalString.NilZero.string_of_int (Z.to_int n)).

End PyStr.
Import PyStr.

(** ** The chunker *)

(** A window: [(chunk_text, start_word_idx, end_word_idx)]. *)
Definition window : Type := pystr * Z * Z.

Definition window_text (w : window) : pystr := fst (fst w).
Definition window_span (w : window) : Z * Z := (snd (fst w), snd w).

(** The [while start < len(words)] loop of [chunk_text].  One unit of fuel
    pays for one evaluation of the loop condition. *)
Fixpoint chunk_loop (fuel : nat) (words : list pystr)
    (chunk_size overlap start : Z) (chunks : list window)
    : option (list window) :=
  match fuel with
  | O => None
  | S fuel' =>
      if start <? len words then
        let end_ := Z.min (start + chunk_size) (len words) in
        let chunk_words := slice words start end_ in
        let chunk_text := join (str " ") chunk_words in
        let chunks := chunks ++ [(chunk_text, start, end_)] in
        (* Move forward by (chunk_size - overlap) words *)
        let start := start + (chunk_size - overlap) in
        (* Don't create tiny final chunks *)
        if len words - start <? overlap then Some chunks
        else chunk_loop fuel' words chunk_size overlap start chunks
      else Some chunks
  end.

Definition chunk_text_fuel (fuel : nat) (text : pystr)
    (chunk_size overlap : Z) : option (list window) :=
  let words := split text in
  if len words <=? chunk_size then Some [(text, 0, len words)]
  else chunk_loop fuel words chunk_size overlap 0 [].

(** [chunk_text]: the loop gets one more unit of fuel than there are
    words, which is enough whenever the stride is positive
    ([chunk_text_long]); with a stride of zero or less and a document
    longer than [chunk_size] no amount of fuel is
    ([chunk_text_diverges]). *)
Definition chunk_text (text : pystr) (chunk_size overlap : Z)
    : option (list window) :=
  chunk_text_fuel (S (length (split text))) text chunk_size overlap.

(** A document of [n] one-letter words. *)
Definition doc_of_words (n : nat) : pystr :=
  join (str " ") (repeat (str "w") n).

(** ** SHA-256 and bytes

    [hashlib.sha256] as FIPS 180-4 defines it.  A byte is an [N] below
    256, a word an [N] below 2^32. *)

Module SHA256.

Local Open Scope N_scope.

Definition bytes := list N.

Definition mask32 : N := 0xffffffff.
Definition add32 (a b : N) : N := N.land (a + b) mask32.
Definition rotr (n x : N) : N :=
  N.lor (N.shiftr x n) (N.land (N.shiftl x (32 - n)) mask32).
Definition not32 (x : N) : N := N.lxor x mask32.

Definition Ch (x y z : N) : N := N.lxor (N.land x y) (N.land (not32 x) z).
Definition Maj (x y z : N) : N :=
  N.lxor (N.lxor (N.land x y) (N.land x z)) (N.land y z).
Definition Sigma0 (x : N) : N :=
  N.lxor (N.lxor (rotr 2 x) (rotr 13 x)) (rotr 22 x).
Definition Sigma1 (x : N) : N :=
  N.lxor (N.lxor (rotr 6 x) (rotr 11 x)) (rotr 25 x).
Definition sigma0 (x : N) : N :=
  N.lxor (N.lxor (rotr 7 x) (rotr 18 x)) (N.shiftr x 3).
Definition sigma1 (x : N) : N :=
  N.lxor (N.lxor (rotr 17 x) (rotr 19 x)) (N.shiftr x 10).

(** The constants are fractional parts of roots of the first primes:
    the first 32 bits of the cube roots of the first 64 primes for the
    round constants, of the square roots of the first 8 primes for the
    initial hash value. *)
Definition is_prime (n : N) : bool :=
  (1 <? n) && forallb (fun d => negb (n mod d =? 0))
                (map N.of_nat (seq 2 (N.to_nat n - 2))).

Definition primes : list N :=
  Eval vm_compute in filter is_prime (map N.of_nat (seq 2 310)).

(** The largest [x] below [2^bits] with [x^3 <= n], bit by bit. *)
Fixpoint cube_root (bits : nat) (n x : N) : N :=
  match bits with
  | O => x
  | S b =>
      let y := x + N.shiftl 1 (N.of_nat b) in
      cube_root b n (if y * y * y <=? n then y else x)
  end.

Definition frac_cube_root (p : N) : N :=
  N.land (cube_root 36 (N.shiftl p 96) 0) mask32.

Definition frac_square_root (p : N) : N :=
  N.land (N.sqrt (N.shiftl p 64)) mask32.

Definition K : list N :=
  Eval vm_compute in map frac_cube_root (firstn 64 primes).

(** The eight working variables, and the hash value between blocks. *)
Record regs := Regs { ra : N; rb : N; rc : N; rd : N;
                      re : N; rf : N; rg : N; rh : N }.

Definition H0 : regs :=
  Eval vm_compute in
    match map frac_square_root (firstn 8 primes) with
    | [a; b; c; d; e; f; g; h] => Regs a b c d e f g h
    | _ => Regs 0 0 0 0 0 0 0 0
    end.

(** Big-endian bytes of a word and of the 64-bit length field. *)
Definition byte_at (x : N) (i : N) : N := N.land (N.shiftr x (8 * i)) 0xff.
Definition word_bytes (x : N) : bytes :=
  [byte_at x 3; byte_at x 2; byte_at x 1; byte_at x 0].
Definition length_bytes (x : N) : bytes :=
  [byte_at x 7; byte_at x 6; byte_at x 5; byte_at x 4;
   byte_at x 3; byte_at x 2; byte_at x 1; byte_at x 0].

Definition word_of (b3 b2 b1 b0 : N) : N :=
  N.lor (N.lor (N.shiftl b3 24) (N.shiftl b2 16)) (N.lor (N.shiftl b1 8) b0).

(** The message, a one bit, zeros up to 56 modulo 64, the bit length. *)
Definition pad (msg : bytes) : bytes :=
  let l := N.of_nat (length msg) in
  let zeros := (55 + 64 - l mod 64) mod 64 in
  msg ++ [0x80] ++ repeat 0 (N.to_nat zeros) ++ length_bytes (8 * l).

Fixpoint words_of (n : nat) (b : bytes) : list N :=
  match n, b with
  | S n', b3 :: b2 :: b1 :: b0 :: b' => word_of b3 b2 b1 b0 :: words_of n' b'
  | _, _ => []
  end.

(** The message schedule: [n] more words after the ones in [w]. *)
Fixpoint schedule (n : nat) (w : list N) : list N :=
  match n with
  | O => w
  | S n' =>
      let t := length w in
      let at_ (k : nat) := nth (t - k) w 0 in
      schedule n'
        (w ++ [add32 (add32 (sigma1 (at_ 2%nat)) (at_ 7%nat))
                     (add32 (sigma0 (at_ 15%nat)) (at_ 16%nat))])
  end.

Definition round (r : regs) (kw : N * N) : regs :=
  let t1 := add32 (add32 (add32 (rh r) (Sigma1 (re r)))
                         (add32 (Ch (re r) (rf r) (rg r)) (fst kw)))
                  (snd kw) in
  let t2 := add32 (Sigma0 (ra r)) (Maj (ra r) (rb r) (rc r)) in
  Regs (add32 t1 t2) (ra r) (rb r) (rc r) (add32 (rd r) t1)
       (re r) (rf r) (rg r).

Definition compress (h : regs) (block : bytes) : regs :=
  let w := schedule 48 (words_of 16 block) in
  let r := fold_left round (combine K w) h in
  Regs (add32 (ra h) (ra r)) (add32 (rb h) (rb r))
       (add32 (rc h) (rc r)) (add32 (rd h) (rd r))
       (add32 (re h) (re r)) (add32 (rf h) (rf r))
       (add32 (rg h) (rg r)) (add32 (rh h) (rh r)).

(** One block per unit of [n]. *)
Fixpoint blocks (n : nat) (h : regs) (b : bytes) : regs :=
  match n with
  | O => h
  | S n' => blocks n' (compress h (firstn 64 b)) (skipn 64 b)
  end.

(** [hashlib.sha256(msg).digest()] *)
Definition digest (msg : bytes) : bytes :=
  let p := pad msg in
  let h := blocks (length p / 64) H0 p in
  word_bytes (ra h) ++ word_bytes (rb h) ++ word_bytes (rc h)
  ++ word_bytes (rd h) ++ word_bytes (re h) ++ word_bytes (rf h)
  ++ word_bytes (rg h) ++ word_bytes (rh h).

Definition hex_digit (n : N) : ascii :=
  nth (N.to_nat (n mod 16)) (str "0123456789abcdef") "0"%char.

(** [b.hex()] *)
Definition hex (b : bytes) : pystr :=
  flat_map (fun x => [hex_digit (x / 16); hex_digit x]) b.

(** [s.encode()]: UTF-8 of the code points below 256. *)
Definition encode (s : pystr) : bytes :=
  flat_map (fun c => let n := code c in
                     if n <? 128 then [n] else [192 + n / 64; 128 + n mod 64])
           s.

End SHA256.

(** ** The identifier generator *)

Definition generate_chunk_id (doc_id : pystr) (chunk_idx : Z)
    (source : pystr) : pystr :=
  let content :=
    source ++ str ":" ++ doc_id ++ str ":" ++ of_int chunk_idx in
  let hash_bytes := prefix 16 (SHA256.digest (SHA256.encode content)) in
  (* Format as UUID *)
  SHA256.hex (prefix 4 hash_bytes) ++ str "-"
  ++ SHA256.hex (slice hash_bytes 4 6) ++ str "-"
  ++ SHA256.hex (slice hash_bytes 6 8) ++ str "-"
  ++ SHA256.hex (slice hash_bytes 8 10) ++ str "-"
  ++ SHA256.hex (slice hash_bytes 10 16).

(** ** Python values

    The values a RawDocument field can hold.  [PObj] is an object of any
    other type (a date, an image, ...), known by its truth value and by
    what [str()] shows for it; it has no string methods, is hashable and
    is not JSON serialisable.  Floating-point values are outside the
    embedding.  A dict is keyed by strings and keeps insertion order; a
    lookup takes the first binding. *)

#[warnings="-register-all"]
Inductive pyval : Type :=
| PNone
| PBool (b : bool)
| PInt (n : Z)
| PStr (s : pystr)
| PList (l : list pyval)
| PDict (d : list (pystr * pyval))
| PObj (truth : bool) (shown : pystr).

Definition dict := list (pystr * pyval).

Definition pystr_eqb (a b : pystr) : bool :=
  if list_eq_dec ascii_dec a b then true else false.

(** [d.get(k)] *)
Fixpoint dict_get {V} (k : pystr) (d : list (pystr * V)) : option V :=
  match d with
  | [] => None
  | (k', v) :: d' => if pystr_eqb k k' then Some v else dict_get k d'
  end.

(** [bool(v)] *)
Definition truthy (v : pyval) : bool :=
  match v with
  | PNone => false
  | PBool b => b
  | PInt n => negb (n =? 0)
  | PStr s => match s with [] => false | _ => true end
  | PList l => match l with [] => false | _ => true end
  | PDict d => match d with [] => false | _ => true end
  | PObj t _ => t
  end.

(** [repr(s)] for a string: single quotes unless the text has a single
    quote and no double quote; backslash, the quote in use, TAB, LF and CR
    escaped; the other unprintable characters as [\xNN]. *)
Definition printable (c : ascii) : bool :=
  let n := code c in
  ((32 <=? n) && (n <? 127) || (161 <=? n) && negb (n =? 173))%N.

Definition repr_char (q c : ascii) : pystr :=
  if Ascii.eqb c q || Ascii.eqb c "\"%char then ["\"%char; c]
  else if Ascii.eqb c "009"%char then str "\t"
  else if Ascii.eqb c "010"%char then str "\n"
  else if Ascii.eqb c "013"%char then str "\r"
  else if printable c then [c]
  else str "\x" ++ [SHA256.hex_digit (code c / 16); SHA256.hex_digit (code c)].

Definition repr_str (s : pystr) : pystr :=
  let dq := "034"%char in
  let q := if contains "'"%char s && negb (contains dq s)
           then dq else "'"%char in
  [q] ++ flat_map (repr_char q) s ++ [q].

(** [repr(v)] *)
Fixpoint repr (v : pyval) : pystr :=
  match v with
  | PNone => str "None"
  | PBool true => str "True"
  | PBool false => str "False"
  | PInt n => of_int n
  | PStr s => repr_str s
  | PList l => str "[" ++ join (str ", ") (map repr l) ++ str "]"
  | PDict d =>
      str "{"
      ++ join (str ", ")
           (map (fun kv : pystr * pyval =>
                   repr_str (fst kv) ++ str ": " ++ repr (snd kv)) d)
      ++ str "}"
  | PObj _ shown => shown
  end.

(** [str(v)] *)
Definition py_str (v : pyval) : pystr :=
  match v with
  | PStr s => s
  | _ => repr v
  end.

(** ** Exceptions *)

Inductive exn : Type :=
| IndexError | AttributeError | TypeError | JSONDecodeError.

(** What a call comes to: a value, an exception, or a loop that never
    ends. *)
Inductive result (A : Type) : Type :=
| Ok (a : A)
| Raise (e : exn)
| Hang.
Arguments Ok {A} a.
Arguments Raise {A} e.
Arguments Hang {A}.

(** ** Source descriptors *)

Record DatasetConfig : Type := mkDatasetConfig {
  name : pystr;
  hf_path : pystr;
  hf_subset : option pystr;
  split_ : pystr;
  text_field : pystr;
  title_field : option pystr;
  topic_field : option pystr;
  max_docs : Z;
  min_words : Z;
  trust_remote_code : bool;
  field_transforms : list (pystr * pystr)
}.

Definition arxiv_config : DatasetConfig :=
  mkDatasetConfig (str "arxiv") (str "ccdv/arxiv-classification") None
    (str "train") (str "text") (Some (str "title")) (Some (str "label"))
    5000 50 false [].

Definition code_config : DatasetConfig :=
  mkDatasetConfig (str "code") (str "code_search_net") (Some (str "python"))
    (str "train") (str "func_documentation_string")
    (Some (str "func_name")) (Some (str "language")) 5000 20 true [].

Definition stackoverflow_config : DatasetConfig :=
  mkDatasetConfig (str "stackoverflow")
    (str "pacovaldez/stackoverflow-questions") None
    (str "train") (str "body") (Some (str "title")) (Some (str "tags"))
    5000 30 false [].

Definition wikipedia_config : DatasetConfig :=
  mkDatasetConfig (str "wikipedia") (str "wikimedia/wikipedia")
    (Some (str "20231101.en"))
    (str "train") (str "text") (Some (str "title")) None
    5000 100 true [].

Definition DATASET_CONFIGS : list DatasetConfig :=
  [arxiv_config; code_config; stackoverflow_config; wikipedia_config].

(** ** The topic extractor *)

(** [field and field in doc], giving [doc[field]]. *)
Definition field_of (field : option pystr) (doc : dict) : option pyval :=
  match field with
  | Some (c :: f) => dict_get (c :: f) doc
  | _ => None
  end.

Definition extract_topic (config : DatasetConfig) (doc : dict)
    : result pyval :=
  match field_of (topic_field config) doc with
  | Some topic =>
      (* Handle different formats *)
      match topic with
      | PList l =>
          Ok (match l with x :: _ => x | [] => PStr (str "unknown") end)
      | PStr s =>
          (* For comma-separated tags (stackoverflow), take first *)
          if contains ","%char s
          then Ok (PStr (lower (strip (before ","%char s))))
          (* For labels like "cs.AI", normalize *)
          else Ok (PStr (replace "."%char "_"%char (lower s)))
      | PInt _ | PBool _ =>
          (* Numeric label - convert to string *)
          Ok (PStr (str "label_" ++ py_str topic))
      | _ => Ok (PStr (py_str topic))
      end
  | None =>
      (* Fallback: extract from title *)
      let general := Ok (PStr (name config ++ str "_general")) in
      match field_of (title_field config) doc with
      | Some title =>
          if truthy title then
            match title with
            | PStr s =>
                (* Use first word of title as rough topic *)
                match split s with
                | w :: _ => Ok (PStr (prefix 20 (lower w)))
                | [] => Raise IndexError
                end
            | _ => Raise AttributeError
            end
          else general
      | None => general
      end
  end.

(** ** Chunk records, statistics and topic counts *)

(** The [chunk_record] dict of [process_dataset]. *)
Record Chunk : Type := mkChunk {
  id : pystr;
  doc_id : pystr;
  title : pystr;
  chunk_idx : Z;
  text : pystr;
  word_count : Z;
  start_word : Z;
  end_word : Z;
  topic_hint : pyval;
  source_dataset : pystr
}.

(** The per-source [stats] dict of [process_dataset]. *)
Record Stats : Type := mkStats {
  documents : Z;
  chunks : Z;
  words : Z;
  skipped_short : Z;
  skipped_empty : Z
}.

(** What a value hashes as when it is used as a dict key: [True] and [1]
    are one key, [False] and [0] another; lists and dicts are unhashable. *)
Inductive key : Type :=
| KNone
| KInt (n : Z)
| KStr (s : pystr)
| KObj (shown : pystr).

Definition key_of (v : pyval) : option key :=
  match v with
  | PNone => Some KNone
  | PBool b => Some (KInt (if b then 1 else 0))
  | PInt n => Some (KInt n)
  | PStr s => Some (KStr s)
  | PObj _ shown => Some (KObj shown)
  | PList _ | PDict _ => None
  end.

Definition key_eqb (a b : key) : bool :=
  match a, b with
  | KNone, KNone => true
  | KInt m, KInt n => m =? n
  | KStr s, KStr t => pystr_eqb s t
  | KObj s, KObj t => pystr_eqb s t
  | _, _ => false
  end.

(** The [topic_counts] dict: topic to number of documents, in insertion
    order, each entry with the key object that created it. *)
Definition TopicCounts := list (pyval * Z).

Definition same_key (k : key) (v : pyval) : bool :=
  match key_of v with
  | Some k' => key_eqb k k'
  | None => false
  end.

(** [topic_counts[topic] = topic_counts.get(topic, 0) + 1], [k] being the
    key of [topic]. *)
Fixpoint bump (topic : pyval) (k : key) (tc : TopicCounts) : TopicCounts :=
  match tc with
  | [] => [(topic, 0 + 1)]
  | (t, n) :: tc' =>
      if same_key k t then (t, n + 1) :: tc'
      else (t, n) :: bump topic k tc'
  end.

(** ** Processing one source *)

(** The keyword arguments of [load_dataset]. *)
Record load_kwargs : Type := mkKwargs {
  kw_path : pystr;
  kw_split : pystr;
  kw_streaming : bool;
  kw_trust_remote_code : bool;
  kw_name : option pystr
}.

(** The world outside the process: the environment variable and the
    remote corpora.  [load_dataset] is [None] when opening the stream
    raises; otherwise it is the documents the stream yields. *)
Record World : Type := mkWorld {
  HF_TOKEN : option pystr;
  load_dataset : load_kwargs -> option (list dict)
}.

Definition kwargs_of (config : DatasetConfig) : load_kwargs :=
  mkKwargs (hf_path config) (split_ config) true (trust_remote_code config)
    (match hf_subset config with
     | Some (c :: s) => Some (c :: s)
     | _ => None
     end).

(** [doc.get(field, default)] *)
Definition get_or (field : option pystr) (doc : dict) (default : pyval)
    : pyval :=
  match field with
  | Some f => match dict_get f doc with Some v => v | None => default end
  | None => default
  end.

(** The [for chunk_idx, (...) in enumerate(chunks)] loop: the records of
    one document. *)
Fixpoint records_of (config : DatasetConfig) (doc_id : pystr) (title topic : pyval)
    (chunk_idx : Z) (chunks : list window) : list Chunk :=
  match chunks with
  | [] => []
  | (chunk_text_content, start_word, end_word) :: rest =>
      let chunk_id := generate_chunk_id doc_id chunk_idx (name config) in
      mkChunk chunk_id doc_id
        (prefix 200 (py_str title)) (* Truncate long titles *)
        chunk_idx chunk_text_content (len (split chunk_text_content))
        start_word end_word topic (name config)
      :: records_of config doc_id title topic (chunk_idx + 1) rest
  end.

Definition sum_words (records : list Chunk) : Z :=
  fold_left (fun n c => n + len (split (text c))) records 0.

(** [stats["skipped_short"] += 1] *)
Definition incr_skipped_short (stats : Stats) : Stats :=
  mkStats (documents stats) (chunks stats) (words stats)
    (skipped_short stats + 1) (skipped_empty stats).

(** [stats["skipped_empty"] += 1] *)
Definition incr_skipped_empty (stats : Stats) : Stats :=
  mkStats (documents stats) (chunks stats) (words stats)
    (skipped_short stats) (skipped_empty stats + 1).

(** One document done: [stats["chunks"] += 1] and
    [stats["words"] += len(chunk.split())] for each of its records, then
    [stats["documents"] += 1]. *)
Definition count_document (stats : Stats) (records : list Chunk) : Stats :=
  mkStats (documents stats + 1) (chunks stats + len records)
    (words stats + sum_words records)
    (skipped_short stats) (skipped_empty stats).

(** The [for i, doc in enumerate(dataset)] loop.  [output_chunks] and
    [topic_counts] are the caller's list and dict, passed through. *)
Fixpoint doc_loop (config : DatasetConfig) (chunk_size overlap : Z)
    (i : Z) (dataset : list dict)
    (output_chunks : list Chunk) (topic_counts : TopicCounts) (stats : Stats)
    : result (list Chunk * TopicCounts * Stats) :=
  match dataset with
  | [] => Ok (output_chunks, topic_counts, stats)
  | doc :: rest =>
      if i >=? max_docs config then Ok (output_chunks, topic_counts, stats)
      else
        (* Get text content *)
        match get_or (Some (text_field config)) doc (PStr []) with
        | PStr (c :: s) =>
            (* Clean text *)
            let text := strip (c :: s) in
            let words := split text in
            if len words <? min_words config then
              doc_loop config chunk_size overlap (i + 1) rest
                output_chunks topic_counts (incr_skipped_short stats)
            else
              (* Get metadata *)
              let default := PStr (name config ++ str "_" ++ of_int i) in
              let title :=
                let t := get_or (title_field config) doc default in
                if truthy t then t else default in
              let doc_id := name config ++ str "_" ++ of_int i in
              match extract_topic config doc with
              | Ok topic =>
                  (* Track topic *)
                  match key_of topic with
                  | None => Raise TypeError
                  | Some k =>
                      let topic_counts := bump topic k topic_counts in
                      (* Chunk the document *)
                      match chunk_text text chunk_size overlap with
                      | None => Hang
                      | Some chunks_ =>
                          let records :=
                            records_of config doc_id title topic 0 chunks_ in
                          doc_loop config chunk_size overlap (i + 1) rest
                            (output_chunks ++ records) topic_counts
                            (count_document stats records)
                      end
                  end
              | Raise e => Raise e
              | Hang => Hang
              end
        | _ =>
            doc_loop config chunk_size overlap (i + 1) rest
              output_chunks topic_counts (incr_skipped_empty stats)
        end
  end.

Definition zero_stats : Stats := mkStats 0 0 0 0 0.

Definition process_dataset (world : World) (config : DatasetConfig)
    (output_chunks : list Chunk) (topic_counts : TopicCounts)
    (chunk_size overlap : Z)
    : result (list Chunk * TopicCounts * Stats) :=
  match load_dataset world (kwargs_of config) with
  | None => Ok (output_chunks, topic_counts, zero_stats)
  | Some dataset =>
      doc_loop config chunk_size overlap 0 dataset
        output_chunks topic_counts zero_stats
  end.

(** ** The output directory *)

(** The [stats] dict of [prepare_huggingface_benchmark], which becomes
    [metadata.json]. *)
Record RunStatistics : Type := mkRunStatistics {
  total_documents : Z;
  total_chunks : Z;
  total_words : Z;
  stat_chunk_size : Z;
  stat_overlap : Z;
  source_datasets : list pystr;
  dataset_stats : list (pystr * Stats);
  stat_topic_counts : TopicCounts;
  top_topics : list pyval
}.

(** The [checkpoint_meta] dict as JSON holds it: the topics are strings
    there. *)
Record Meta : Type := mkMeta {
  meta_processed_datasets : list pystr;
  meta_topic_counts : list (pystr * Z)
}.

(** A piece of text in a file, by what [json] reads from it: one line
    holding a chunk record, a checkpoint sidecar document, a final
    metadata document, or text that does not parse (a write cut short,
    a damaged file). *)
Inductive text_piece : Type :=
| ChunkLine (c : Chunk)
| MetaDoc (m : Meta)
| StatsDoc (s : RunStatistics)
| Garbage.

Inductive path : Type :=
| checkpoint_jsonl
| checkpoint_meta_json
| chunks_jsonl
| metadata_json.

(** The output directory: whether it exists, and each of the four files,
    [None] when the file does not exist. *)
Record FS : Type := mkFS {
  dir_exists : bool;
  f_checkpoint : option (list text_piece);
  f_checkpoint_meta : option (list text_piece);
  f_chunks : option (list text_piece);
  f_metadata : option (list text_piece)
}.

Definition read_file (p : path) (fs : FS) : option (list text_piece) :=
  match p with
  | checkpoint_jsonl => f_checkpoint fs
  | checkpoint_meta_json => f_checkpoint_meta fs
  | chunks_jsonl => f_chunks fs
  | metadata_json => f_metadata fs
  end.

Definition set_file (p : path) (c : option (list text_piece)) (fs : FS) : FS :=
  match p with
  | checkpoint_jsonl =>
      mkFS (dir_exists fs) c (f_checkpoint_meta fs) (f_chunks fs) (f_metadata fs)
  | checkpoint_meta_json =>
      mkFS (dir_exists fs) (f_checkpoint fs) c (f_chunks fs) (f_metadata fs)
  | chunks_jsonl =>
      mkFS (dir_exists fs) (f_checkpoint fs) (f_checkpoint_meta fs) c (f_metadata fs)
  | metadata_json =>
      mkFS (dir_exists fs) (f_checkpoint fs) (f_checkpoint_meta fs) (f_chunks fs) c
  end.

(** What the process does to the world, in order. *)
Inductive event : Type :=
| EMkdir                          (* output_dir.mkdir(parents=True, exist_ok=True) *)
| ELogin                          (* login(token=hf_token) *)
| ELoadDataset (kw : load_kwargs) (* load_dataset with load_kwargs, and the stream *)
| EExists (p : path)              (* p.exists() *)
| ERead (p : path)                (* open(p) and reading it *)
| ETruncate (p : path)            (* open(p, "w") *)
| EAppend (p : path) (t : text_piece) (* f.write(...) *)
| EUnlink (p : path).             (* p.unlink() *)

Definition apply_event (e : event) (fs : FS) : FS :=
  match e with
  | EMkdir =>
      mkFS true (f_checkpoint fs) (f_checkpoint_meta fs) (f_chunks fs)
        (f_metadata fs)
  | ETruncate p => set_file p (Some []) fs
  | EAppend p t =>
      match read_file p fs with
      | Some c => set_file p (Some (c ++ [t])) fs
      | None => fs
      end
  | EUnlink p => set_file p None fs
  | ELogin | ELoadDataset _ | EExists _ | ERead _ => fs
  end.

(** The state of the output directory after a run of events: the state a
    crash leaves behind when the events are a prefix of a trace. *)
Definition replay (events : list event) (fs : FS) : FS :=
  fold_left (fun s e => apply_event e s) events fs.

(** ** The process

    The process state is the output directory, the [DatasetConfig]
    objects of [DATASET_CONFIGS] (they are mutable, and every list of
    configs in the program holds these same objects), and the trace of
    what was done so far. *)

Record proc : Type := mkProc {
  fs : FS;
  configs : list DatasetConfig;
  trace : list event
}.

Definition M (A : Type) : Type := proc -> result A * proc.

Definition ret {A} (a : A) : M A := fun p => (Ok a, p).

Definition bind {A B} (m : M A) (k : A -> M B) : M B :=
  fun p =>
    match m p with
    | (Ok a, p') => k a p'
    | (Raise e, p') => (Raise e, p')
    | (Hang, p') => (Hang, p')
    end.

Notation "x <- m ;; k" := (bind m (fun x => k))
  (at level 61, m at next level, right associativity).
Notation "m ;;; k" := (bind m (fun _ => k))
  (at level 61, right associativity).

Definition raise {A} (e : exn) : M A := fun p => (Raise e, p).

Definition lift {A} (r : result A) : M A := fun p => (r, p).

Definition emit (e : event) : M unit :=
  fun p => (Ok tt, mkProc (apply_event e (fs p)) (configs p) (trace p ++ [e])).

(** [p.exists()] *)
Definition exists_ (f : path) : M bool :=
  emit (EExists f) ;;;
  fun p => (Ok (match read_file f (fs p) with Some _ => true | None => false end), p).

(** The pieces of a file that exists. *)
Definition read (f : path) : M (list text_piece) :=
  emit (ERead f) ;;;
  fun p => (Ok (match read_file f (fs p) with Some c => c | None => [] end), p).

(** ** The checkpoint store *)

(** Whether [json.dumps] takes the value. *)
Fixpoint json_ok (v : pyval) : bool :=
  match v with
  | PObj _ _ => false
  | PList l => forallb json_ok l
  | PDict d => forallb (fun kv : pystr * pyval => json_ok (snd kv)) d
  | _ => true
  end.

(** A dict key as [json] writes it, [None] when it raises [TypeError]. *)
Definition json_key (v : pyval) : option pystr :=
  match v with
  | PStr s => Some s
  | PInt n => Some (of_int n)
  | PBool true => Some (str "true")
  | PBool false => Some (str "false")
  | PNone => Some (str "null")
  | _ => None
  end.

Fixpoint json_topic_counts (tc : TopicCounts) : option (list (pystr * Z)) :=
  match tc with
  | [] => Some []
  | (t, n) :: tc' =>
      match json_key t, json_topic_counts tc' with
      | Some k, Some r => Some ((k, n) :: r)
      | _, _ => None
      end
  end.

(** [for chunk in chunks: f.write(json.dumps(chunk) + "\n")] *)
Fixpoint write_chunks (f : path) (chunks_ : list Chunk) : M unit :=
  match chunks_ with
  | [] => ret tt
  | chunk :: rest =>
      if json_ok (topic_hint chunk)
      then emit (EAppend f (ChunkLine chunk)) ;;; write_chunks f rest
      else raise TypeError
  end.

(** [save_checkpoint]; [metadata] is the dict
    [{"processed_datasets": ..., "topic_counts": ...}].  [json.dump]
    writes as it goes, so a dict it cannot finish leaves text that does
    not parse. *)
Definition save_checkpoint (chunks_ : list Chunk)
    (metadata : list pystr * TopicCounts) : M unit :=
  emit (ETruncate checkpoint_jsonl) ;;;
  write_chunks checkpoint_jsonl chunks_ ;;;
  emit (ETruncate checkpoint_meta_json) ;;;
  match json_topic_counts (snd metadata) with
  | Some tc => emit (EAppend checkpoint_meta_json (MetaDoc (mkMeta (fst metadata) tc)))
  | None => emit (EAppend checkpoint_meta_json Garbage) ;;; raise TypeError
  end.

(** [for line in f: chunks.append(json.loads(line))] *)
Fixpoint parse_lines (pieces : list text_piece) : result (list Chunk) :=
  match pieces with
  | [] => Ok []
  | ChunkLine c :: rest =>
      match parse_lines rest with
      | Ok cs => Ok (c :: cs)
      | r => r
      end
  | _ :: _ => Raise JSONDecodeError
  end.

(** [json.load(f)] on the sidecar, as far as [load_checkpoint] and its
    caller look at the result: the keys [processed_datasets] and
    [topic_counts], each empty when the document has no such key. *)
Definition parse_meta (pieces : list text_piece) : result Meta :=
  match pieces with
  | [MetaDoc m] => Ok m
  | [ChunkLine _] => Ok (mkMeta [] [])
  | [StatsDoc s] =>
      match json_topic_counts (stat_topic_counts s) with
      | Some tc => Ok (mkMeta [] tc)
      | None => Raise JSONDecodeError
      end
  | _ => Raise JSONDecodeError
  end.

(** [set(names)], in order of first occurrence. *)
Fixpoint set_of (names : list pystr) : list pystr :=
  match names with
  | [] => []
  | n :: rest =>
      let s := set_of rest in
      n :: filter (fun m => negb (pystr_eqb n m)) s
  end.

Definition mem (n : pystr) (s : list pystr) : bool := existsb (pystr_eqb n) s.

(** [s.add(n)] *)
Definition set_add (n : pystr) (s : list pystr) : list pystr :=
  if mem n s then s else s ++ [n].

(** The empty state [[], {}, set()]. *)
Definition empty_checkpoint : list Chunk * Meta * list pystr :=
  ([], mkMeta [] [], []).

Definition load_checkpoint : M (list Chunk * Meta * list pystr) :=
  e1 <- exists_ checkpoint_jsonl ;;
  if negb e1 then ret empty_checkpoint
  else
    e2 <- exists_ checkpoint_meta_json ;;
    if negb e2 then ret empty_checkpoint
    else
      lines <- read checkpoint_jsonl ;;
      chunks_ <- lift (parse_lines lines) ;;
      doc <- read checkpoint_meta_json ;;
      metadata <- lift (parse_meta doc) ;;
      let processed := set_of (meta_processed_datasets metadata) in
      ret (chunks_, metadata, processed).

(** ** The orchestrator *)

(** The arguments of [prepare_huggingface_benchmark] ([output_dir] is the
    directory [FS] models). *)
Record Args : Type := mkArgs {
  max_chunks : Z;
  chunk_size : Z;
  overlap : Z;
  datasets : option (list pystr);
  resume : bool
}.

(** How the process ends. *)
Inductive outcome : Type :=
| Returned (stats : RunStatistics)
| Exited (status : Z)      (* sys.exit(status) *)
| Raised (e : exn)         (* an exception nobody catches *)
| Hung.                    (* a loop that never ends *)

(** The accumulators of a run: [all_chunks], [topic_counts],
    [processed_datasets] and [stats]. *)
Record Acc : Type := mkAcc {
  all_chunks : list Chunk;
  topic_counts : TopicCounts;
  processed_datasets : list pystr;
  stats : RunStatistics
}.

(** [if datasets: configs = [c for c in configs if c.name in datasets]]:
    whether the object [c] is in [configs]. *)
Definition selected (datasets_ : option (list pystr)) (c : DatasetConfig)
    : bool :=
  match datasets_ with
  | Some (d :: ds) => mem (name c) (d :: ds)
  | _ => true
  end.

(** Whether the object [c] is in [remaining_configs]. *)
Definition remaining (datasets_ : option (list pystr))
    (processed : list pystr) (c : DatasetConfig) : bool :=
  selected datasets_ c && negb (mem (name c) processed).

(** [config.max_docs = min(config.max_docs, per_dataset_limit // 2)] *)
Definition adjust (per_dataset_limit : Z) (c : DatasetConfig)
    : DatasetConfig :=
  mkDatasetConfig (name c) (hf_path c) (hf_subset c) (split_ c)
    (text_field c) (title_field c) (topic_field c)
    (Z.min (max_docs c) (per_dataset_limit / 2))
    (min_words c) (trust_remote_code c) (field_transforms c).

(** The [for config in remaining_configs] loop that assigns [max_docs],
    on the objects themselves. *)
Definition allocate (datasets_ : option (list pystr))
    (processed : list pystr) (per_dataset_limit : Z) : M unit :=
  fun p =>
    (Ok tt,
     mkProc (fs p)
       (map (fun c => if remaining datasets_ processed c
                      then adjust per_dataset_limit c else c)
            (configs p))
       (trace p)).

(** The topic counts a sidecar brings back: JSON object keys are strings,
    and a repeated key keeps its first place and its last value. *)
Fixpoint dict_set {V} (k : pystr) (v : V) (d : list (pystr * V))
    : list (pystr * V) :=
  match d with
  | [] => [(k, v)]
  | (k', v') :: d' =>
      if pystr_eqb k k' then (k', v) :: d' else (k', v') :: dict_set k v d'
  end.

Definition topic_counts_of_json (l : list (pystr * Z)) : TopicCounts :=
  map (fun kv : pystr * Z => (PStr (fst kv), snd kv))
    (fold_left (fun d kv => dict_set (fst kv) (snd kv) d) l []).

(** The accumulators once a source is done: what [process_dataset] left
    in [all_chunks] and [topic_counts], the updates of [stats], and
    [processed_datasets.add(config.name)]. *)
Definition source_done (config : DatasetConfig) (a : Acc)
    (r : list Chunk * TopicCounts * Stats) : Acc :=
  let '(all_chunks_, topic_counts_, dataset_stats_) := r in
  let s := stats a in
  mkAcc all_chunks_ topic_counts_
    (set_add (name config) (processed_datasets a))
    (mkRunStatistics
       (total_documents s + documents dataset_stats_)
       (len all_chunks_)
       (total_words s + words dataset_stats_)
       (stat_chunk_size s) (stat_overlap s)
       (source_datasets s ++ [name config])
       (dict_set (name config) dataset_stats_ (dataset_stats s))
       topic_counts_ (top_topics s)).

(** The ingest loop over [remaining_configs]. *)
Fixpoint ingest (world : World) (args : Args)
    (remaining_configs : list DatasetConfig) (a : Acc) : M Acc :=
  match remaining_configs with
  | [] => ret a
  | config :: rest =>
      if len (all_chunks a) >=? max_chunks args then ret a
      else
        emit (ELoadDataset (kwargs_of config)) ;;;
        r <- lift (process_dataset world config (all_chunks a)
                     (topic_counts a) (chunk_size args) (overlap args)) ;;
        let a' := source_done config a r in
        (* Save checkpoint after each dataset *)
        save_checkpoint (all_chunks a')
          (processed_datasets a', topic_counts a') ;;;
        ingest world args rest a'
  end.

(** [sorted(topic_counts.items(), key=lambda x: -x[1])]: stable, largest
    count first. *)
Fixpoint insert_topic (x : pyval * Z) (l : TopicCounts) : TopicCounts :=
  match l with
  | [] => [x]
  | y :: l' =>
      if snd y <=? snd x then x :: y :: l' else y :: insert_topic x l'
  end.

Definition sorted_by_count (tc : TopicCounts) : TopicCounts :=
  fold_right insert_topic [] tc.

(** [json.dump(stats, f, indent=2)]: like the sidecar, a [stats] dict
    that [json] cannot finish leaves text that does not parse. *)
Definition dump_stats (s : RunStatistics) : M unit :=
  match json_topic_counts (stat_topic_counts s) with
  | Some _ => emit (EAppend metadata_json (StatsDoc s))
  | None => emit (EAppend metadata_json Garbage) ;;; raise TypeError
  end.

(** "Compute top topics": [stats] with its [topic_counts] and
    [top_topics] entries filled in. *)
Definition final_stats (a : Acc) : RunStatistics :=
  let sorted_topics := prefix 100 (sorted_by_count (topic_counts a)) in
  let s := stats a in
  mkRunStatistics (total_documents s) (total_chunks s) (total_words s)
    (stat_chunk_size s) (stat_overlap s) (source_datasets s)
    (dataset_stats s) sorted_topics (map fst sorted_topics).

(** From "Compute top topics" to the end: the final artifacts, then the
    checkpoint clean-up. *)
Definition finalize (a : Acc) : M RunStatistics :=
  let stats_ := final_stats a in
  (* Save final output *)
  emit (ETruncate chunks_jsonl) ;;;
  write_chunks chunks_jsonl (all_chunks a) ;;;
  emit (ETruncate metadata_json) ;;;
  dump_stats stats_ ;;;
  (* Clean up checkpoint *)
  e1 <- exists_ checkpoint_jsonl ;;
  (if e1 then emit (EUnlink checkpoint_jsonl) else ret tt) ;;;
  e2 <- exists_ checkpoint_meta_json ;;
  (if e2 then emit (EUnlink checkpoint_meta_json) else ret tt) ;;;
  ret stats_.

(** "Load checkpoint if resuming": [all_chunks], [topic_counts] and
    [processed_datasets] as the run starts with them. *)
Definition init (args : Args) : M (list Chunk * TopicCounts * list pystr) :=
  if resume args then
    r <- load_checkpoint ;;
    let '(all_chunks_, checkpoint_meta, processed) := r in
    ret (all_chunks_,
         match all_chunks_ with
         | [] => []
         | _ => topic_counts_of_json (meta_topic_counts checkpoint_meta)
         end,
         processed)
  else ret ([], [], []).

(** From "Load checkpoint if resuming" to the progress bar: the
    [remaining_configs] after quota allocation and the accumulators the
    ingest loop starts with. *)
Definition plan (world : World) (args : Args)
    : M (list DatasetConfig * Acc) :=
  loaded <- init args ;;
  let '(all_chunks_, topic_counts_, processed) := loaded in
  (* Calculate per-dataset limits *)
  before_ <- (fun p => (Ok (configs p), p)) ;;
  (match filter (remaining (datasets args) processed) before_ with
   | [] => ret tt
   | c :: cs =>
       let chunks_remaining := max_chunks args - len all_chunks_ in
       let per_dataset_limit := chunks_remaining / len (c :: cs) in
       allocate (datasets args) processed per_dataset_limit
   end) ;;;
  remaining_configs <-
    (fun p => (Ok (filter (remaining (datasets args) processed) (configs p)), p)) ;;
  (* Overall statistics *)
  let stats_ :=
    mkRunStatistics 0 (len all_chunks_)
      (fold_left (fun n c => n + word_count c) all_chunks_ 0)
      (chunk_size args) (overlap args) [] [] topic_counts_ [] in
  ret (remaining_configs, mkAcc all_chunks_ topic_counts_ processed stats_).

(** From "Load checkpoint if resuming" to the end of the ingest loop. *)
Definition plan_and_ingest (world : World) (args : Args) : M Acc :=
  x <- plan world args ;;
  ingest world args (fst x) (snd x).

(** [hf_token = os.environ.get("HF_TOKEN")] and the login attempt, whose
    failure is caught. *)
Definition try_login (world : World) : M unit :=
  match HF_TOKEN world with
  | Some (_ :: _) => emit ELogin
  | _ => ret tt
  end.

(** [datasets] is given and [configs] comes out empty. *)
Definition no_match (datasets_ : option (list pystr))
    (configs_ : list DatasetConfig) : bool :=
  match datasets_, filter (selected datasets_) configs_ with
  | Some (_ :: _), [] => true
  | _, _ => false
  end.

Definition to_outcome (r : result RunStatistics * proc) : outcome * proc :=
  match r with
  | (Ok s, p) => (Returned s, p)
  | (Raise e, p) => (Raised e, p)
  | (Hang, p) => (Hung, p)
  end.

Definition prepare_huggingface_benchmark (world : World) (args : Args)
    (p : proc) : outcome * proc :=
  let p := snd ((emit EMkdir ;;; try_login world) p) in
  (* Filter configs if specific datasets requested *)
  if no_match (datasets args) (configs p) then (Exited 1, p)
  else to_outcome ((a <- plan_and_ingest world args ;; finalize a) p).

(** A process starts with the static [DATASET_CONFIGS] and has done
    nothing yet. *)
Definition fresh (fs_ : FS) : proc := mkProc fs_ DATASET_CONFIGS [].

(** An output directory that does not exist yet. *)
Definition no_dir : FS := mkFS false None None None None.


(** * Vocabulary of the properties *)

(** A word: not empty, no whitespace in it. *)
Definition is_word (w : pystr) : Prop :=
  w <> [] /\ forallb (fun c => negb (isspace c)) w = true.

(** The window of [words_] that starts at word [start]. *)
Definition window_at (words_ : list pystr) (cs : Z) (start : Z) : window :=
  let end_ := Z.min (start + cs) (len words_) in
  (join (str " ") (slice words_ start end_), start, end_).

(** The windows at [start], [start + stride], ..., [n] of them. *)
Definition windows_from (words_ : list pystr) (cs ov : Z) (start : Z)
    (n : nat) : list window :=
  map (fun j => window_at words_ cs (start + Z.of_nat j * (cs - ov)))
    (seq 0 n).

(** The invariant of a chunk record. *)
Definition span_matches (c : Chunk) : Prop :=
  end_word c - start_word c = word_count c
  /\ word_count c = len (split (text c)).


(** The identifier as the specification words it: the first 16 bytes of
    the SHA-256 digest of ["{source}:{document_id}:{chunk_index}"], as
    hexadecimal digits in groups of 8, 4, 4, 4 and 12. *)
Definition grouped_8_4_4_4_12 (h : pystr) : pystr :=
  firstn 8 h ++ str "-" ++ firstn 4 (skipn 8 h) ++ str "-"
  ++ firstn 4 (skipn 12 h) ++ str "-" ++ firstn 4 (skipn 16 h) ++ str "-"
  ++ firstn 12 (skipn 20 h).

Definition identifier (source document_id : pystr) (chunk_index : Z)
    : pystr :=
  grouped_8_4_4_4_12
    (SHA256.hex
       (firstn 16
          (SHA256.digest
             (SHA256.encode
                (source ++ str ":" ++ document_id ++ str ":"
                 ++ of_int chunk_index))))).

Definition is_hex (c : ascii) : bool :=
  existsb (Ascii.eqb c) (str "0123456789abcdef").

(** Five groups of 8, 4, 4, 4 and 12 hexadecimal digits with hyphens
    between them. *)
Definition uuid_shaped (s : pystr) : Prop :=
  exists g1 g2 g3 g4 g5 : pystr,
    s = g1 ++ str "-" ++ g2 ++ str "-" ++ g3 ++ str "-" ++ g4 ++ str "-" ++ g5
    /\ map (@length ascii) [g1; g2; g3; g4; g5] = [8; 4; 4; 4; 12]%nat
    /\ forallb is_hex (g1 ++ g2 ++ g3 ++ g4 ++ g5) = true.

(** Fully lowercase: [s.lower() == s]. *)
Definition lowercase (s : pystr) : Prop := lower s = s.

(** The tag the extractor reads from a string-valued topic field: the
    text before the first comma without the blanks around it, or the
    whole string when it has no comma. *)
Definition first_tag (s : pystr) : pystr :=
  if contains ","%char s then strip (before ","%char s) else s.

(** The topic field, when the document has it, holds an integer or a
    string whose first tag is not empty. *)
Definition plain_topic (config : DatasetConfig) (doc : dict) : Prop :=
  match field_of (topic_field config) doc with
  | Some (PStr s) => first_tag s <> []
  | Some (PInt _) => True
  | Some _ => False
  | None => True
  end.

(** The title, when the document has it, is false in a condition (empty,
    [None], zero) or is a string with a word in it. *)
Definition usable_title (config : DatasetConfig) (doc : dict) : Prop :=
  match field_of (title_field config) doc with
  | Some (PStr s) => s = [] \/ split s <> []
  | Some x => truthy x = false
  | None => True
  end.

(** ** Sample runs

    A world where the code corpus streams three documents of 20 words
    and the stackoverflow corpus three documents of 30 words; the other
    corpora cannot be opened. *)
Definition sample_doc (field : String.string) (n : nat) : dict :=
  [(str field, PStr (doc_of_words n))].

Definition sample_world : World :=
  mkWorld None
    (fun kw =>
       if pystr_eqb (kw_path kw) (str "code_search_net")
       then Some [sample_doc "func_documentation_string" 20;
                  sample_doc "func_documentation_string" 20;
                  sample_doc "func_documentation_string" 20]
       else if pystr_eqb (kw_path kw) (str "pacovaldez/stackoverflow-questions")
       then Some [sample_doc "body" 30; sample_doc "body" 30;
                  sample_doc "body" 30]
       else None).

(** What [r] returned, when it returned. *)
Definition returned {A} (r : result A) (default : A) : A :=
  match r with
  | Ok a => a
  | _ => default
  end.

(** A directory where a crash cut the sidecar short. *)
Definition corrupt_sidecar : FS :=
  mkFS true (Some []) (Some [Garbage]) None None.

(** ** Vocabulary for traces *)

(** The computation only adds to the trace, and the directory it leaves
    is the one it found with the added events replayed. *)
Definition logs {A} (m : M A) : Prop :=
  forall p : proc,
  exists evs : list event,
    trace (snd (m p)) = trace p ++ evs
    /\ fs (snd (m p)) = replay evs (fs p).

(** The computation leaves the [DatasetConfig] objects alone. *)
Definition keeps_configs {A} (m : M A) : Prop :=
  forall p : proc, configs (snd (m p)) = configs p.

(** The records [json.dumps] takes, up to the first one it does not. *)
Fixpoint json_prefix (chunks_ : list Chunk) : list Chunk :=
  match chunks_ with
  | [] => []
  | c :: rest => if json_ok (topic_hint c) then c :: json_prefix rest else []
  end.

Definition all_json_ok (chunks_ : list Chunk) : bool :=
  forallb (fun c => json_ok (topic_hint c)) chunks_.

Definition append_lines (f : path) (chunks_ : list Chunk) : list event :=
  map (fun c => EAppend f (ChunkLine c)) chunks_.

Definition is_unlink (e : event) : bool :=
  match e with
  | EUnlink _ => true
  | _ => false
  end.

(** The final artifacts are completely written: every chunk is in
    [chunks.jsonl] and [metadata.json] holds the whole statistics
    document. *)
Definition final_written (a : Acc) (fs_ : FS) : Prop :=
  f_chunks fs_ = Some (map ChunkLine (all_chunks a))
  /\ f_metadata fs_ = Some [StatsDoc (final_stats a)].

(** A point of the finalize sequence from [fs_] where a checkpoint
    artifact has been removed (the events so far, [pre], hold an unlink)
    and the final artifacts are not completely written. *)
Definition unsafe_point (a : Acc) (fs_ : FS) (pre : list event) : Prop :=
  existsb is_unlink pre = true /\ ~ final_written a (replay pre fs_).

(** The event leaves [chunks.jsonl] and [metadata.json] as they are. *)
Definition leaves_final (e : event) : bool :=
  match e with
  | ETruncate f | EAppend f _ | EUnlink f =>
      match f with
      | chunks_jsonl | metadata_json => false
      | _ => true
      end
  | _ => true
  end.

(** Every field of [c'] but [max_docs] is the one of [c], and [max_docs]
    has not grown. *)
Definition shrinks (c c' : DatasetConfig) : Prop :=
  name c' = name c /\ hf_path c' = hf_path c /\ hf_subset c' = hf_subset c
  /\ split_ c' = split_ c /\ text_field c' = text_field c
  /\ title_field c' = title_field c /\ topic_field c' = topic_field c
  /\ min_words c' = min_words c
  /\ trust_remote_code c' = trust_remote_code c
  /\ field_transforms c' = field_transforms c
  /\ max_docs c' <= max_docs c.

(** The computation changes no field of a [DatasetConfig] object but
    [max_docs], which it may lower. *)
Definition only_shrinks {A} (m : M A) : Prop :=
  forall p : proc, Forall2 shrinks (configs p) (configs (snd (m p))).

(** A run over the code and stackoverflow corpora with a budget of 8
    chunks and windows of 15 words overlapping by 5. *)
Definition sample_args : Args :=
  mkArgs 8 15 5 (Some [str "code"; str "stackoverflow"]) true.

Definition no_acc : Acc :=
  mkAcc [] [] [] (mkRunStatistics 0 0 0 0 0 [] [] [] []).

(** The sample run at the point where the ingest loop is over and
    [finalize] starts. *)
Definition sample_ingested : result Acc * proc :=
  plan_and_ingest sample_world sample_args
    (snd ((emit EMkdir ;;; try_login sample_world) (fresh no_dir))).

(** The documents a source run has taken from its stream. *)
Definition taken (st : Stats) : Z :=
  documents st + skipped_short st + skipped_empty st.

(** The [doc_id] of every line of a chunk stream. *)
Definition doc_ids (file : option (list text_piece)) : list pystr :=
  match file with
  | Some pieces =>
      map (fun t => match t with ChunkLine c => doc_id c | _ => [] end) pieces
  | None => []
  end.

(** A run over the code corpus alone with a budget of 4 chunks and
    windows of 5 words overlapping by 1: the quota gives the source a cap
    of [4 // 1 // 2 = 2] documents. *)
Definition tight_args : Args := mkArgs 4 5 1 (Some [str "code"]) true.

Definition tight_source : result (list Chunk * TopicCounts * Stats) :=
  process_dataset sample_world (adjust 4 code_config) [] []
    (chunk_size tight_args) (overlap tight_args).

(** ** Vocabulary for interruption and resume *)

(** A run that is killed after the ingest loop has dealt with the first
    [k] of the remaining sources: each source it completed has had its
    checkpoint saved, and [finalize] never starts. *)
Definition interrupted_run (world : World) (args : Args) (k : nat)
    (p : proc) : result Acc * proc :=
  (x <- plan world args ;;
   ingest world args (firstn k (fst x)) (snd x))
    (snd ((emit EMkdir ;;; try_login world) p)).

(** The checkpoint artifacts hold the accumulators [a]. *)
Definition checkpointed (a : Acc) (fs_ : FS) : Prop :=
  f_checkpoint fs_ = Some (map ChunkLine (all_chunks a))
  /\ exists tcj : list (pystr * Z),
       json_topic_counts (topic_counts a) = Some tcj
       /\ f_checkpoint_meta fs_
          = Some [MetaDoc (mkMeta (processed_datasets a) tcj)].

(** Every topic is a key [json] can write. *)
Definition keys_ok (tc : TopicCounts) : bool :=
  forallb (fun kv : pyval * Z =>
             match json_key (fst kv) with Some _ => true | None => false end)
    tc.

(** [per_dataset_limit] for a run that starts from [done] chunks with [n]
    sources remaining. *)
Definition per_dataset_limit (args : Args) (done n : Z) : Z :=
  (max_chunks args - done) / n.

(** The sample run with windows of 200 words: one chunk per document. *)
Definition wide_args : Args :=
  mkArgs 8 200 50 (Some [str "code"; str "stackoverflow"]) true.

(** Counting each of [topics] once more, in order. *)
Definition bump_all (topics : list (pyval * key)) (tc : TopicCounts)
    : TopicCounts :=
  fold_left (fun tc_ tk => bump (fst tk) (snd tk) tc_) topics tc.

(** The key is one [json] can write. *)
Definition jsonable (k : key) : bool :=
  match k with
  | KObj _ => false
  | _ => true
  end.

(** The accumulators a run starts the ingest loop with, given what
    [init] brought back. *)
Definition start_acc (args : Args)
    (loaded : list Chunk * TopicCounts * list pystr) : Acc :=
  let '(all_chunks_, topic_counts_, processed) := loaded in
  mkAcc all_chunks_ topic_counts_ processed
    (mkRunStatistics 0 (len all_chunks_)
       (fold_left (fun n c => n + word_count c) all_chunks_ 0)
       (chunk_size args) (overlap args) [] [] topic_counts_ []).

(** The arguments with [ov] for their [overlap]. *)
Definition with_overlap (ov : Z) (args : Args) : Args :=
  mkArgs (max_chunks args) (chunk_size args) ov (datasets args) (resume args).

(** The statistics with [ov] for their [overlap] entry. *)
Definition stats_with_overlap (ov : Z) (s : RunStatistics) : RunStatistics :=
  mkRunStatistics (total_documents s) (total_chunks s) (total_words s)
    (stat_chunk_size s) ov (source_datasets s) (dataset_stats s)
    (stat_topic_counts s) (top_topics s).

(** The accumulators with [ov] for the [overlap] entry of [stats]. *)
Definition acc_with_overlap (ov : Z) (a : Acc) : Acc :=
  mkAcc (all_chunks a) (topic_counts a) (processed_datasets a)
    (stats_with_overlap ov (stats a)).

(** The same end of the process, with [ov] for the [overlap] entry of
    the statistics when it returns some. *)
Definition outcome_with_overlap (ov : Z) (o : outcome) : outcome :=
  match o with
  | Returned s => Returned (stats_with_overlap ov s)
  | _ => o
  end.

(** What a run returned, when it returned. *)
Definition stats_of (o : outcome) : RunStatistics :=
  match o with
  | Returned s => s
  | _ => stats no_acc
  end.

(** The sample run killed after its first source, and the directory it
    leaves. *)
Definition sample_interrupted : result Acc * proc :=
  interrupted_run sample_world sample_args 1 (fresh no_dir).

(** The same with windows of 200 words. *)
Definition wide_interrupted : result Acc * proc :=
  interrupted_run sample_world wide_args 1 (fresh no_dir).

(** * More of the pipeline: vocabulary *)

Definition window_start (w : window) : Z := snd (fst w).
Definition window_end (w : window) : Z := snd w.

(** The number of words a window spans. *)
Definition window_size (w : window) : Z := window_end w - window_start w.

(** [sum(c.get("word_count", 0) for c in chunks)] *)
Definition sum_word_count (chunks_ : list Chunk) : Z :=
  fold_left (fun n c => n + word_count c) chunks_ 0.

(** The documents counted in a [topic_counts] dict. *)
Definition total_count (tc : TopicCounts) : Z :=
  fold_right (fun kv n => snd kv + n) 0 tc.

(** What [process_dataset] fills in for every record of the source
    [config]: the source name, a [doc_id] made of the source name and the
    position of the document in the stream (below the document cap), the
    identifier of that [doc_id] and chunk index, a title of at most 200
    characters and the number of words of the text. *)
Definition record_of_source (config : DatasetConfig) (c : Chunk) : Prop :=
  source_dataset c = name config
  /\ (exists i : Z,
        0 <= i < max_docs config
        /\ doc_id c = name config ++ str "_" ++ of_int i)
  /\ id c = generate_chunk_id (doc_id c) (chunk_idx c) (source_dataset c)
  /\ 0 <= chunk_idx c
  /\ len (title c) <= 200
  /\ word_count c = len (split (text c)).

(** The counters of [stats] agree with the chunks collected so far. *)
Definition counts_agree (a : Acc) : Prop :=
  total_chunks (stats a) = len (all_chunks a)
  /\ total_words (stats a) = sum_word_count (all_chunks a).

(** [total_docs = sum(c.max_docs for c in remaining_configs)], the total
    of the progress bar. *)
Definition total_docs (remaining_configs : list DatasetConfig) : Z :=
  fold_right (fun c n => max_docs c + n) 0 remaining_configs.

(** [processed_datasets.add(config.name)] for each config, in order. *)
Definition add_all (l : list DatasetConfig) (processed : list pystr)
    : list pystr :=
  fold_left (fun s c => set_add (name c) s) l processed.

(** Largest count first. *)
Definition descending (tc : TopicCounts) : Prop :=
  StronglySorted (fun x y : pyval * Z => snd y <= snd x) tc.

(** The same names, whatever their order and however often each is
    given. *)
Definition same_names (a b : list pystr) : Prop :=
  forall n : pystr, mem n a = mem n b.

(** The computation leaves [chunks.jsonl] and [metadata.json] as they
    are, however it ends. *)
Definition keeps_final {A} (m : M A) : Prop :=
  forall p : proc,
    f_chunks (fs (snd (m p))) = f_chunks (fs p)
    /\ f_metadata (fs (snd (m p))) = f_metadata (fs p).

(** No blank at either end: [s.strip() == s]. *)
Definition trimmed (s : pystr) : Prop :=
  (forall (c : ascii) (rest : pystr), s = c :: rest -> isspace c = false)
  /\ (forall (front : pystr) (c : ascii), s = front ++ [c] -> isspace c = false).

(** ** The command line

    [main] from the point where [parser.parse_args()] has returned.
    What it prints is outside the embedding. *)

(** The namespace [parse_args] returns. *)
Record Namespace : Type := mkNamespace {
  ns_output : pystr;
  ns_max_chunks : Z;
  ns_chunk_size : Z;
  ns_overlap : Z;
  ns_datasets : option (list pystr);
  ns_no_resume : bool;
  ns_list_datasets : bool
}.

(** The [choices] of [--datasets]. *)
Definition choices : list pystr :=
  [str "arxiv"; str "code"; str "stackoverflow"; str "wikipedia"].

(** How [main] ends: it returns [None], or the process ends otherwise. *)
Inductive ending : Type :=
| Finished
| ExitedWith (status : Z)
| Failed (e : exn)
| NeverEnds.

Definition main (world : World) (args : Namespace) (p : proc)
    : ending * proc :=
  if ns_list_datasets args then (Finished, p)
  else
    match prepare_huggingface_benchmark world
            (mkArgs (ns_max_chunks args) (ns_chunk_size args)
               (ns_overlap args) (ns_datasets args)
               (negb (ns_no_resume args))) p with
    | (Returned _, p') => (Finished, p')
    | (Exited status, p') => (ExitedWith status, p')
    | (Raised e, p') => (Failed e, p')
    | (Hung, p') => (NeverEnds, p')
    end.

(** What [parse_args] lets through for [--datasets] ([nargs="+"] with
    [choices]): no list at all, or one name or more, each of them one of
    the choices. *)
Definition accepted (args : Namespace) : Prop :=
  match ns_datasets args with
  | None => True
  | Some ds => ds <> [] /\ Forall (fun d => In d choices) ds
  end.

(** * convert_kepler.py: the weight names

    A shallow embedding of [map_fairseq_key] of [scripts/convert_kepler.py]
    and of the part of [convert_fairseq_checkpoint] that renames the
    weights.  Tensors, the checkpoint file and what is saved are outside
    the embedding: a tensor is a value of an arbitrary type, with
    [tensor.float()] and [torch.zeros] as parameters. *)

Module Kepler.

(** [s.startswith(prefix)] *)
Fixpoint startswith (prefix s : pystr) : bool :=
  match prefix, s with
  | [], _ => true
  | c :: prefix', x :: s' => Ascii.eqb c x && startswith prefix' s'
  | _ :: _, [] => false
  end.

(** [s.replace(old, new)] for an [old] that is not empty: the
    occurrences are found from left to right and do not overlap.  [skip]
    is the number of characters of the occurrence just found that are
    still to be passed over. *)
Fixpoint replace_go (old new : pystr) (skip : nat) (s : pystr) : pystr :=
  match s with
  | [] => []
  | c :: s' =>
      match skip with
      | S k => replace_go old new k s'
      | O =>
          if startswith old s
          then new ++ replace_go old new (length old - 1) s'
          else c :: replace_go old new 0 s'
      end
  end.

Definition replace_all (old new s : pystr) : pystr := replace_go old new 0 s.

(** [s.split(sep)] for a one-character [sep]; [w] is the part being
    read. *)
Fixpoint split_on (sep : ascii) (w s : pystr) : list pystr :=
  match s with
  | [] => [w]
  | c :: s' =>
      if Ascii.eqb c sep then w :: split_on sep [] s'
      else split_on sep (w ++ [c]) s'
  end.

Definition split_at (sep : ascii) (s : pystr) : list pystr :=
  split_on sep [] s.

Definition sentence_encoder : pystr := str "encoder.sentence_encoder.".

(** [map_fairseq_key]: [Ok None] is the Python [None]. *)
Definition map_fairseq_key (key : pystr) : result (option pystr) :=
  (* Skip non-encoder weights (LM head, etc.) *)
  if negb (startswith sentence_encoder key) then Ok None
  else
    (* Remove prefix *)
    let key := replace_all sentence_encoder [] key in
    (* Embeddings *)
    if pystr_eqb key (str "embed_tokens.weight")
    then Ok (Some (str "embeddings.word_embeddings.weight"))
    else if pystr_eqb key (str "embed_positions.weight")
    then Ok (Some (str "embeddings.position_embeddings.weight"))
    else if pystr_eqb key (str "emb_layer_norm.weight")
    then Ok (Some (str "embeddings.LayerNorm.weight"))
    else if pystr_eqb key (str "emb_layer_norm.bias")
    then Ok (Some (str "embeddings.LayerNorm.bias"))
    (* Encoder layers *)
    else if startswith (str "layers.") key then
      match split_at "."%char key with
      | _ :: layer_idx :: parts_from_2 =>
          let rest := join (str ".") parts_from_2 in
          let layer (name_ : String.string) : result (option pystr) :=
            Ok (Some (str "encoder.layer." ++ layer_idx ++ str name_)) in
          (* Self-attention *)
          if pystr_eqb rest (str "self_attn.q_proj.weight")
          then layer ".attention.self.query.weight"
          else if pystr_eqb rest (str "self_attn.q_proj.bias")
          then layer ".attention.self.query.bias"
          else if pystr_eqb rest (str "self_attn.k_proj.weight")
          then layer ".attention.self.key.weight"
          else if pystr_eqb rest (str "self_attn.k_proj.bias")
          then layer ".attention.self.key.bias"
          else if pystr_eqb rest (str "self_attn.v_proj.weight")
          then layer ".attention.self.value.weight"
          else if pystr_eqb rest (str "self_attn.v_proj.bias")
          then layer ".attention.self.value.bias"
          else if pystr_eqb rest (str "self_attn.out_proj.weight")
          then layer ".attention.output.dense.weight"
          else if pystr_eqb rest (str "self_attn.out_proj.bias")
          then layer ".attention.output.dense.bias"
          (* Self-attention layer norm *)
          else if pystr_eqb rest (str "self_attn_layer_norm.weight")
          then layer ".attention.output.LayerNorm.weight"
          else if pystr_eqb rest (str "self_attn_layer_norm.bias")
          then layer ".attention.output.LayerNorm.bias"
          (* Feed-forward *)
          else if pystr_eqb rest (str "fc1.weight")
          then layer ".intermediate.dense.weight"
          else if pystr_eqb rest (str "fc1.bias")
          then layer ".intermediate.dense.bias"
          else if pystr_eqb rest (str "fc2.weight")
          then layer ".output.dense.weight"
          else if pystr_eqb rest (str "fc2.bias")
          then layer ".output.dense.bias"
          (* FFN layer norm *)
          else if pystr_eqb rest (str "final_layer_norm.weight")
          then layer ".output.LayerNorm.weight"
          else if pystr_eqb rest (str "final_layer_norm.bias")
          then layer ".output.LayerNorm.bias"
          else Ok None
      | _ => Raise IndexError   (* parts[1] *)
      end
    else Ok None.

(** *** Renaming the weights of a checkpoint

    The part of [convert_fairseq_checkpoint] between loading the
    checkpoint and saving the weights.  A [state_dict] is the list of
    its items in order. *)

Section Weights.

Variable tensor : Type.

(** [tensor.float()] when the dtype is not [torch.float32], the tensor
    itself when it is. *)
Variable as_float32 : tensor -> tensor.

(** [torch.zeros(rows, columns)] *)
Variable zeros : Z -> Z -> tensor.

(** The loop over [state_dict.items()], from the [mapped] and [skipped]
    it has so far. *)
Fixpoint map_keys (items : list (pystr * tensor))
    (mapped : list (pystr * tensor)) (skipped : list pystr)
    : result (list (pystr * tensor) * list pystr) :=
  match items with
  | [] => Ok (mapped, skipped)
  | (key, t) :: rest =>
      match map_fairseq_key key with
      | Ok None => map_keys rest mapped (skipped ++ [key])
      | Ok (Some new_key) =>
          (* Convert to float32 if needed *)
          map_keys rest (dict_set new_key (as_float32 t) mapped) skipped
      | Raise e => Raise e
      | Hang => Hang
      end
  end.

Definition expected_prefixes : list pystr :=
  [str "embeddings.word_embeddings";
   str "embeddings.position_embeddings";
   str "embeddings.LayerNorm";
   str "encoder.layer.0";
   str "encoder.layer.11"].

(** [any(k.startswith(prefix) for k in mapped)] *)
Definition any_startswith (prefix_ : pystr) (mapped : list (pystr * tensor))
    : bool :=
  existsb (fun kv => startswith prefix_ (fst kv)) mapped.

(** [KEPLER_CONFIG["hidden_size"]] *)
Definition hidden_size : Z := 768.

Definition token_type_embeddings : pystr :=
  str "embeddings.token_type_embeddings.weight".

(** How the renaming ends: the weights to save, or an exception. *)
Inductive renamed : Type :=
| Weights (mapped : list (pystr * tensor)) (skipped : list pystr)
| ValueError (missing_prefix : pystr)
| Uncaught (e : exn)
| Loops.

(** From "Map keys and filter tensors" to "Save as safetensors". *)
Definition rename_weights (state_dict : list (pystr * tensor)) : renamed :=
  match map_keys state_dict [] [] with
  | Ok (mapped, skipped) =>
      (* Validate we have expected weights *)
      match find (fun prefix_ => negb (any_startswith prefix_ mapped))
              expected_prefixes with
      | Some prefix_ => ValueError prefix_
      | None =>
          match dict_get token_type_embeddings mapped with
          | None =>
              (* Use zeros for dummy token type embeddings *)
              Weights (dict_set token_type_embeddings (zeros 1 hidden_size)
                         mapped) skipped
          | Some _ => Weights mapped skipped
          end
      end
  | Raise e => Uncaught e
  | Hang => Loops
  end.

End Weights.

End Kepler.

(** ** Vocabulary for the weight names *)

(** The names of the weights of one fairseq encoder layer and what
    [map_fairseq_key] calls them. *)
Definition layer_weights : list (String.string * String.string) :=
  [("self_attn.q_proj.weight", "attention.self.query.weight");
   ("self_attn.q_proj.bias", "attention.self.query.bias");
   ("self_attn.k_proj.weight", "attention.self.key.weight");
   ("self_attn.k_proj.bias", "attention.self.key.bias");
   ("self_attn.v_proj.weight", "attention.self.value.weight");
   ("self_attn.v_proj.bias", "attention.self.value.bias");
   ("self_attn.out_proj.weight", "attention.output.dense.weight");
   ("self_attn.out_proj.bias", "attention.output.dense.bias");
   ("self_attn_layer_norm.weight", "attention.output.LayerNorm.weight");
   ("self_attn_layer_norm.bias", "attention.output.LayerNorm.bias");
   ("fc1.weight", "intermediate.dense.weight");
   ("fc1.bias", "intermediate.dense.bias");
   ("fc2.weight", "output.dense.weight");
   ("fc2.bias", "output.dense.bias");
   ("final_layer_norm.weight", "output.LayerNorm.weight");
   ("final_layer_norm.bias", "output.LayerNorm.bias")].

(** The embedding weights, likewise. *)
Definition embedding_weights : list (String.string * String.string) :=
  [("embed_tokens.weight", "embeddings.word_embeddings.weight");
   ("embed_positions.weight", "embeddings.position_embeddings.weight");
   ("emb_layer_norm.weight", "embeddings.LayerNorm.weight");
   ("emb_layer_norm.bias", "embeddings.LayerNorm.bias")].

(** [map_fairseq_key] returns [None] for the key. *)
Definition is_skipped (key : pystr) : bool :=
  match Kepler.map_fairseq_key key with
  | Ok None => true
  | _ => false
  end.

Section RenamedWeights.

Variable tensor : Type.
Variable as_float32 : tensor -> tensor.

(** The weight [kv] is the tensor of a key of [state_dict], as float32,
    under the name [map_fairseq_key] gives that key. *)
Definition renamed_from (state_dict : list (pystr * tensor))
    (kv : pystr * tensor) : Prop :=
  exists (key : pystr) (t : tensor),
    In (key, t) state_dict
    /\ Kepler.map_fairseq_key key = Ok (Some (fst kv))
    /\ snd kv = as_float32 t.

End RenamedWeights.

(** ** Vocabulary for identifiers *)

(** The [content] string of [generate_chunk_id], the text it hashes. *)
Definition content (doc_id : pystr) (chunk_idx : Z) (source : pystr)
    : pystr :=
  source ++ str ":" ++ doc_id ++ str ":" ++ of_int chunk_idx.

(** The [doc_id] [process_dataset] gives document [i] of a source. *)
Definition doc_id_of (source : pystr) (i : Z) : pystr :=
  source ++ str "_" ++ of_int i.

(** ** Vocabulary for the sidecar *)

(** Every topic is a string. *)
Definition string_topics (tc : TopicCounts) : Prop :=
  Forall (fun kv : pyval * Z => exists s : pystr, fst kv = PStr s) tc.
(** * Properties *)

(** ** Words *)

Lemma split_go_word (u w s : pystr) :
  forallb (fun c => negb (isspace c)) u = true ->
  split_go w (u ++ s) = split_go (w ++ u) s.
Proof.
  revert w. induction u as [|c u IH]; intros w Hu; simpl.
  - now rewrite app_nil_r.
  - simpl in Hu. apply andb_prop in Hu as [Hc Hu].
    apply negb_true_iff in Hc. rewrite Hc.
    rewrite IH by exact Hu. now rewrite <- app_assoc.
Qed.

Lemma split_go_words (s w : pystr) :
  forallb (fun c => negb (isspace c)) w = true ->
  Forall is_word (split_go w s).
Proof.
  revert w. induction s as [|c s IH]; intros w Hw; simpl.
  - destruct w as [|a w]; constructor; [|constructor].
    split; [discriminate | exact Hw].
  - destruct (isspace c) eqn:Hc.
    + destruct w as [|a w].
      * now apply IH.
      * constructor; [split; [discriminate | exact Hw] | now apply IH].
    + apply IH. rewrite forallb_app, Hw. simpl. now rewrite Hc.
Qed.

Lemma split_words (s : pystr) : Forall is_word (split s).
Proof. now apply split_go_words. Qed.

Lemma split_go_space (w s : pystr) :
  w <> [] -> split_go w (" "%char :: s) = w :: split_go [] s.
Proof. destruct w; [contradiction | reflexivity]. Qed.

Lemma split_go_end (w : pystr) : w <> [] -> split_go w [] = [w].
Proof. destruct w; [contradiction | reflexivity]. Qed.

Lemma split_join (ws : list pystr) :
  Forall is_word ws -> split (join (str " ") ws) = ws.
Proof.
  unfold split. induction 1 as [|w ws [Hne Hw] Hws IH]; [reflexivity|].
  destruct ws as [|w2 ws].
  - change (join (str " ") [w]) with w.
    rewrite <- (app_nil_r w) at 1. rewrite split_go_word by exact Hw.
    now apply split_go_end.
  - change (join (str " ") (w :: w2 :: ws))
      with (w ++ " "%char :: join (str " ") (w2 :: ws)).
    rewrite split_go_word by exact Hw.
    change ([] ++ w) with w.
    rewrite split_go_space by exact Hne. now rewrite IH.
Qed.

(** ** Slices *)

Lemma len_nonneg {A} (l : list A) : 0 <= len l.
Proof. unfold len. lia. Qed.

Lemma slice_length {A} (l : list A) (s e : Z) :
  0 <= s -> s <= e -> e <= len l -> len (slice l s e) = e - s.
Proof.
  intros Hs He Hl. unfold slice, clamp, len in *.
  destruct (s <? 0) eqn:E1; [apply Z.ltb_lt in E1; lia|].
  destruct (e <? 0) eqn:E2; [apply Z.ltb_lt in E2; lia|].
  rewrite length_firstn, length_skipn. lia.
Qed.

Lemma Forall_firstn {A} (P : A -> Prop) (n : nat) (l : list A) :
  Forall P l -> Forall P (firstn n l).
Proof.
  intros H. revert n. induction H; intros [|n]; simpl; auto.
Qed.

Lemma Forall_skipn {A} (P : A -> Prop) (n : nat) (l : list A) :
  Forall P l -> Forall P (skipn n l).
Proof.
  intros H. revert n. induction H; intros [|n]; simpl; auto.
Qed.

Lemma slice_Forall {A} (P : A -> Prop) (l : list A) (s e : Z) :
  Forall P l -> Forall P (slice l s e).
Proof.
  intros H. unfold slice. now apply Forall_firstn, Forall_skipn.
Qed.

Lemma split_slice (words_ : list pystr) (s e : Z) :
  Forall is_word words_ -> 0 <= s -> s <= e -> e <= len words_ ->
  len (split (join (str " ") (slice words_ s e))) = e - s.
Proof.
  intros Hw Hs He Hl.
  rewrite split_join by now apply slice_Forall.
  now apply slice_length.
Qed.

(** ** The chunker *)

Section Chunker.

Variables (words_ : list pystr) (cs ov : Z).

Lemma windows_from_S (start : Z) (n : nat) :
  windows_from words_ cs ov start (S n)
  = window_at words_ cs start :: windows_from words_ cs ov (start + (cs - ov)) n.
Proof.
  unfold windows_from. rewrite <- cons_seq, <- seq_shift, map_cons, map_map.
  f_equal.
  - f_equal. simpl. lia.
  - apply map_ext. intros j. f_equal. lia.
Qed.

(** With a positive stride the loop ends, and this is what it returns:
    the windows at [start], [start + stride], ...; a window after the
    first is there only if at least [overlap] words remained from its
    start; and the loop stopped because fewer than [overlap] words
    remained from the next start, or none at all. *)
Lemma chunk_loop_spec (fuel : nat) :
  0 < cs - ov ->
  forall (start : Z) (acc : list window),
  Z.max 0 (len words_ - start) < Z.of_nat fuel ->
  exists n : nat,
    chunk_loop fuel words_ cs ov start acc = Some (acc ++ windows_from words_ cs ov start n)
    /\ ((1 <= n)%nat <-> start < len words_)
    /\ (forall j : nat, (1 <= j < n)%nat ->
          ov <= len words_ - (start + Z.of_nat j * (cs - ov))
          /\ start + Z.of_nat j * (cs - ov) < len words_)
    /\ (len words_ - (start + Z.of_nat n * (cs - ov)) < ov
        \/ len words_ <= start + Z.of_nat n * (cs - ov)).
Proof.
  intros Hstride. induction fuel as [|fuel IH]; intros start acc Hfuel.
  - simpl in Hfuel. lia.
  - cbn [chunk_loop]. destruct (start <? len words_) eqn:Hlt.
    + apply Z.ltb_lt in Hlt.
      destruct (len words_ - (start + (cs - ov)) <? ov) eqn:Hbrk.
      * apply Z.ltb_lt in Hbrk. exists 1%nat. rewrite windows_from_S.
        split; [reflexivity|].
        split; [split; intros; lia|].
        split; [intros; lia|]. left. lia.
      * apply Z.ltb_ge in Hbrk.
        destruct (IH (start + (cs - ov))
                     (acc ++ [window_at words_ cs start])) as (n & Heq & Hn & Hmid & Hend).
        { lia. }
        exists (S n). rewrite windows_from_S.
        split.
        { replace (acc ++ window_at words_ cs start :: windows_from words_ cs ov (start + (cs - ov)) n)
            with ((acc ++ [window_at words_ cs start])
                  ++ windows_from words_ cs ov (start + (cs - ov)) n)
            by (rewrite <- app_assoc; reflexivity).
          exact Heq. }
        split; [split; intros; lia|].
        split.
        { intros [|[|j]] Hj; [lia | |].
          - assert (H1 : (1 <= n)%nat) by lia. apply Hn in H1. lia.
          - destruct (Hmid (S j)) as [H1 H2]; [lia|]. lia. }
        destruct Hend as [Hend|Hend]; [left|right]; lia.
    + apply Z.ltb_ge in Hlt. exists 0%nat. cbn.
      rewrite app_nil_r.
      split; [reflexivity|].
      split; [split; intros; lia|].
      split; [intros; lia|]. right. lia.
Qed.

(** With a stride of zero or less, a document longer than [chunk_size]
    keeps the loop going whatever the fuel: the start never moves
    forward, and more than [overlap] words always remain. *)
Lemma chunk_loop_diverges (fuel : nat) :
  cs - ov <= 0 -> cs < len words_ -> 0 < len words_ ->
  forall (start : Z) (acc : list window),
  start <= 0 ->
  chunk_loop fuel words_ cs ov start acc = None.
Proof.
  intros Hstride Hlong Hpos.
  induction fuel as [|fuel IH]; intros start acc Hstart; [reflexivity|].
  cbn [chunk_loop].
  replace (start <? len words_) with true by (symmetry; apply Z.ltb_lt; lia).
  replace (len words_ - (start + (cs - ov)) <? ov) with false
    by (symmetry; apply Z.ltb_ge; lia).
  apply IH. lia.
Qed.

End Chunker.

Lemma chunk_text_short (text_ : pystr) (cs ov : Z) :
  len (split text_) <= cs ->
  chunk_text text_ cs ov = Some [(text_, 0, len (split text_))].
Proof.
  intros H. unfold chunk_text, chunk_text_fuel.
  now replace (len (split text_) <=? cs) with true
    by (symmetry; apply Z.leb_le; exact H).
Qed.

(** [chunk_text] returns when the stride is positive. *)
Lemma chunk_text_long (text_ : pystr) (cs ov : Z) :
  0 < cs - ov -> cs < len (split text_) ->
  exists n : nat,
    chunk_text text_ cs ov = Some (windows_from (split text_) cs ov 0 n)
    /\ ((1 <= n)%nat <-> 0 < len (split text_))
    /\ (forall j : nat, (1 <= j < n)%nat ->
          ov <= len (split text_) - Z.of_nat j * (cs - ov)
          /\ Z.of_nat j * (cs - ov) < len (split text_))
    /\ (len (split text_) - Z.of_nat n * (cs - ov) < ov
        \/ len (split text_) <= Z.of_nat n * (cs - ov)).
Proof.
  intros Hstride Hlong. unfold chunk_text, chunk_text_fuel.
  replace (len (split text_) <=? cs) with false
    by (symmetry; apply Z.leb_gt; exact Hlong).
  destruct (chunk_loop_spec (split text_) cs ov (S (length (split text_)))
              Hstride 0 []) as (n & Heq & Hn & Hmid & Hend).
  { unfold len. lia. }
  exists n. split; [exact Heq|]. split; [exact Hn|]. split.
  - intros j Hj. specialize (Hmid j Hj). lia.
  - destruct Hend; [left|right]; lia.
Qed.

(** [chunk_text] never returns when [overlap >= chunk_size] and the
    document has more than [chunk_size] words. *)
Lemma chunk_text_diverges (text_ : pystr) (cs ov : Z) :
  cs <= ov -> cs < len (split text_) -> 0 < len (split text_) ->
  forall fuel : nat, chunk_text_fuel fuel text_ cs ov = None.
Proof.
  intros Hov Hlong Hpos fuel. unfold chunk_text_fuel.
  replace (len (split text_) <=? cs) with false
    by (symmetry; apply Z.leb_gt; exact Hlong).
  apply chunk_loop_diverges; lia.
Qed.

(** The span of every window [chunk_text] returns is as long as its text
    has words, for a [chunk_size] that is not negative. *)
Lemma chunk_text_spans (text_ : pystr) (cs ov : Z) (ws : list window) :
  0 <= cs ->
  chunk_text text_ cs ov = Some ws ->
  Forall (fun w : window =>
            snd w - snd (fst w) = len (split (window_text w))) ws.
Proof.
  intros Hcs Hret.
  destruct (Z.le_gt_cases (len (split text_)) cs) as [Hshort|Hlong].
  - rewrite chunk_text_short in Hret by exact Hshort.
    injection Hret as <-.
    constructor; [cbn [fst snd window_text]; lia | constructor].
  - destruct (Z.le_gt_cases cs ov) as [Hbad|Hgood].
    + unfold chunk_text in Hret.
      rewrite chunk_text_diverges in Hret by lia. discriminate.
    + destruct (chunk_text_long text_ cs ov) as (n & Heq & Hn & Hmid & _);
        [lia | exact Hlong |].
      rewrite Heq in Hret. injection Hret as <-.
      unfold windows_from. apply Forall_map, Forall_forall.
      intros j Hj. apply in_seq in Hj.
      unfold window_at. cbn [fst snd window_text].
      assert (Hstart : 0 <= Z.of_nat j * (cs - ov) < len (split text_)).
      { destruct j as [|j]; [lia|].
        destruct (Hmid (S j)) as [_ H]; [lia|].
        split; [apply Z.mul_nonneg_nonneg; lia | exact H]. }
      rewrite split_slice; try lia. apply split_words.
Qed.

(** C1, as the code has it.  For [0 <= overlap < chunk_size] and a
    document of more than [chunk_size] words, [chunk_text] returns the
    windows that start at 0, stride, 2*stride, ..., each reaching
    [chunk_size] words further or to the end of the document; a window
    after the first is created only when its start is inside the
    document and at least [overlap] words remain from it, and the
    windows stop when fewer than [overlap] words (or none) remain from
    the next start; the number of windows is the only [n >= 1] with
    these two properties.  For [chunk_size = 200],
    [overlap = 50] and 500 words that makes four windows: [0,200),
    [150,350), [300,500) and [450,500), since the 50 words that remain
    from word 450 are not fewer than the overlap. *)
Theorem chunk_text_windows (text_ : pystr) (cs ov : Z) :
  0 <= ov < cs ->
  cs < len (split text_) ->
  exists n : nat,
    chunk_text text_ cs ov = Some (windows_from (split text_) cs ov 0 n)
    /\ (1 <= n)%nat
    /\ (forall j : nat, (1 <= j < n)%nat ->
          ov <= len (split text_) - Z.of_nat j * (cs - ov)
          /\ Z.of_nat j * (cs - ov) < len (split text_))
    /\ (len (split text_) - Z.of_nat n * (cs - ov) < ov
        \/ len (split text_) <= Z.of_nat n * (cs - ov))
    /\ (forall m : nat,
          (1 <= m)%nat ->
          (forall j : nat, (1 <= j < m)%nat ->
             ov <= len (split text_) - Z.of_nat j * (cs - ov)
             /\ Z.of_nat j * (cs - ov) < len (split text_)) ->
          (len (split text_) - Z.of_nat m * (cs - ov) < ov
           \/ len (split text_) <= Z.of_nat m * (cs - ov)) ->
          m = n)
    /\ (cs = 200 -> ov = 50 -> len (split text_) = 500 ->
        map window_span (windows_from (split text_) cs ov 0 n)
        = [(0, 200); (150, 350); (300, 500); (450, 500)]).
Proof.
  intros Hov Hlong.
  destruct (chunk_text_long text_ cs ov) as (n & Heq & Hn & Hmid & Hend);
    [lia | exact Hlong |].
  exists n. split; [exact Heq|]. split; [apply Hn; lia|].
  split; [exact Hmid|]. split; [exact Hend|].
  split.
  { intros m Hm Hmid' Hend'.
    destruct (Nat.lt_trichotomy m n) as [Hlt|[Heq'|Hgt]]; [|exact Heq'|].
    - destruct (Hmid m) as [H1 H2]; lia.
    - assert (1 <= n)%nat by (apply Hn; lia).
      destruct (Hmid' n) as [H1 H2]; lia. }
  intros -> -> Hlen. rewrite Hlen in *.
  assert (n = 4%nat) as ->.
  { destruct (Nat.le_gt_cases 5 n) as [H5|H5].
    - destruct (Hmid 4%nat) as [H _]; lia.
    - assert (1 <= n)%nat by (apply Hn; lia). lia. }
  unfold windows_from, window_at. cbn [seq map window_span fst snd].
  rewrite Hlen. reflexivity.
Qed.

Lemma chunk_text_windows_witness :
  exists n : nat,
    chunk_text (doc_of_words 500) 200 50
    = Some (windows_from (split (doc_of_words 500)) 200 50 0 n)
    /\ (1 <= n)%nat
    /\ (forall j : nat, (1 <= j < n)%nat ->
          50 <= len (split (doc_of_words 500)) - Z.of_nat j * (200 - 50)
          /\ Z.of_nat j * (200 - 50) < len (split (doc_of_words 500)))
    /\ (len (split (doc_of_words 500)) - Z.of_nat n * (200 - 50) < 50
        \/ len (split (doc_of_words 500)) <= Z.of_nat n * (200 - 50))
    /\ (forall m : nat,
          (1 <= m)%nat ->
          (forall j : nat, (1 <= j < m)%nat ->
             50 <= len (split (doc_of_words 500)) - Z.of_nat j * (200 - 50)
             /\ Z.of_nat j * (200 - 50) < len (split (doc_of_words 500))) ->
          (len (split (doc_of_words 500)) - Z.of_nat m * (200 - 50) < 50
           \/ len (split (doc_of_words 500)) <= Z.of_nat m * (200 - 50)) ->
          m = n)
    /\ (200 = 200 -> 50 = 50 -> len (split (doc_of_words 500)) = 500 ->
        map window_span (windows_from (split (doc_of_words 500)) 200 50 0 n)
        = [(0, 200); (150, 350); (300, 500); (450, 500)]).
Proof.
  apply (chunk_text_windows (doc_of_words 500) 200 50);
    [lia | vm_compute; reflexivity].
Defined.

(** C1, as the claim states it, fails: a 500-word document with
    [chunk_size = 200] and [overlap = 50] does not give the three windows
    [0,200), [150,350), [300,500) but those and a fourth, [450,500). *)
Lemma chunk_text_500_words_four_windows :
  len (split (doc_of_words 500)) = 500
  /\ option_map (map window_span) (chunk_text (doc_of_words 500) 200 50)
     = Some [(0, 200); (150, 350); (300, 500); (450, 500)]
  /\ option_map (map window_span) (chunk_text (doc_of_words 500) 200 50)
     <> Some [(0, 200); (150, 350); (300, 500)].
Proof.
  split; [vm_compute; reflexivity|].
  split; [vm_compute; reflexivity|].
  vm_compute. discriminate.
Qed.

(** ** Emitted records *)

Lemma records_of_spans (config : DatasetConfig) (doc_id_ : pystr)
    (title_ topic : pyval) (ws : list window) :
  Forall (fun w : window =>
            snd w - snd (fst w) = len (split (window_text w))) ws ->
  forall idx : Z,
  Forall span_matches (records_of config doc_id_ title_ topic idx ws).
Proof.
  induction 1 as [|[[t s] e] ws Hw Hws IH]; intros idx; cbn [records_of].
  - constructor.
  - constructor; [|apply IH].
    unfold span_matches, window_text in *.
    cbn [end_word start_word word_count text fst snd] in *. lia.
Qed.

Lemma doc_loop_spans (config : DatasetConfig) (cs ov : Z) :
  0 <= cs ->
  forall (dataset : list dict) (i : Z) (output_chunks : list Chunk)
         (tc : TopicCounts) (st : Stats)
         (out : list Chunk) (tc' : TopicCounts) (st' : Stats),
  doc_loop config cs ov i dataset output_chunks tc st = Ok (out, tc', st') ->
  exists new : list Chunk,
    out = output_chunks ++ new /\ Forall span_matches new.
Proof.
  intros Hcs. induction dataset as [|doc rest IH];
    intros i output_chunks tc st out tc' st' Hrun; cbn [doc_loop] in Hrun.
  - injection Hrun as <- _ _. exists []. now rewrite app_nil_r.
  - destruct (i >=? max_docs config).
    { injection Hrun as <- _ _. exists []. now rewrite app_nil_r. }
    destruct (get_or (Some (text_field config)) doc (PStr []))
      as [ | | |[|c s]| | | ]; try (now apply IH in Hrun).
    destruct (len (split (strip (c :: s))) <? min_words config);
      [now apply IH in Hrun|].
    destruct (extract_topic config doc) as [topic| |]; try discriminate.
    destruct (key_of topic) as [k|]; [|discriminate].
    destruct (chunk_text (strip (c :: s)) cs ov) as [ws|] eqn:Hws;
      [|discriminate].
    apply IH in Hrun as (new & -> & Hnew).
    eexists. rewrite <- app_assoc. split; [reflexivity|].
    apply Forall_app. split; [|exact Hnew].
    apply records_of_spans.
    exact (chunk_text_spans (strip (c :: s)) cs ov ws Hcs Hws).
Qed.

(** Every record [process_dataset] appends has a span as long as its
    text has words. *)
Lemma process_dataset_spans (world : World)
    (config : DatasetConfig) (output_chunks : list Chunk) (tc : TopicCounts)
    (cs ov : Z) (out : list Chunk) (tc' : TopicCounts) (st : Stats) :
  0 <= cs ->
  process_dataset world config output_chunks tc cs ov = Ok (out, tc', st) ->
  exists new : list Chunk,
    out = output_chunks ++ new /\ Forall span_matches new.
Proof.
  intros Hcs Hrun. unfold process_dataset in Hrun.
  destruct (load_dataset world (kwargs_of config)) as [dataset|].
  - now apply doc_loop_spans in Hrun.
  - injection Hrun as <- _ _. exists []. now rewrite app_nil_r.
Qed.

(** ** The identifier generator *)

(** The test vectors of FIPS 180-4 for the hash. *)
Example sha256_abc :
  SHA256.hex (SHA256.digest (SHA256.encode (str "abc")))
  = str "ba7816bf8f01cfea414140de5dae2223b00361a396177a9cb410ff61f20015ad".
Proof. vm_compute. reflexivity. Qed.

Example sha256_empty :
  SHA256.hex (SHA256.digest [])
  = str "e3b0c44298fc1c149afbf4c8996fb92427ae41e4649b934ca495991b7852b855".
Proof. vm_compute. reflexivity. Qed.

Example sha256_two_blocks :
  SHA256.hex (SHA256.digest (SHA256.encode
    (str "abcdbcdecdefdefgefghfghighijhijkijkljklmklmnlmnomnopnopq")))
  = str "248d6a61d20638b8e5c026930c3e6039a33ce45964ff2167f6ecedd419db06c1".
Proof. vm_compute. reflexivity. Qed.

Example generate_chunk_id_arxiv :
  generate_chunk_id (str "arxiv_0") 0 (str "arxiv")
  = str "699970cd-a918-c435-891e-44af19d207e9".
Proof. vm_compute. reflexivity. Qed.

Lemma digest_length (msg : SHA256.bytes) :
  length (SHA256.digest msg) = 32%nat.
Proof. unfold SHA256.digest. rewrite !length_app. reflexivity. Qed.

Lemma hex_digit_is_hex (n : N) : is_hex (SHA256.hex_digit n) = true.
Proof.
  unfold SHA256.hex_digit.
  assert (H : (N.to_nat (n mod 16) < 16)%nat).
  { pose proof (N.mod_lt n 16). lia. }
  remember (N.to_nat (n mod 16)) as k eqn:Hk. clear Hk.
  do 16 (destruct k as [|k]; [reflexivity | apply Nat.succ_lt_mono in H]).
  lia.
Qed.

Lemma hex_is_hex (b : SHA256.bytes) : forallb is_hex (SHA256.hex b) = true.
Proof.
  induction b as [|x b IH]; [reflexivity|].
  cbn [SHA256.hex flat_map app forallb].
  rewrite !hex_digit_is_hex. exact IH.
Qed.

Lemma hex_length (b : SHA256.bytes) :
  length (SHA256.hex b) = (2 * length b)%nat.
Proof.
  induction b as [|x b IH]; [reflexivity|].
  cbn [SHA256.hex flat_map app length]. fold (SHA256.hex b). lia.
Qed.

(** C10.  [generate_chunk_id] depends on nothing but its three arguments,
    so equal arguments give equal identifiers; the identifier is the
    first 16 bytes of the SHA-256 digest of
    ["{source}:{doc_id}:{chunk_idx}"] written as hexadecimal digits in
    groups of 8, 4, 4, 4 and 12. *)
Theorem generate_chunk_id_is_grouped_digest
    (doc_id_ doc_id' : pystr) (idx idx' : Z) (source source' : pystr) :
  (source, doc_id_, idx) = (source', doc_id', idx') ->
  generate_chunk_id doc_id_ idx source = generate_chunk_id doc_id' idx' source'
  /\ generate_chunk_id doc_id_ idx source = identifier source doc_id_ idx
  /\ uuid_shaped (generate_chunk_id doc_id_ idx source).
Proof.
  intros Heq. injection Heq as <- <- <-. split; [reflexivity|].
  unfold generate_chunk_id, identifier, uuid_shaped.
  pose proof (digest_length
    (SHA256.encode (source ++ str ":" ++ doc_id_ ++ str ":" ++ of_int idx)))
    as Hlen.
  destruct (SHA256.digest
    (SHA256.encode (source ++ str ":" ++ doc_id_ ++ str ":" ++ of_int idx)))
    as [|b d]; [discriminate|].
  do 31 (destruct d as [|? d]; [discriminate|]).
  destruct d; [|discriminate]. clear Hlen.
  split; [reflexivity|].
  eexists _, _, _, _, _. split; [reflexivity|]. split; [reflexivity|].
  rewrite !forallb_app, !hex_is_hex. reflexivity.
Qed.

Lemma generate_chunk_id_is_grouped_digest_witness :
  generate_chunk_id (str "code_17") 3 (str "code")
  = generate_chunk_id (str "code_17") 3 (str "code")
  /\ generate_chunk_id (str "code_17") 3 (str "code")
     = identifier (str "code") (str "code_17") 3
  /\ uuid_shaped (generate_chunk_id (str "code_17") 3 (str "code")).
Proof.
  apply (generate_chunk_id_is_grouped_digest
           (str "code_17") (str "code_17") 3 3 (str "code") (str "code")).
  reflexivity.
Defined.

(** ** The topic extractor *)

Lemma lower_char_idem (c : ascii) : lower_char (lower_char c) = lower_char c.
Proof. destruct c as [[] [] [] [] [] [] [] []]; reflexivity. Qed.

Lemma lower_idem (s : pystr) : lowercase (lower s).
Proof.
  unfold lowercase, lower. rewrite map_map. apply map_ext.
  intros c. apply lower_char_idem.
Qed.

Lemma lowercase_app (a b : pystr) :
  lowercase a -> lowercase b -> lowercase (a ++ b).
Proof. unfold lowercase, lower. intros Ha Hb. now rewrite map_app, Ha, Hb. Qed.

Lemma lowercase_firstn (n : nat) (s : pystr) :
  lowercase s -> lowercase (firstn n s).
Proof. unfold lowercase, lower. intros H. now rewrite <- firstn_map, H. Qed.

Lemma lowercase_replace_dot (s : pystr) :
  lowercase (replace "."%char "_"%char (lower s)).
Proof.
  unfold lowercase, lower, replace. rewrite !map_map. apply map_ext.
  intros c. destruct (Ascii.eqb (lower_char c) "."%char);
    [reflexivity | apply lower_char_idem].
Qed.

Lemma lowercase_uint (d : Decimal.uint) :
  lowercase (str (DecimalString.NilEmpty.string_of_uint d)).
Proof.
  unfold lowercase.
  induction d; cbn in *; try reflexivity; now f_equal.
Qed.

Lemma lowercase_of_int (n : Z) : lowercase (of_int n).
Proof.
  unfold of_int, DecimalString.NilZero.string_of_int.
  destruct (Z.to_int n) as [d|d];
    unfold DecimalString.NilZero.string_of_uint;
    destruct d; try reflexivity;
    try apply lowercase_uint;
    apply (lowercase_app (str "-")); try reflexivity; apply lowercase_uint.
Qed.

Lemma prefix_firstn {A} (n : Z) (l : list A) :
  0 <= n -> prefix n l = firstn (Z.to_nat n) l.
Proof.
  intros Hn. pose proof (len_nonneg l) as Hl.
  assert (H0 : clamp (len l) 0 = 0).
  { unfold clamp. change (0 <? 0) with false. lia. }
  assert (H1 : clamp (len l) n = Z.min n (len l)).
  { unfold clamp. destruct (n <? 0) eqn:E; [apply Z.ltb_lt in E; lia|].
    reflexivity. }
  unfold prefix, slice. rewrite H0, H1, Z.sub_0_r.
  change (skipn (Z.to_nat 0) l) with l.
  destruct (Z.le_gt_cases n (len l)) as [H|H].
  - now rewrite Z.min_l by lia.
  - rewrite Z.min_r by lia. unfold len in *. rewrite Nat2Z.id.
    rewrite firstn_all. symmetry. apply firstn_all2. lia.
Qed.

(** C8, as the code has it.  When the source name is lowercase, the topic
    field (if the document has it) holds an integer or a string with a
    non-empty first tag, and the title (if the extractor falls back to
    it) is empty or a string with a word in it, the extractor returns a
    single string that is not empty and is fully lowercase. *)
Theorem extract_topic_lowercase_nonempty (config : DatasetConfig)
    (doc : dict) :
  lowercase (name config) ->
  plain_topic config doc ->
  (field_of (topic_field config) doc = None -> usable_title config doc) ->
  exists t : pystr,
    extract_topic config doc = Ok (PStr t) /\ t <> [] /\ lowercase t.
Proof.
  intros Hname Htopic Htitle.
  unfold extract_topic, plain_topic, usable_title, first_tag in *.
  destruct (field_of (topic_field config) doc) as [topic|].
  - destruct topic as [ | |n|s| | | ]; try contradiction.
    + eexists. split; [reflexivity|]. split; [discriminate|].
      apply (lowercase_app (str "label_")); [reflexivity|].
      apply lowercase_of_int.
    + destruct (contains ","%char s).
      * eexists. split; [reflexivity|]. split; [|apply lower_idem].
        unfold lower. destruct (strip (before ","%char s));
          [contradiction | discriminate].
      * eexists. split; [reflexivity|].
        split; [|apply lowercase_replace_dot].
        unfold replace, lower. destruct s; [contradiction | discriminate].
  - specialize (Htitle eq_refl).
    assert (Hgeneral : exists t : pystr,
      Ok (PStr (name config ++ str "_general")) = Ok (PStr t)
      /\ t <> [] /\ lowercase t).
    { eexists. split; [reflexivity|]. split.
      - destruct (name config); discriminate.
      - now apply lowercase_app. }
    destruct (field_of (title_field config) doc) as [title_|]; [|exact Hgeneral].
    destruct title_ as [ |b|n|s|l|d|t sh]; cbn [truthy] in *;
      try (rewrite Htitle; exact Hgeneral); try exact Hgeneral.
    destruct s as [|c s]; [exact Hgeneral|].
    destruct Htitle as [Htitle|Htitle]; [discriminate|].
    pose proof (split_words (c :: s)) as Hwords.
    destruct (split (c :: s)) as [|w ws]; [contradiction|].
    inversion Hwords as [|? ? [Hne _] _]; subst.
    eexists. split; [reflexivity|]. rewrite prefix_firstn by lia. split.
    + destruct w; [contradiction | discriminate].
    + apply lowercase_firstn, lower_idem.
Qed.

Lemma extract_topic_lowercase_nonempty_witness :
  exists t : pystr,
    extract_topic arxiv_config
      [(str "label", PStr (str "cs.AI"))] = Ok (PStr t)
    /\ t <> [] /\ lowercase t.
Proof.
  apply (extract_topic_lowercase_nonempty
           arxiv_config
           [(str "label", PStr (str "cs.AI"))]).
  - reflexivity.
  - vm_compute. discriminate.
  - vm_compute. discriminate.
Defined.

(** C8, as the claim states it, fails: the first element of a list-valued
    topic field comes back as it is, uppercase or not; an empty topic
    string comes back empty; and a title of blanks only makes the
    extractor raise. *)
Lemma extract_topic_not_always_lowercase_nonempty :
  extract_topic arxiv_config [(str "label", PList [PStr (str "CS.AI")])]
     = Ok (PStr (str "CS.AI"))
  /\ ~ lowercase (str "CS.AI")
  /\ extract_topic arxiv_config [(str "label", PStr [])] = Ok (PStr [])
  /\ extract_topic arxiv_config [(str "title", PStr (str "  "))]
     = Raise IndexError.
Proof.
  split; [reflexivity|]. split; [vm_compute; discriminate|].
  split; reflexivity.
Qed.

(** ** The checkpoint store *)

Lemma parse_lines_chunks (cs : list Chunk) :
  parse_lines (map ChunkLine cs) = Ok cs.
Proof.
  induction cs as [|c cs IH]; [reflexivity|].
  cbn [map parse_lines]. now rewrite IH.
Qed.

Lemma parse_lines_garbage (lines : list text_piece) :
  In Garbage lines -> parse_lines lines = Raise JSONDecodeError.
Proof.
  induction lines as [|t lines IH]; intros Hin; [contradiction|].
  destruct t; try reflexivity.
  destruct Hin as [Hin|Hin]; [discriminate|].
  cbn [parse_lines]. now rewrite IH.
Qed.

Lemma parse_lines_raises (lines : list text_piece) (e : exn) :
  parse_lines lines = Raise e -> e = JSONDecodeError.
Proof.
  induction lines as [|t lines IH]; [discriminate|].
  destruct t; cbn [parse_lines]; try (intros [= <-]; reflexivity).
  destruct (parse_lines lines); try discriminate.
  intros [= <-]. now apply IH.
Qed.

Lemma parse_lines_never_hangs (lines : list text_piece) :
  parse_lines lines <> Hang.
Proof.
  induction lines as [|t lines IH]; [discriminate|].
  destruct t; cbn [parse_lines]; try discriminate.
  destruct (parse_lines lines); try discriminate. contradiction.
Qed.

Lemma parse_meta_garbage (doc : list text_piece) :
  In Garbage doc \/ doc = [] -> parse_meta doc = Raise JSONDecodeError.
Proof.
  intros [Hin| ->]; [|reflexivity].
  destruct doc as [|t [|t' doc]]; [contradiction | |].
  - destruct Hin as [->|[]]. reflexivity.
  - destruct t; reflexivity.
Qed.

(** C5, as the code has it.  [load_checkpoint] leaves the directory as it
    is.  It returns the empty state when either artifact is missing.  It
    returns the whole chunk list, the sidecar and the set of completed
    sources when every line of the chunk stream holds a record and the
    sidecar holds one document.  When both artifacts exist and a line or
    the sidecar does not parse (the sidecar may also be empty), it raises
    the decode error: it does not return the empty state. *)
Theorem load_checkpoint_cases (p : proc) :
  let r := fst (load_checkpoint p) in
  fs (snd (load_checkpoint p)) = fs p
  /\ (f_checkpoint (fs p) = None \/ f_checkpoint_meta (fs p) = None ->
      r = Ok empty_checkpoint)
  /\ (forall (cs : list Chunk) (m : Meta),
        f_checkpoint (fs p) = Some (map ChunkLine cs) ->
        f_checkpoint_meta (fs p) = Some [MetaDoc m] ->
        r = Ok (cs, m, set_of (meta_processed_datasets m)))
  /\ (forall lines doc : list text_piece,
        f_checkpoint (fs p) = Some lines ->
        f_checkpoint_meta (fs p) = Some doc ->
        In Garbage lines \/ In Garbage doc \/ doc = [] ->
        r = Raise JSONDecodeError).
Proof.
  destruct p as [[d c m ch md] cfg tr].
  destruct c as [lines|]; [destruct m as [doc|]|];
  cbv beta iota zeta delta
    [load_checkpoint bind exists_ read emit lift ret fs configs trace
     apply_event read_file f_checkpoint f_checkpoint_meta fst snd negb].
  2,3: (split; [reflexivity|]; split; [reflexivity|];
        split; try discriminate; intros ? ? ? ? [?|[?|?]]; discriminate).
  split.
  { destruct (parse_lines lines); [destruct (parse_meta doc)|..]; reflexivity. }
  split; [intros [H|H]; discriminate|].
  split.
  - intros cs m [= ->] [= ->]. rewrite parse_lines_chunks. reflexivity.
  - intros lines' doc' [= <-] [= <-] [H|H].
    + rewrite parse_lines_garbage by exact H. reflexivity.
    + rewrite (parse_meta_garbage doc) by exact H.
      destruct (parse_lines lines) as [cs|e|] eqn:E; [reflexivity | |].
      * apply parse_lines_raises in E. now subst e.
      * now apply parse_lines_never_hangs in E.
Qed.

Lemma load_checkpoint_cases_witness :
  fst (load_checkpoint (fresh corrupt_sidecar)) = Raise JSONDecodeError.
Proof.
  destruct (load_checkpoint_cases (fresh corrupt_sidecar)) as (_ & _ & _ & H).
  apply (H [] [Garbage] eq_refl eq_refl).
  right. left. left. reflexivity.
Defined.

(** C5, as the claim states it, fails: with a corrupt sidecar next to an
    existing chunk stream [load_checkpoint] raises. *)
Lemma load_checkpoint_corrupt_sidecar_raises :
  f_checkpoint corrupt_sidecar = Some []
  /\ f_checkpoint_meta corrupt_sidecar = Some [Garbage]
  /\ fst (load_checkpoint (fresh corrupt_sidecar)) = Raise JSONDecodeError
  /\ fst (load_checkpoint (fresh corrupt_sidecar)) <> Ok empty_checkpoint.
Proof. repeat split. discriminate. Qed.

(** ** Effects: traces and the configuration objects *)

Lemma replay_app (a b : list event) (fs_ : FS) :
  replay (a ++ b) fs_ = replay b (replay a fs_).
Proof. unfold replay. apply fold_left_app. Qed.

Section Logs.

Context {A B : Type}.

Lemma logs_ret (a : A) : logs (ret a).
Proof. intros p. exists []. now rewrite app_nil_r. Qed.

Lemma logs_raise (e : exn) : logs (@raise A e).
Proof. intros p. exists []. now rewrite app_nil_r. Qed.

Lemma logs_lift (r : result A) : logs (lift r).
Proof. intros p. exists []. now rewrite app_nil_r. Qed.

Lemma logs_bind (m : M A) (k : A -> M B) :
  logs m -> (forall a, logs (k a)) -> logs (bind m k).
Proof.
  intros Hm Hk p. unfold bind.
  destruct (Hm p) as (evs1 & Ht1 & Hf1).
  destruct (m p) as [[a|e|] p1]; cbn [snd] in *.
  - destruct (Hk a p1) as (evs2 & Ht2 & Hf2).
    exists (evs1 ++ evs2).
    now rewrite Ht2, Ht1, Hf2, Hf1, app_assoc, replay_app.
  - now exists evs1.
  - now exists evs1.
Qed.

Lemma keeps_configs_ret (a : A) : keeps_configs (ret a).
Proof. intros p. reflexivity. Qed.

Lemma keeps_configs_raise (e : exn) : keeps_configs (@raise A e).
Proof. intros p. reflexivity. Qed.

Lemma keeps_configs_lift (r : result A) : keeps_configs (lift r).
Proof. intros p. reflexivity. Qed.

Lemma keeps_configs_bind (m : M A) (k : A -> M B) :
  keeps_configs m -> (forall a, keeps_configs (k a)) ->
  keeps_configs (bind m k).
Proof.
  intros Hm Hk p. unfold bind. specialize (Hm p).
  destruct (m p) as [[a|e|] p1]; cbn [snd] in *; try exact Hm.
  now rewrite Hk.
Qed.

End Logs.

Lemma logs_emit (e : event) : logs (emit e).
Proof. intros p. now exists [e]. Qed.

Lemma keeps_configs_emit (e : event) : keeps_configs (emit e).
Proof. intros p. reflexivity. Qed.

Lemma logs_state {A} (f : proc -> A) : logs (fun p => (Ok (f p), p)).
Proof. intros p. exists []. now rewrite app_nil_r. Qed.

Lemma keeps_configs_state {A} (f : proc -> A) :
  keeps_configs (fun p => (Ok (f p), p)).
Proof. intros p. reflexivity. Qed.

Create HintDb effects.
#[local] Hint Resolve logs_ret logs_raise logs_lift logs_emit logs_state
  keeps_configs_ret keeps_configs_raise keeps_configs_lift
  keeps_configs_emit keeps_configs_state : effects.

(** Break a computation into its steps. *)
Ltac effects :=
  repeat first
    [ apply logs_bind; [|intros]
    | apply keeps_configs_bind; [|intros]
    | solve [auto with effects]
    | match goal with
      | |- logs (if ?b then _ else _) => destruct b
      | |- keeps_configs (if ?b then _ else _) => destruct b
      | |- logs (match ?x with _ => _ end) => destruct x
      | |- keeps_configs (match ?x with _ => _ end) => destruct x
      end ].

Lemma logs_exists (f : path) : logs (exists_ f).
Proof. unfold exists_. effects. Qed.

Lemma keeps_configs_exists (f : path) : keeps_configs (exists_ f).
Proof. unfold exists_. effects. Qed.

Lemma logs_read (f : path) : logs (read f).
Proof. unfold read. effects. Qed.

Lemma keeps_configs_read (f : path) : keeps_configs (read f).
Proof. unfold read. effects. Qed.

#[local] Hint Resolve logs_exists keeps_configs_exists logs_read
  keeps_configs_read : effects.

Lemma logs_write_chunks (f : path) (cs : list Chunk) :
  logs (write_chunks f cs).
Proof. induction cs; cbn [write_chunks]; effects. Qed.

Lemma keeps_configs_write_chunks (f : path) (cs : list Chunk) :
  keeps_configs (write_chunks f cs).
Proof. induction cs; cbn [write_chunks]; effects. Qed.

#[local] Hint Resolve logs_write_chunks keeps_configs_write_chunks : effects.

Lemma logs_save_checkpoint (cs : list Chunk) (md : list pystr * TopicCounts) :
  logs (save_checkpoint cs md).
Proof. unfold save_checkpoint. effects. Qed.

Lemma keeps_configs_save_checkpoint (cs : list Chunk)
    (md : list pystr * TopicCounts) :
  keeps_configs (save_checkpoint cs md).
Proof. unfold save_checkpoint. effects. Qed.

Lemma logs_load_checkpoint : logs load_checkpoint.
Proof. unfold load_checkpoint. effects. Qed.

Lemma keeps_configs_load_checkpoint : keeps_configs load_checkpoint.
Proof. unfold load_checkpoint. effects. Qed.

#[local] Hint Resolve logs_save_checkpoint keeps_configs_save_checkpoint
  logs_load_checkpoint keeps_configs_load_checkpoint : effects.

Lemma logs_finalize (a : Acc) : logs (finalize a).
Proof. unfold finalize, dump_stats. effects. Qed.

Lemma keeps_configs_finalize (a : Acc) : keeps_configs (finalize a).
Proof. unfold finalize, dump_stats. effects. Qed.

Lemma logs_ingest (world : World) (args : Args) (l : list DatasetConfig) :
  forall a : Acc, logs (ingest world args l a).
Proof.
  induction l as [|c l IH]; intros a; cbn [ingest]; effects.
Qed.

Lemma keeps_configs_ingest (world : World) (args : Args)
    (l : list DatasetConfig) :
  forall a : Acc, keeps_configs (ingest world args l a).
Proof.
  induction l as [|c l IH]; intros a; cbn [ingest]; effects.
Qed.

#[local] Hint Resolve logs_finalize keeps_configs_finalize logs_ingest
  keeps_configs_ingest : effects.

Lemma logs_allocate (ds : option (list pystr)) (processed : list pystr)
    (limit : Z) :
  logs (allocate ds processed limit).
Proof. intros p. exists []. now rewrite app_nil_r. Qed.

#[local] Hint Resolve logs_allocate : effects.

Lemma logs_plan_and_ingest (world : World) (args : Args) :
  logs (plan_and_ingest world args).
Proof. unfold plan_and_ingest, plan, init. effects. Qed.

(** ** Finalize *)

Lemma read_set_file (f : path) (c : option (list text_piece)) (fs_ : FS) :
  read_file f (set_file f c fs_) = c.
Proof. destruct f; reflexivity. Qed.

Lemma set_set_file (f : path) (c c' : option (list text_piece)) (fs_ : FS) :
  set_file f c' (set_file f c fs_) = set_file f c' fs_.
Proof. destruct f; reflexivity. Qed.

Lemma set_read_file (f : path) (fs_ : FS) :
  set_file f (read_file f fs_) fs_ = fs_.
Proof. destruct f, fs_; reflexivity. Qed.

Lemma replay_append_lines (f : path) (cs : list Chunk) :
  forall (fs_ : FS) (l : list text_piece),
  read_file f fs_ = Some l ->
  replay (append_lines f cs) fs_
  = set_file f (Some (l ++ map ChunkLine cs)) fs_.
Proof.
  induction cs as [|c cs IH]; intros fs_ l Hl.
  - cbn. now rewrite app_nil_r, <- Hl, set_read_file.
  - cbn [append_lines map replay fold_left apply_event]. rewrite Hl.
    fold (replay (append_lines f cs) (set_file f (Some (l ++ [ChunkLine c])) fs_)).
    rewrite (IH _ (l ++ [ChunkLine c])) by apply read_set_file.
    now rewrite set_set_file, <- app_assoc.
Qed.

Lemma write_chunks_run (f : path) (cs : list Chunk) (p : proc) :
  write_chunks f cs p
  = (if all_json_ok cs then Ok tt else Raise TypeError,
     mkProc (replay (append_lines f (json_prefix cs)) (fs p)) (configs p)
       (trace p ++ append_lines f (json_prefix cs))).
Proof.
  revert p. induction cs as [|c cs IH]; intros p.
  - cbn. rewrite app_nil_r. now destruct p.
  - cbn [write_chunks all_json_ok forallb json_prefix].
    destruct (json_ok (topic_hint c)).
    + unfold bind, emit. rewrite IH. cbn [fs configs trace andb].
      now rewrite <- app_assoc.
    + cbn. rewrite app_nil_r. now destruct p.
Qed.

Lemma json_prefix_all (cs : list Chunk) :
  all_json_ok cs = true -> json_prefix cs = cs.
Proof.
  induction cs as [|c cs IH]; [reflexivity|].
  cbn. destruct (json_ok (topic_hint c)); [|discriminate].
  intros H. now rewrite IH.
Qed.

Lemma no_unlink_append_lines (f : path) (cs : list Chunk) :
  existsb is_unlink (append_lines f cs) = false.
Proof. induction cs; [reflexivity | exact IHcs]. Qed.

(** A prefix that reaches an unlink goes past every event before it. *)
Lemma prefix_past_head (head tail pre suf : list event) :
  head ++ tail = pre ++ suf ->
  existsb is_unlink head = false ->
  existsb is_unlink pre = true ->
  exists pre' : list event, pre = head ++ pre' /\ tail = pre' ++ suf.
Proof.
  revert pre. induction head as [|h head IH]; intros pre Heq Hh Hp.
  - now exists pre.
  - destruct pre as [|e pre]; [discriminate|].
    cbn in Heq. injection Heq as <- Heq.
    cbn in Hh, Hp. apply orb_false_iff in Hh as [Hh1 Hh2].
    rewrite Hh1 in Hp. destruct (IH pre Heq Hh2 Hp) as (pre' & -> & Ht).
    now exists pre'.
Qed.

(** Equal lists of events up to the nesting of the appends. *)
Ltac list_eq :=
  cbn [trace snd];
  repeat (progress (cbn [app]) || rewrite <- app_assoc);
  reflexivity.

Lemma leaves_final_apply (e : event) (fs_ : FS) :
  leaves_final e = true ->
  f_chunks (apply_event e fs_) = f_chunks fs_
  /\ f_metadata (apply_event e fs_) = f_metadata fs_.
Proof.
  destruct e as [ | | | | |f|f t|f]; try (intros _; split; reflexivity);
    destruct f; try discriminate; intros _; cbn;
    try (split; reflexivity).
  destruct (f_checkpoint fs_); split; reflexivity.
  destruct (f_checkpoint_meta fs_); split; reflexivity.
Qed.

Lemma leaves_final_replay (evs : list event) :
  forallb leaves_final evs = true ->
  forall fs_ : FS,
  f_chunks (replay evs fs_) = f_chunks fs_
  /\ f_metadata (replay evs fs_) = f_metadata fs_.
Proof.
  induction evs as [|e evs IH]; intros H fs_; [split; reflexivity|].
  cbn in H. apply andb_prop in H as [He Hevs].
  cbn [replay fold_left]. fold (replay evs (apply_event e fs_)).
  destruct (IH Hevs (apply_event e fs_)) as [H1 H2].
  destruct (leaves_final_apply e fs_ He) as [H3 H4].
  split; congruence.
Qed.

(** The events of [finalize]: first those that write the final
    artifacts, with no unlink among them, then (only when both artifacts
    were written in full) those of the clean-up, which leave the final
    artifacts alone. *)
Lemma finalize_order (a : Acc) (p : proc) :
  exists head tail : list event,
    trace (snd (finalize a p)) = trace p ++ head ++ tail
    /\ existsb is_unlink head = false
    /\ (tail = [] \/ final_written a (replay head (fs p)))
    /\ forallb leaves_final tail = true.
Proof.
  unfold finalize, dump_stats, bind.
  unfold emit at 1. rewrite write_chunks_run.
  destruct p as [[d c m ch md] cfg tr].
  cbn [fs configs trace apply_event set_file f_checkpoint f_checkpoint_meta
       f_metadata dir_exists].
  destruct (all_json_ok (all_chunks a)) eqn:Hok.
  - rewrite (json_prefix_all _ Hok).
    rewrite (replay_append_lines chunks_jsonl (all_chunks a) _ []) by reflexivity.
    cbn [app set_file fs configs trace f_checkpoint f_checkpoint_meta
         f_metadata dir_exists stat_topic_counts].
    destruct (json_topic_counts (stat_topic_counts (final_stats a))).
    + set (head := ETruncate chunks_jsonl
                   :: append_lines chunks_jsonl (all_chunks a)
                      ++ [ETruncate metadata_json;
                          EAppend metadata_json (StatsDoc (final_stats a))]).
      exists head.
      assert (Hhead : forall fs_ : FS,
                existsb is_unlink head = false
                /\ final_written a (replay head fs_)).
      { intros fs_. subst head. split.
        - cbn [existsb is_unlink orb].
          now rewrite existsb_app, no_unlink_append_lines.
        - change (replay (?e :: ?l) ?f) with (replay l (apply_event e f)).
          rewrite replay_app.
          rewrite (replay_append_lines chunks_jsonl (all_chunks a) _ [])
            by apply read_set_file.
          destruct fs_. split; reflexivity. }
      subst head.
      cbv beta iota zeta delta
        [emit exists_ bind ret fs configs trace apply_event read_file
         set_file f_checkpoint f_checkpoint_meta f_metadata f_chunks snd fst].
      destruct c as [c|], m as [m|];
        [ exists [EExists checkpoint_jsonl; EUnlink checkpoint_jsonl;
                  EExists checkpoint_meta_json; EUnlink checkpoint_meta_json]
        | exists [EExists checkpoint_jsonl; EUnlink checkpoint_jsonl;
                  EExists checkpoint_meta_json]
        | exists [EExists checkpoint_jsonl;
                  EExists checkpoint_meta_json; EUnlink checkpoint_meta_json]
        | exists [EExists checkpoint_jsonl; EExists checkpoint_meta_json] ];
        (split; [list_eq|]);
        (split; [apply (Hhead no_dir)|]);
        (split; [right; apply Hhead | reflexivity]).
    + eexists (ETruncate chunks_jsonl :: append_lines chunks_jsonl (all_chunks a)
               ++ [ETruncate metadata_json; EAppend metadata_json Garbage]), [].
      cbv beta iota zeta delta
        [emit raise bind ret fs configs trace apply_event read_file
         set_file f_checkpoint f_checkpoint_meta f_metadata f_chunks snd fst].
      split; [rewrite app_nil_r; list_eq|].
      split; [|split; [left|]; reflexivity].
      cbn [existsb is_unlink orb].
      now rewrite existsb_app, no_unlink_append_lines.
  - exists (ETruncate chunks_jsonl
            :: append_lines chunks_jsonl (json_prefix (all_chunks a))), [].
    cbn [snd trace]. split; [rewrite app_nil_r; list_eq|].
    split; [|split; [left|]; reflexivity].
    cbn [existsb is_unlink orb]. apply no_unlink_append_lines.
Qed.

Lemma unlink_prefix_written (a : Acc) (fs_ : FS)
    (head tail pre suf : list event) :
  existsb is_unlink head = false ->
  tail = [] \/ final_written a (replay head fs_) ->
  forallb leaves_final tail = true ->
  head ++ tail = pre ++ suf ->
  existsb is_unlink pre = true ->
  final_written a (replay pre fs_).
Proof.
  intros Hhead Hw Htail Heq Hunlink.
  destruct (prefix_past_head head tail pre suf Heq Hhead Hunlink)
    as (pre' & -> & Hpre').
  destruct Hw as [->|[Hc Hs]].
  - destruct pre'; [|discriminate].
    rewrite app_nil_r, Hhead in Hunlink. discriminate.
  - rewrite replay_app.
    assert (Hleave : forallb leaves_final pre' = true).
    { rewrite Hpre', forallb_app in Htail.
      now apply andb_prop in Htail as [H _]. }
    destruct (leaves_final_replay pre' Hleave (replay head fs_)) as [H1 H2].
    split; congruence.
Qed.

(** C6, as the code has it.  At every point of the finalize sequence at
    which a checkpoint artifact has been removed, [chunks.jsonl] holds
    every chunk and [metadata.json] holds the whole document: the
    clean-up starts only after both final artifacts are written. *)
Theorem finalize_writes_before_unlink (a : Acc) (p : proc)
    (pre suf : list event) :
  trace (snd (finalize a p)) = trace p ++ pre ++ suf ->
  existsb is_unlink pre = true ->
  final_written a (replay pre (fs p)).
Proof.
  intros Htrace Hunlink.
  destruct (finalize_order a p) as (head & tail & Ht & Hhead & Hw & Htail).
  rewrite Ht in Htrace. apply app_inv_head in Htrace.
  exact (unlink_prefix_written a (fs p) head tail pre suf
           Hhead Hw Htail Htrace Hunlink).
Qed.

Lemma finalize_writes_before_unlink_witness :
  let a := returned (fst sample_ingested) no_acc in
  let p := snd sample_ingested in
  let evs := skipn (length (trace p)) (trace (snd (finalize a p))) in
  existsb is_unlink (firstn 15 evs) = true
  /\ final_written a (replay (firstn 15 evs) (fs p)).
Proof.
  cbv zeta. split; [vm_compute; reflexivity|].
  apply (finalize_writes_before_unlink
           (returned (fst sample_ingested) no_acc) (snd sample_ingested)
           (firstn 15 (skipn (length (trace (snd sample_ingested)))
                         (trace (snd (finalize
                                        (returned (fst sample_ingested) no_acc)
                                        (snd sample_ingested))))))
           (skipn 15 (skipn (length (trace (snd sample_ingested)))
                        (trace (snd (finalize
                                       (returned (fst sample_ingested) no_acc)
                                       (snd sample_ingested))))))).
  - vm_compute. reflexivity.
  - vm_compute. reflexivity.
Defined.

(** C6, as the claim states it, fails: in the finalize sequence of the
    sample run (whose checkpoint artifacts both exist) there is no point
    at which a checkpoint artifact is gone and the final artifacts are
    not completely written. *)
Lemma finalize_sample_no_unsafe_point :
  let a := returned (fst sample_ingested) no_acc in
  let p := snd sample_ingested in
  f_checkpoint (fs p) <> None /\ f_checkpoint_meta (fs p) <> None
  /\ existsb is_unlink (trace (snd (finalize a p))) = true
  /\ ~ exists pre suf : list event,
         trace (snd (finalize a p)) = trace p ++ pre ++ suf
         /\ unsafe_point a (fs p) pre.
Proof.
  cbv zeta. split; [vm_compute; discriminate|].
  split; [vm_compute; discriminate|]. split; [vm_compute; reflexivity|].
  intros (pre & suf & Htrace & Hunlink & Hnot). apply Hnot.
  destruct (finalize_order (returned (fst sample_ingested) no_acc)
              (snd sample_ingested))
    as (head & tail & Ht & Hhead & Hw & Htail).
  rewrite Ht in Htrace. apply app_inv_head in Htrace.
  now apply (unlink_prefix_written _ _ head tail pre suf).
Qed.
(** ** The configuration objects *)

Lemma shrinks_refl (c : DatasetConfig) : shrinks c c.
Proof. unfold shrinks. repeat split; lia. Qed.

Lemma shrinks_trans (c1 c2 c3 : DatasetConfig) :
  shrinks c1 c2 -> shrinks c2 c3 -> shrinks c1 c3.
Proof.
  unfold shrinks. intros H12 H23.
  repeat match goal with H : _ /\ _ |- _ => destruct H end.
  repeat split; try congruence. lia.
Qed.

Lemma shrinks_adjust (limit : Z) (c : DatasetConfig) :
  shrinks c (adjust limit c).
Proof. unfold shrinks, adjust. cbn. repeat split. lia. Qed.

Lemma Forall2_shrinks_refl (l : list DatasetConfig) : Forall2 shrinks l l.
Proof. induction l; constructor; [apply shrinks_refl | assumption]. Qed.

Lemma Forall2_shrinks_trans (l1 l2 l3 : list DatasetConfig) :
  Forall2 shrinks l1 l2 -> Forall2 shrinks l2 l3 -> Forall2 shrinks l1 l3.
Proof.
  intros H12. revert l3. induction H12 as [|c1 c2 l1 l2 Hc H12 IH];
    intros l3 H23; inversion H23; subst; constructor.
  - eapply shrinks_trans; eassumption.
  - now apply IH.
Qed.

Lemma keeps_only_shrinks {A} (m : M A) : keeps_configs m -> only_shrinks m.
Proof. intros H p. rewrite H. apply Forall2_shrinks_refl. Qed.

Lemma only_shrinks_bind {A B} (m : M A) (k : A -> M B) :
  only_shrinks m -> (forall a, only_shrinks (k a)) -> only_shrinks (bind m k).
Proof.
  intros Hm Hk p. unfold bind. specialize (Hm p).
  destruct (m p) as [[a|e|] p1]; cbn [snd] in *; try exact Hm.
  eapply Forall2_shrinks_trans; [exact Hm | apply Hk].
Qed.

Lemma only_shrinks_allocate (ds : option (list pystr))
    (processed : list pystr) (limit : Z) :
  only_shrinks (allocate ds processed limit).
Proof.
  intros p. unfold allocate. cbn [snd configs].
  induction (configs p) as [|c l IH]; constructor; [|exact IH].
  destruct (remaining ds processed c);
    [apply shrinks_adjust | apply shrinks_refl].
Qed.

Lemma only_shrinks_plan_and_ingest (world : World) (args : Args) :
  only_shrinks (plan_and_ingest world args).
Proof.
  unfold plan_and_ingest, plan, init.
  repeat first
    [ apply only_shrinks_bind; [|intros]
    | apply only_shrinks_allocate
    | match goal with
      | |- only_shrinks (match ?x with _ => _ end) => destruct x
      end
    | solve [apply keeps_only_shrinks; effects] ].
Qed.

Lemma snd_to_outcome (r : result RunStatistics * proc) :
  snd (to_outcome r) = snd r.
Proof. destruct r as [[s|e|] p]; reflexivity. Qed.

Lemma keeps_configs_init (args : Args) : keeps_configs (init args).
Proof. unfold init. effects. Qed.

Lemma map_unselected {A} (f : A -> bool) (g : A -> A) (l : list A) :
  filter f l = [] -> map (fun x => if f x then g x else x) l = l.
Proof.
  induction l as [|x l IH]; [reflexivity|]. cbn [filter map].
  destruct (f x); [discriminate|]. intros H. now rewrite IH.
Qed.

(** The objects after [plan], once [init] has returned: every remaining
    one has had its quota assigned. *)
Lemma plan_configs (world : World) (args : Args) (p p1 : proc)
    (chunks_ : list Chunk) (tc : TopicCounts) (processed : list pystr) :
  init args p = (Ok (chunks_, tc, processed), p1) ->
  configs (snd (plan world args p))
  = map (fun c =>
           if remaining (datasets args) processed c
           then adjust
                  ((max_chunks args - len chunks_)
                   / len (filter (remaining (datasets args) processed)
                            (configs p))) c
           else c) (configs p).
Proof.
  intros Hinit.
  assert (Hcfg : configs p1 = configs p).
  { pose proof (keeps_configs_init args p) as H. now rewrite Hinit in H. }
  unfold plan, bind at 1. rewrite Hinit.
  unfold bind at 1. unfold bind at 1. rewrite <- Hcfg.
  destruct (filter (remaining (datasets args) processed) (configs p1))
    as [|c cs] eqn:Hrem.
  - unfold ret, bind. cbn [snd]. now rewrite map_unselected.
  - unfold allocate, ret, bind. reflexivity.
Qed.

Lemma plan_raises_configs (world : World) (args : Args) (p : proc) (e : exn) :
  fst (init args p) = Raise e ->
  configs (snd (plan world args p)) = configs p.
Proof.
  intros Hinit. pose proof (keeps_configs_init args p) as Hcfg.
  unfold plan, bind at 1.
  destruct (init args p) as [[x| |] p1]; try discriminate. exact Hcfg.
Qed.

Lemma start_configs (world : World) (p : proc) :
  configs (snd ((emit EMkdir;;; try_login world) p)) = configs p.
Proof.
  assert (H : keeps_configs (emit EMkdir;;; try_login world))
    by (unfold try_login; effects).
  apply H.
Qed.

(** After [plan], the objects stay as they are. *)
Lemma run_configs (world : World) (args : Args) (p : proc) :
  no_match (datasets args) (configs p) = false ->
  configs (snd (prepare_huggingface_benchmark world args p))
  = configs (snd (plan world args
                    (snd ((emit EMkdir;;; try_login world) p)))).
Proof.
  intros Hmatch. unfold prepare_huggingface_benchmark.
  rewrite start_configs, Hmatch, snd_to_outcome.
  generalize (snd ((emit EMkdir;;; try_login world) p)). intros p0.
  unfold plan_and_ingest. unfold bind at 1. unfold bind at 1.
  destruct (plan world args p0) as [[x| |] p1]; try reflexivity.
  cbn [snd].
  pose proof (keeps_configs_ingest world args (fst x) (snd x) p1) as Hing.
  destruct (ingest world args (fst x) (snd x) p1) as [[a| |] p2];
    cbn [snd] in *; try exact Hing.
  now rewrite keeps_configs_finalize.
Qed.

(** C7, as the code has it.  A run changes no field of any
    [DatasetConfig] object other than [max_docs], and [max_docs] never
    grows.  The objects are left as they were when the selection matches
    no source or the checkpoint load raises.  In every other run, with
    [chunks_] and [processed] what the checkpoint load brought back,
    quota allocation overwrites [max_docs] in place: the object of every
    selected source that is not in [processed] ends the run with
    [min(max_docs, per_dataset_limit // 2)], where [per_dataset_limit]
    is [(max_chunks - len(chunks_)) // len(remaining_configs)], and
    every other object keeps its [max_docs]. *)
Theorem run_changes_only_max_docs (world : World) (args : Args) (p : proc) :
  let started := snd ((emit EMkdir;;; try_login world) p) in
  let after := configs (snd (prepare_huggingface_benchmark world args p)) in
  Forall2 shrinks (configs p) after
  /\ (no_match (datasets args) (configs p) = true -> after = configs p)
  /\ (forall e : exn, fst (init args started) = Raise e -> after = configs p)
  /\ (forall (chunks_ : list Chunk) (tc : TopicCounts)
             (processed : list pystr),
        no_match (datasets args) (configs p) = false ->
        fst (init args started) = Ok (chunks_, tc, processed) ->
        let remaining_configs :=
          filter (remaining (datasets args) processed) (configs p) in
        let limit := (max_chunks args - len chunks_) / len remaining_configs in
        map max_docs after
        = map (fun c => if remaining (datasets args) processed c
                        then Z.min (max_docs c) (limit / 2)
                        else max_docs c) (configs p)).
Proof.
  cbv zeta. pose proof (start_configs world p) as Hstart.
  split; [|split; [|split]].
  - unfold prepare_huggingface_benchmark.
    destruct (no_match (datasets args)
                (configs (snd ((emit EMkdir;;; try_login world) p)))).
    + cbn [snd]. rewrite Hstart. apply Forall2_shrinks_refl.
    + rewrite snd_to_outcome, <- Hstart.
      apply only_shrinks_bind.
      * apply only_shrinks_plan_and_ingest.
      * intros a. apply keeps_only_shrinks, keeps_configs_finalize.
  - intros Hmatch. unfold prepare_huggingface_benchmark.
    rewrite Hstart, Hmatch. cbn [snd]. exact Hstart.
  - intros e Hinit.
    destruct (no_match (datasets args) (configs p)) eqn:Hmatch.
    + unfold prepare_huggingface_benchmark.
      rewrite Hstart, Hmatch. cbn [snd]. exact Hstart.
    + rewrite (run_configs world args p Hmatch).
      now rewrite (plan_raises_configs world args _ e Hinit).
  - intros chunks_ tc processed Hmatch Hinit.
    rewrite (run_configs world args p Hmatch).
    destruct (init args (snd ((emit EMkdir;;; try_login world) p)))
      as [r p1] eqn:Hrun.
    cbn [fst] in Hinit. subst r.
    rewrite (plan_configs world args _ p1 chunks_ tc processed Hrun).
    rewrite Hstart, map_map. apply map_ext. intros c.
    destruct (remaining (datasets args) processed c); reflexivity.
Qed.

Lemma run_changes_only_max_docs_witness :
  map max_docs
    (configs (snd (prepare_huggingface_benchmark sample_world sample_args
                     (fresh no_dir))))
  = map (fun c => if remaining (datasets sample_args) [] c
                  then Z.min (max_docs c) ((8 - 0) / 2 / 2)
                  else max_docs c) DATASET_CONFIGS.
Proof.
  apply (proj2 (proj2 (proj2 (run_changes_only_max_docs sample_world
                                sample_args (fresh no_dir))))
           [] [] []);
    vm_compute; reflexivity.
Defined.

(** C7, as the claim states it, fails: the sample run leaves the code
    and stackoverflow descriptors with a [max_docs] of 2, where the
    process started with 5000. *)
Lemma quota_allocation_overwrites_max_docs :
  map max_docs (configs (fresh no_dir)) = [5000; 5000; 5000; 5000]
  /\ map max_docs
       (configs (snd (prepare_huggingface_benchmark sample_world sample_args
                        (fresh no_dir))))
     = [5000; 2; 2; 5000].
Proof. split; vm_compute; reflexivity. Qed.

(** ** Configuration errors *)

Lemma to_outcome_not_exited (r : result RunStatistics * proc) (status : Z) :
  fst (to_outcome r) <> Exited status.
Proof. destruct r as [[s|e|] p]; discriminate. Qed.

Lemma start_trace (world : World) (p : proc) :
  exists l : list event,
    snd ((emit EMkdir;;; try_login world) p)
    = mkProc (replay (EMkdir :: l) (fs p)) (configs p)
        (trace p ++ EMkdir :: l).
Proof.
  unfold try_login, bind, emit.
  destruct (HF_TOKEN world) as [[|c t]|]; cbn [snd fs configs trace].
  - exists []. reflexivity.
  - exists [ELogin]. cbn. now rewrite <- app_assoc.
  - exists []. reflexivity.
Qed.

(** ** The budget *)

Lemma ingest_budget_reached (world : World) (args : Args)
    (l : list DatasetConfig) (a : Acc) (p : proc) :
  max_chunks args <= len (all_chunks a) ->
  ingest world args l a p = (Ok a, p).
Proof.
  intros H. destruct l as [|c l]; [reflexivity|]. cbn [ingest].
  now replace (len (all_chunks a) >=? max_chunks args) with true
    by (symmetry; apply Z.geb_le; exact H).
Qed.

Lemma doc_loop_taken (config : DatasetConfig) (cs ov : Z) :
  forall (dataset : list dict) (i : Z) (output_chunks : list Chunk)
         (tc : TopicCounts) (st : Stats)
         (out : list Chunk) (tc' : TopicCounts) (st' : Stats),
  doc_loop config cs ov i dataset output_chunks tc st = Ok (out, tc', st') ->
  taken st'
  = taken st + Z.min (len dataset) (Z.max 0 (max_docs config - i)).
Proof.
  induction dataset as [|doc rest IH];
    intros i output_chunks tc st out tc' st' Hrun; cbn [doc_loop] in Hrun.
  - injection Hrun as _ _ <-. unfold len. cbn. lia.
  - assert (Hlen : len (doc :: rest) = 1 + len rest)
      by (unfold len; cbn [length]; lia).
    rewrite Hlen. pose proof (len_nonneg rest) as Hrest.
    destruct (i >=? max_docs config) eqn:Hcap.
    { apply Z.geb_le in Hcap. injection Hrun as _ _ <-. lia. }
    assert (Hi : i < max_docs config).
    { destruct (Z.lt_ge_cases i (max_docs config)) as [H|H]; [exact H|].
      apply Z.geb_le in H. congruence. }
    assert (Hstep : forall st1 : Stats,
              taken st1 = taken st + 1 ->
              taken st' = taken st1
                          + Z.min (len rest)
                              (Z.max 0 (max_docs config - (i + 1))) ->
              taken st'
              = taken st + Z.min (1 + len rest)
                             (Z.max 0 (max_docs config - i))) by lia.
    destruct (get_or (Some (text_field config)) doc (PStr []))
      as [ | | |[|c s]| | | ];
      try (apply IH in Hrun; eapply Hstep; [|exact Hrun];
           unfold taken; cbn; lia).
    destruct (len (split (strip (c :: s))) <? min_words config).
    { apply IH in Hrun. eapply Hstep; [|exact Hrun].
      unfold taken; cbn; lia. }
    destruct (extract_topic config doc) as [topic| |]; try discriminate.
    destruct (key_of topic) as [k|]; [|discriminate].
    destruct (chunk_text (strip (c :: s)) cs ov) as [ws|]; [|discriminate].
    apply IH in Hrun. eapply Hstep; [|exact Hrun].
    unfold taken; cbn; lia.
Qed.

(** C2, as the code has it.  The budget is checked between sources only.
    Once the running total has reached [max_chunks] the ingest loop
    starts no further source: it returns at once, with no event and the
    accumulators as they are.  Inside a source the budget is not looked
    at: a source whose stream opened takes documents until the stream
    ends or the runtime document cap is reached. *)
Theorem budget_checked_between_sources (world : World) (args : Args)
    (l : list DatasetConfig) (a : Acc) (p : proc)
    (config : DatasetConfig) (dataset : list dict)
    (out : list Chunk) (tc' : TopicCounts) (st : Stats) :
  (max_chunks args <= len (all_chunks a) ->
   ingest world args l a p = (Ok a, p))
  /\ (load_dataset world (kwargs_of config) = Some dataset ->
      process_dataset world config (all_chunks a) (topic_counts a)
        (chunk_size args) (overlap args) = Ok (out, tc', st) ->
      taken st = Z.min (len dataset) (Z.max 0 (max_docs config))).
Proof.
  split; [apply ingest_budget_reached|].
  intros Hload Hrun. unfold process_dataset in Hrun. rewrite Hload in Hrun.
  apply doc_loop_taken in Hrun. rewrite Hrun, Z.sub_0_r.
  unfold taken. cbn. lia.
Qed.

Lemma budget_checked_between_sources_witness :
  let r := returned tight_source ([], [], zero_stats) in
  let a := mkAcc (fst (fst r)) (snd (fst r)) [str "code"]
             (mkRunStatistics 0 0 0 0 0 [] [] [] []) in
  (max_chunks tight_args <= len (all_chunks a)
   /\ ingest sample_world tight_args [stackoverflow_config] a (fresh no_dir)
      = (Ok a, fresh no_dir))
  /\ taken (snd r) = Z.min 3 (Z.max 0 2).
Proof.
  cbv zeta.
  pose (r := returned tight_source ([], [], zero_stats)).
  pose (a := mkAcc (fst (fst r)) (snd (fst r)) [str "code"]
               (mkRunStatistics 0 0 0 0 0 [] [] [] [])).
  assert (Hbudget : max_chunks tight_args <= len (all_chunks a))
    by (vm_compute; discriminate).
  split; [split; [exact Hbudget|]|].
  - apply (budget_checked_between_sources sample_world tight_args
             [stackoverflow_config] a (fresh no_dir) code_config []
             [] [] zero_stats).
    exact Hbudget.
  - apply (budget_checked_between_sources sample_world tight_args
             [] no_acc (fresh no_dir) (adjust 4 code_config)
             [sample_doc "func_documentation_string" 20;
              sample_doc "func_documentation_string" 20;
              sample_doc "func_documentation_string" 20]
             (fst (fst r)) (snd (fst r)) (snd r)).
    + reflexivity.
    + vm_compute. reflexivity.
Defined.

(** C2, as the claim states it, fails: with a budget of 4 chunks the run
    over the code corpus emits 10.  After the first document the total is
    5, which has reached the budget, and the second document is chunked
    all the same. *)
Lemma budget_exceeded_within_a_source :
  let r := prepare_huggingface_benchmark sample_world tight_args
             (fresh no_dir) in
  max_chunks tight_args = 4
  /\ (exists s : RunStatistics, fst r = Returned s /\ total_chunks s = 10)
  /\ doc_ids (f_chunks (fs (snd r)))
     = repeat (str "code_0") 5 ++ repeat (str "code_1") 5.
Proof.
  cbv zeta. split; [reflexivity|]. split.
  - eexists. split; [vm_compute; reflexivity | reflexivity].
  - vm_compute. reflexivity.
Qed.

(** ** Interruption and resume *)

Lemma json_topic_counts_keys_ok (tc : TopicCounts) :
  keys_ok tc = true <-> json_topic_counts tc <> None.
Proof.
  induction tc as [|[t n] tc IH]; cbn.
  - split; [discriminate | reflexivity].
  - destruct (json_key t); cbn.
    + rewrite IH. destruct (json_topic_counts tc);
        split; intros H; try discriminate; try congruence.
    + split; [discriminate | congruence].
Qed.

Lemma save_checkpoint_ok (cs : list Chunk) (pr : list pystr)
    (tc : TopicCounts) (p : proc) :
  all_json_ok cs = true ->
  forall tcj : list (pystr * Z),
  json_topic_counts tc = Some tcj ->
  exists evs : list event,
    save_checkpoint cs (pr, tc) p
    = (Ok tt,
       mkProc
         (set_file checkpoint_meta_json (Some [MetaDoc (mkMeta pr tcj)])
            (set_file checkpoint_jsonl (Some (map ChunkLine cs)) (fs p)))
         (configs p) (trace p ++ evs)).
Proof.
  intros Hcs tcj Htc. unfold save_checkpoint, bind.
  unfold emit at 1. rewrite write_chunks_run.
  rewrite Hcs, (json_prefix_all _ Hcs). cbn [snd]. rewrite Htc.
  cbn [fs configs trace apply_event emit].
  rewrite (replay_append_lines checkpoint_jsonl cs _ [])
    by apply read_set_file.
  unfold emit. cbn [fs configs trace apply_event read_file set_file
                    f_checkpoint_meta app].
  exists (ETruncate checkpoint_jsonl :: append_lines checkpoint_jsonl cs
          ++ [ETruncate checkpoint_meta_json;
              EAppend checkpoint_meta_json (MetaDoc (mkMeta pr tcj))]).
  f_equal. f_equal. list_eq.
Qed.

Lemma save_checkpoint_inv (cs : list Chunk) (pr : list pystr)
    (tc : TopicCounts) (p p' : proc) :
  save_checkpoint cs (pr, tc) p = (Ok tt, p') ->
  all_json_ok cs = true /\ exists tcj, json_topic_counts tc = Some tcj.
Proof.
  unfold save_checkpoint, bind. unfold emit at 1. rewrite write_chunks_run.
  destruct (all_json_ok cs); [|discriminate].
  cbn [snd]. destruct (json_topic_counts tc) as [tcj|].
  - intros _. split; [reflexivity | now exists tcj].
  - unfold emit, raise. discriminate.
Qed.

(** What a source adds does not depend on what was there: the same
    records are appended and the same topics counted whatever the output
    list and the topic counts hold. *)
Lemma doc_loop_factor (config : DatasetConfig) (cs ov : Z) :
  forall (dataset : list dict) (i : Z) (output_chunks : list Chunk)
         (tc : TopicCounts) (st : Stats)
         (out : list Chunk) (tc' : TopicCounts) (st' : Stats),
  doc_loop config cs ov i dataset output_chunks tc st = Ok (out, tc', st') ->
  exists (new : list Chunk) (topics : list (pyval * key)),
    out = output_chunks ++ new
    /\ tc' = bump_all topics tc
    /\ Forall (fun tk => key_of (fst tk) = Some (snd tk)) topics
    /\ forall (chunks2 : list Chunk) (tc2 : TopicCounts),
         doc_loop config cs ov i dataset chunks2 tc2 st
         = Ok (chunks2 ++ new, bump_all topics tc2, st').
Proof.
  induction dataset as [|doc rest IH];
    intros i output_chunks tc st out tc' st' Hrun; cbn [doc_loop] in *.
  - injection Hrun as <- <- <-. exists [], [].
    rewrite app_nil_r. repeat split; [constructor|].
    intros. now rewrite app_nil_r.
  - destruct (i >=? max_docs config).
    { injection Hrun as <- <- <-. exists [], [].
      rewrite app_nil_r. repeat split; [constructor|].
      intros. now rewrite app_nil_r. }
    destruct (get_or (Some (text_field config)) doc (PStr []))
      as [ | | |[|c s]| | | ]; try (now apply IH in Hrun).
    destruct (len (split (strip (c :: s))) <? min_words config);
      [now apply IH in Hrun|].
    destruct (extract_topic config doc) as [topic| |]; try discriminate.
    destruct (key_of topic) as [k|] eqn:Hk; [|discriminate].
    destruct (chunk_text (strip (c :: s)) cs ov) as [ws|]; [|discriminate].
    apply IH in Hrun as (new & topics & -> & -> & Hkeys & Hany).
    eexists (_ ++ new), ((topic, k) :: topics).
    rewrite <- app_assoc. split; [reflexivity|]. split; [reflexivity|].
    split; [constructor; [exact Hk | exact Hkeys]|].
    intros chunks2 tc2. rewrite Hany, <- app_assoc. reflexivity.
Qed.

Lemma process_dataset_factor (world : World) (config : DatasetConfig)
    (cs ov : Z) (output_chunks : list Chunk) (tc : TopicCounts)
    (out : list Chunk) (tc' : TopicCounts) (st : Stats) :
  process_dataset world config output_chunks tc cs ov = Ok (out, tc', st) ->
  exists (new : list Chunk) (topics : list (pyval * key)),
    out = output_chunks ++ new
    /\ tc' = bump_all topics tc
    /\ Forall (fun tk => key_of (fst tk) = Some (snd tk)) topics
    /\ forall (chunks2 : list Chunk) (tc2 : TopicCounts),
         process_dataset world config chunks2 tc2 cs ov
         = Ok (chunks2 ++ new, bump_all topics tc2, st).
Proof.
  unfold process_dataset.
  destruct (load_dataset world (kwargs_of config)) as [dataset|].
  - apply doc_loop_factor.
  - intros [= <- <- <-]. exists [], [].
    rewrite app_nil_r. repeat split; [constructor|].
    intros. now rewrite app_nil_r.
Qed.

Lemma key_eqb_jsonable (k k' : key) :
  key_eqb k k' = true -> jsonable k = jsonable k'.
Proof. destruct k, k'; cbn; congruence. Qed.

Lemma json_key_jsonable (v : pyval) (k : key) :
  key_of v = Some k ->
  jsonable k = match json_key v with Some _ => true | None => false end.
Proof.
  destruct v as [ |[]| | | | | ]; cbn; intros [= <-]; reflexivity.
Qed.

Lemma keys_ok_bump (t : pyval) (k : key) (tc : TopicCounts) :
  key_of t = Some k ->
  keys_ok (bump t k tc) = keys_ok tc && jsonable k.
Proof.
  intros Hk. induction tc as [|[t0 n] tc IH]; cbn [bump keys_ok forallb fst].
  - rewrite <- (json_key_jsonable t k Hk). now rewrite andb_true_r.
  - unfold same_key. destruct (key_of t0) as [k0|] eqn:Hk0.
    + destruct (key_eqb k k0) eqn:Heq; cbn [keys_ok forallb fst].
      * fold (keys_ok tc).
        rewrite <- (json_key_jsonable t0 k0 Hk0),
          (key_eqb_jsonable k k0 Heq).
        destruct (jsonable k0), (keys_ok tc); reflexivity.
      * fold (keys_ok (bump t k tc)) (keys_ok tc). rewrite IH.
        now rewrite andb_assoc.
    + cbn [keys_ok forallb fst].
      fold (keys_ok (bump t k tc)) (keys_ok tc). rewrite IH.
      now rewrite andb_assoc.
Qed.

Lemma keys_ok_bump_all (topics : list (pyval * key)) :
  Forall (fun tk => key_of (fst tk) = Some (snd tk)) topics ->
  forall tc : TopicCounts,
  keys_ok (bump_all topics tc)
  = keys_ok tc && forallb (fun tk => jsonable (snd tk)) topics.
Proof.
  induction 1 as [|[t k] topics Hk Hks IH]; intros tc; cbn.
  - now rewrite andb_true_r.
  - fold (bump_all topics (bump t k tc)). rewrite IH, keys_ok_bump by exact Hk.
    now rewrite andb_assoc.
Qed.

Lemma geb_lt (n m : Z) : n < m -> (n >=? m) = false.
Proof. intros H. rewrite Z.geb_leb. now apply Z.leb_gt. Qed.

(** One turn of the ingest loop, forwards and backwards. *)
Lemma ingest_cons_run (world : World) (args : Args) (c : DatasetConfig)
    (l : list DatasetConfig) (a : Acc) (p p1 : proc)
    (r : list Chunk * TopicCounts * Stats) :
  len (all_chunks a) < max_chunks args ->
  process_dataset world c (all_chunks a) (topic_counts a)
    (chunk_size args) (overlap args) = Ok r ->
  save_checkpoint (all_chunks (source_done c a r))
    (processed_datasets (source_done c a r), topic_counts (source_done c a r))
    (snd (emit (ELoadDataset (kwargs_of c)) p)) = (Ok tt, p1) ->
  ingest world args (c :: l) a p = ingest world args l (source_done c a r) p1.
Proof.
  intros Hbudget Hrun Hsave. cbn [ingest].
  replace (len (all_chunks a) >=? max_chunks args) with false
    by (symmetry; now apply geb_lt).
  unfold bind at 1. unfold emit at 1. unfold bind at 1. unfold lift at 1.
  rewrite Hrun. unfold bind at 1.
  unfold emit in Hsave. cbn [snd] in Hsave. rewrite Hsave. reflexivity.
Qed.

Lemma ingest_cons_inv (world : World) (args : Args) (c : DatasetConfig)
    (l : list DatasetConfig) (a a' : Acc) (p p' : proc) :
  ingest world args (c :: l) a p = (Ok a', p') ->
  len (all_chunks a) < max_chunks args ->
  exists (r : list Chunk * TopicCounts * Stats) (p1 : proc),
    process_dataset world c (all_chunks a) (topic_counts a)
      (chunk_size args) (overlap args) = Ok r
    /\ save_checkpoint (all_chunks (source_done c a r))
         (processed_datasets (source_done c a r),
          topic_counts (source_done c a r))
         (snd (emit (ELoadDataset (kwargs_of c)) p)) = (Ok tt, p1)
    /\ ingest world args l (source_done c a r) p1 = (Ok a', p').
Proof.
  intros Hrun Hbudget. cbn [ingest] in Hrun.
  replace (len (all_chunks a) >=? max_chunks args) with false in Hrun
    by (symmetry; now apply geb_lt).
  unfold bind at 1 in Hrun. unfold emit at 1 in Hrun.
  unfold bind at 1 in Hrun. unfold lift at 1 in Hrun.
  destruct (process_dataset world c (all_chunks a) (topic_counts a)
              (chunk_size args) (overlap args)) as [r| |];
    try discriminate.
  unfold bind at 1 in Hrun.
  destruct (save_checkpoint (all_chunks (source_done c a r))
              (processed_datasets (source_done c a r),
               topic_counts (source_done c a r))
              (mkProc (apply_event (ELoadDataset (kwargs_of c)) (fs p))
                 (configs p) (trace p ++ [ELoadDataset (kwargs_of c)])))
    as [[[]| |] p1] eqn:Hsave; try discriminate.
  exists r, p1. split; [reflexivity|]. split; [exact Hsave | exact Hrun].
Qed.

(** The loop over two lists in a row is the loop over the first and then
    the loop over the second. *)
Lemma ingest_app (world : World) (args : Args) (l1 l2 : list DatasetConfig) :
  forall (a : Acc) (p : proc),
  ingest world args (l1 ++ l2) a p
  = bind (ingest world args l1 a) (ingest world args l2) p.
Proof.
  induction l1 as [|c l1 IH]; intros a p; [reflexivity|].
  cbn [app ingest].
  destruct (len (all_chunks a) >=? max_chunks args) eqn:Hbudget.
  - unfold bind, ret. symmetry. apply ingest_budget_reached.
    apply Z.geb_le in Hbudget. lia.
  - unfold bind, emit, lift.
    destruct (process_dataset world c (all_chunks a) (topic_counts a)
                (chunk_size args) (overlap args)) as [r| |];
      try reflexivity.
    destruct (save_checkpoint _ _ _) as [[[]| |] p1]; try reflexivity.
    apply IH.
Qed.

Lemma pystr_eqb_eq (a b : pystr) : pystr_eqb a b = true <-> a = b.
Proof.
  unfold pystr_eqb. destruct (list_eq_dec ascii_dec a b);
    split; congruence.
Qed.

Lemma mem_set_add (n x : pystr) (s : list pystr) :
  mem n (set_add x s) = mem n s || pystr_eqb n x.
Proof.
  unfold set_add. destruct (mem x s) eqn:Hx.
  - destruct (pystr_eqb n x) eqn:Hn; [|now rewrite orb_false_r].
    apply pystr_eqb_eq in Hn. subst n. now rewrite Hx.
  - unfold mem. rewrite existsb_app. cbn. now rewrite orb_false_r.
Qed.

Lemma save_checkpoint_checkpointed (a : Acc) (p p1 : proc) :
  save_checkpoint (all_chunks a) (processed_datasets a, topic_counts a) p
  = (Ok tt, p1) ->
  checkpointed a (fs p1)
  /\ all_json_ok (all_chunks a) = true
  /\ keys_ok (topic_counts a) = true.
Proof.
  intros Hsave.
  destruct (save_checkpoint_inv _ _ _ _ _ Hsave) as (Hcs & tcj & Htc).
  destruct (save_checkpoint_ok (all_chunks a) (processed_datasets a)
              (topic_counts a) p Hcs tcj Htc) as (evs & Hrun).
  rewrite Hrun in Hsave. injection Hsave as <-. cbn [fs].
  split; [|split; [exact Hcs|]].
  - split; [reflexivity|]. exists tcj. split; [exact Htc | reflexivity].
  - apply json_topic_counts_keys_ok. congruence.
Qed.

(** What the ingest loop leaves when it returns: the chunks it found
    with more after them; nothing touched at all, or a checkpoint of the
    accumulators it returns; and, unless the budget has been reached,
    every source of the list among the completed ones. *)
Lemma ingest_inv (world : World) (args : Args) (l : list DatasetConfig) :
  forall (a a' : Acc) (p p' : proc),
  ingest world args l a p = (Ok a', p') ->
  (exists new : list Chunk, all_chunks a' = all_chunks a ++ new)
  /\ ((a' = a /\ p' = p) \/ checkpointed a' (fs p'))
  /\ (len (all_chunks a') < max_chunks args ->
      forall n : pystr,
      mem n (processed_datasets a')
      = mem n (processed_datasets a) || mem n (map name l)).
Proof.
  induction l as [|c l IH]; intros a a' p p' Hrun.
  - injection Hrun as <- <-. split; [exists []; now rewrite app_nil_r|].
    split; [now left|]. intros _ n. cbn. now rewrite orb_false_r.
  - destruct (Z.lt_ge_cases (len (all_chunks a)) (max_chunks args))
      as [Hbudget|Hbudget].
    + destruct (ingest_cons_inv _ _ _ _ _ _ _ _ Hrun Hbudget)
        as ([[out tc'] st] & p1 & Hproc & Hsave & Hrest).
      destruct (IH _ _ _ _ Hrest) as ((new' & Hnew') & Hck & Hmem).
      destruct (process_dataset_factor _ _ _ _ _ _ _ _ _ Hproc)
        as (new0 & topics & Hout & _).
      apply save_checkpoint_checkpointed in Hsave as (Hsaved & _).
      cbn [source_done all_chunks processed_datasets] in Hnew', Hmem.
      split; [exists (new0 ++ new'); now rewrite Hnew', Hout, app_assoc|].
      split.
      * right. destruct Hck as [[-> ->]|Hck]; [exact Hsaved | exact Hck].
      * intros Hlt n. rewrite (Hmem Hlt n), mem_set_add.
        cbn [map mem existsb]. now rewrite orb_assoc.
    + rewrite ingest_budget_reached in Hrun by lia.
      injection Hrun as <- <-. split; [exists []; now rewrite app_nil_r|].
      split; [now left|]. intros Hlt. lia.
Qed.

(** Two runs of the loop from the same chunks emit the same chunks,
    whatever their topic counts, completed sources, statistics and
    directories are: when the first returns, so does the second, as long
    as its topics are ones [json] can write. *)
Lemma ingest_sim (world : World) (args : Args) (l : list DatasetConfig) :
  forall (a1 a1' a2 : Acc) (p1 p1' p2 : proc),
  ingest world args l a1 p1 = (Ok a1', p1') ->
  all_chunks a2 = all_chunks a1 ->
  keys_ok (topic_counts a2) = true ->
  exists (a2' : Acc) (p2' : proc),
    ingest world args l a2 p2 = (Ok a2', p2')
    /\ all_chunks a2' = all_chunks a1'
    /\ keys_ok (topic_counts a2') = true.
Proof.
  induction l as [|c l IH]; intros a1 a1' a2 p1 p1' p2 Hrun Hchunks Hkeys.
  - injection Hrun as <- <-. now exists a2, p2.
  - destruct (Z.lt_ge_cases (len (all_chunks a1)) (max_chunks args))
      as [Hbudget|Hbudget].
    + destruct (ingest_cons_inv _ _ _ _ _ _ _ _ Hrun Hbudget)
        as ([[out tc1'] st] & q1 & Hproc & Hsave & Hrest).
      destruct (process_dataset_factor _ _ _ _ _ _ _ _ _ Hproc)
        as (new0 & topics & Hout & Htc & Htopics & Hany).
      apply save_checkpoint_checkpointed in Hsave as (_ & Hjson & Hkeys1).
      cbn [source_done all_chunks topic_counts processed_datasets]
        in Hjson, Hkeys1.
      rewrite Htc, keys_ok_bump_all in Hkeys1 by exact Htopics.
      apply andb_prop in Hkeys1 as [_ Htopics_ok].
      pose (r2 := (all_chunks a2 ++ new0, bump_all topics (topic_counts a2), st)).
      assert (Hkeys2 : keys_ok (topic_counts (source_done c a2 r2)) = true).
      { cbn. now rewrite keys_ok_bump_all, Hkeys, Htopics_ok by exact Htopics. }
      assert (Hjson2 : all_json_ok (all_chunks (source_done c a2 r2)) = true).
      { cbn. now rewrite Hchunks, <- Hout. }
      apply json_topic_counts_keys_ok in Hkeys2 as Htcj.
      destruct (json_topic_counts (topic_counts (source_done c a2 r2)))
        as [tcj|] eqn:Htcj'; [|contradiction].
      destruct (save_checkpoint_ok _ (processed_datasets (source_done c a2 r2))
                  _ (snd (emit (ELoadDataset (kwargs_of c)) p2))
                  Hjson2 tcj Htcj') as (evs & Hsave2).
      rewrite (ingest_cons_run world args c l a2 p2 _ r2)
        by (try exact Hsave2; try apply Hany; rewrite ?Hchunks; exact Hbudget).
      apply (IH _ _ _ _ _ _ Hrest); [|exact Hkeys2].
      cbn. now rewrite Hchunks, Hout.
    + rewrite ingest_budget_reached in Hrun by lia.
      injection Hrun as <- <-.
      exists a2, p2. rewrite ingest_budget_reached by (rewrite Hchunks; lia).
      now repeat split.
Qed.

Lemma remaining_adjust (ds : option (list pystr)) (processed : list pystr)
    (limit : Z) (c : DatasetConfig) :
  remaining ds processed (adjust limit c) = remaining ds processed c.
Proof. destruct ds as [[|d ds]|]; reflexivity. Qed.

(** The objects of [remaining_configs], read after the quota was
    assigned to them. *)
Lemma filter_allocated (ds : option (list pystr)) (processed : list pystr)
    (limit : Z) (l : list DatasetConfig) :
  filter (remaining ds processed)
    (map (fun c => if remaining ds processed c then adjust limit c else c) l)
  = map (adjust limit) (filter (remaining ds processed) l).
Proof.
  induction l as [|c l IH]; [reflexivity|]. cbn [map filter].
  destruct (remaining ds processed c) eqn:Hc.
  - rewrite remaining_adjust, Hc. cbn [map]. now rewrite IH.
  - now rewrite Hc.
Qed.

(** [plan] once [init] has returned: the remaining sources with their
    quota, and the accumulators. *)
Lemma plan_from (world : World) (args : Args) (p p1 : proc)
    (loaded : list Chunk * TopicCounts * list pystr) :
  init args p = (Ok loaded, p1) ->
  let rem := filter (remaining (datasets args) (snd loaded)) (configs p1) in
  let limit :=
    per_dataset_limit args (len (fst (fst loaded))) (len rem) in
  exists p' : proc,
    plan world args p
    = (Ok (map (adjust limit) rem, start_acc args loaded), p')
    /\ fs p' = fs p1.
Proof.
  intros Hinit. cbv zeta. unfold plan, bind at 1. rewrite Hinit.
  destruct loaded as [[chunks_ tc] processed]. cbn [fst snd].
  unfold bind at 1. unfold bind at 1.
  destruct (filter (remaining (datasets args) processed) (configs p1))
    as [|c cs] eqn:Hrem.
  - unfold ret at 1. unfold bind. rewrite Hrem. cbn [map].
    eexists. split; reflexivity.
  - unfold allocate at 1. unfold bind. cbn [configs].
    rewrite filter_allocated, Hrem. unfold per_dataset_limit.
    eexists. split; reflexivity.
Qed.

Lemma load_checkpoint_missing (p : proc) :
  f_checkpoint (fs p) = None ->
  load_checkpoint p
  = (Ok empty_checkpoint,
     mkProc (fs p) (configs p) (trace p ++ [EExists checkpoint_jsonl])).
Proof.
  destruct p as [[d c m ch md] cfg tr]. cbn [fs f_checkpoint].
  intros ->. reflexivity.
Qed.

Lemma load_checkpoint_present (p : proc) (cs : list Chunk) (m : Meta) :
  f_checkpoint (fs p) = Some (map ChunkLine cs) ->
  f_checkpoint_meta (fs p) = Some [MetaDoc m] ->
  load_checkpoint p
  = (Ok (cs, m, set_of (meta_processed_datasets m)),
     mkProc (fs p) (configs p)
       (trace p ++ [EExists checkpoint_jsonl; EExists checkpoint_meta_json;
                    ERead checkpoint_jsonl; ERead checkpoint_meta_json])).
Proof.
  destruct p as [[d c mf ch md] cfg tr].
  cbn [fs f_checkpoint f_checkpoint_meta]. intros -> ->.
  cbv beta iota zeta delta
    [load_checkpoint bind exists_ read emit lift ret fs configs trace
     apply_event read_file f_checkpoint f_checkpoint_meta fst snd negb].
  rewrite parse_lines_chunks. cbn [parse_meta].
  f_equal. f_equal. list_eq.
Qed.

Lemma init_fresh (args : Args) (p : proc) :
  resume args = true ->
  f_checkpoint (fs p) = None ->
  exists p1 : proc,
    init args p = (Ok ([], [], []), p1)
    /\ fs p1 = fs p /\ configs p1 = configs p.
Proof.
  intros Hresume Hnone. unfold init, bind. rewrite Hresume.
  rewrite load_checkpoint_missing by exact Hnone.
  eexists. split; [reflexivity|]. split; reflexivity.
Qed.

Lemma keys_ok_of_json (l : list (pystr * Z)) :
  keys_ok (topic_counts_of_json l) = true.
Proof.
  unfold topic_counts_of_json.
  induction (fold_left (fun d kv => dict_set (fst kv) (snd kv) d) l [])
    as [|kv d IH]; [reflexivity | exact IH].
Qed.

Lemma init_resumed (args : Args) (a : Acc) (p : proc) :
  resume args = true ->
  checkpointed a (fs p) ->
  exists (tc : TopicCounts) (p1 : proc),
    init args p = (Ok (all_chunks a, tc, set_of (processed_datasets a)), p1)
    /\ keys_ok tc = true
    /\ fs p1 = fs p /\ configs p1 = configs p.
Proof.
  intros Hresume (Hck & tcj & Htc & Hmeta).
  unfold init, bind. rewrite Hresume.
  rewrite (load_checkpoint_present p _ _ Hck Hmeta).
  cbn [meta_topic_counts meta_processed_datasets].
  eexists _, _. split; [reflexivity|]. split; [|split; reflexivity].
  destruct (all_chunks a); [reflexivity | apply keys_ok_of_json].
Qed.

Lemma keys_ok_insert (x : pyval * Z) (l : TopicCounts) :
  keys_ok (insert_topic x l) = keys_ok (x :: l).
Proof.
  unfold keys_ok. induction l as [|y l IH]; [reflexivity|].
  cbn [insert_topic]. destruct (snd y <=? snd x); [reflexivity|].
  cbn [forallb] in *. rewrite IH.
  destruct (json_key (fst y)), (json_key (fst x)); reflexivity.
Qed.

Lemma keys_ok_sorted (tc : TopicCounts) :
  keys_ok (sorted_by_count tc) = keys_ok tc.
Proof.
  induction tc as [|x tc IH]; [reflexivity|].
  cbn [sorted_by_count fold_right]. fold (sorted_by_count tc).
  rewrite keys_ok_insert. unfold keys_ok in *. cbn [forallb]. now rewrite IH.
Qed.

Lemma keys_ok_top (tc : TopicCounts) :
  keys_ok tc = true -> keys_ok (prefix 100 (sorted_by_count tc)) = true.
Proof.
  intros H. rewrite prefix_firstn by lia.
  rewrite <- keys_ok_sorted in H. unfold keys_ok in *.
  rewrite forallb_forall in *. intros x Hx. apply H.
  rewrite <- (firstn_skipn (Z.to_nat 100) (sorted_by_count tc)).
  apply in_or_app. now left.
Qed.

(** [finalize] returns exactly when every chunk and every top topic is
    one [json] can write, and then [chunks.jsonl] holds every chunk. *)
Lemma finalize_returns (a : Acc) (p : proc) :
  all_json_ok (all_chunks a) = true ->
  keys_ok (topic_counts a) = true ->
  exists (s : RunStatistics) (p' : proc),
    finalize a p = (Ok s, p')
    /\ f_chunks (fs p') = Some (map ChunkLine (all_chunks a)).
Proof.
  intros Hok Hkeys. apply keys_ok_top, json_topic_counts_keys_ok in Hkeys.
  unfold finalize, dump_stats, bind.
  unfold emit at 1. rewrite write_chunks_run, Hok, (json_prefix_all _ Hok).
  destruct p as [[d c m ch md] cfg tr].
  cbn [fs configs trace apply_event set_file f_checkpoint f_checkpoint_meta
       f_metadata dir_exists].
  rewrite (replay_append_lines chunks_jsonl (all_chunks a) _ []) by reflexivity.
  cbn [app set_file fs configs trace f_checkpoint f_checkpoint_meta
       f_metadata dir_exists stat_topic_counts].
  change (stat_topic_counts (final_stats a))
    with (prefix 100 (sorted_by_count (topic_counts a))).
  destruct (json_topic_counts (prefix 100 (sorted_by_count (topic_counts a))));
    [|contradiction].
  destruct c, m; eexists _, _; split; reflexivity.
Qed.

Lemma finalize_inv (a : Acc) (p p' : proc) (s : RunStatistics) :
  finalize a p = (Ok s, p') ->
  all_json_ok (all_chunks a) = true
  /\ f_chunks (fs p') = Some (map ChunkLine (all_chunks a)).
Proof.
  unfold finalize, dump_stats, bind.
  unfold emit at 1. rewrite write_chunks_run.
  destruct (all_json_ok (all_chunks a)) eqn:Hok; [|discriminate].
  rewrite (json_prefix_all _ Hok).
  destruct p as [[d c m ch md] cfg tr].
  cbn [fs configs trace apply_event set_file f_checkpoint f_checkpoint_meta
       f_metadata dir_exists].
  rewrite (replay_append_lines chunks_jsonl (all_chunks a) _ []) by reflexivity.
  cbn [app set_file fs configs trace f_checkpoint f_checkpoint_meta
       f_metadata dir_exists stat_topic_counts].
  destruct (json_topic_counts (stat_topic_counts (final_stats a)));
    [|discriminate].
  destruct c, m; intros [= _ <-]; split; reflexivity.
Qed.

Lemma start_state (world : World) (p : proc) :
  exists tr : list event,
    snd ((emit EMkdir;;; try_login world) p)
    = mkProc (apply_event EMkdir (fs p)) (configs p) tr.
Proof.
  unfold try_login, bind, emit.
  destruct (HF_TOKEN world) as [[|c t]|]; eexists; reflexivity.
Qed.

(** A run in terms of its stages. *)
Lemma prepare_returns (world : World) (args : Args) (p p2 pf pF : proc)
    (l : list DatasetConfig) (a af : Acc) (s : RunStatistics) :
  no_match (datasets args) (configs p) = false ->
  plan world args (snd ((emit EMkdir;;; try_login world) p)) = (Ok (l, a), p2) ->
  ingest world args l a p2 = (Ok af, pf) ->
  finalize af pf = (Ok s, pF) ->
  prepare_huggingface_benchmark world args p = (Returned s, pF).
Proof.
  intros Hmatch Hplan Hingest Hfinal. unfold prepare_huggingface_benchmark.
  destruct (start_state world p) as (tr & Hstart).
  rewrite Hstart in *. cbn [configs]. rewrite Hmatch.
  unfold plan_and_ingest, bind. rewrite Hplan. cbn [fst snd].
  rewrite Hingest, Hfinal. reflexivity.
Qed.

Lemma prepare_returned_inv (world : World) (args : Args) (p p2 : proc)
    (l : list DatasetConfig) (a : Acc) (s : RunStatistics) :
  fst (prepare_huggingface_benchmark world args p) = Returned s ->
  plan world args (snd ((emit EMkdir;;; try_login world) p)) = (Ok (l, a), p2) ->
  no_match (datasets args) (configs p) = false
  /\ exists (af : Acc) (pf : proc),
       ingest world args l a p2 = (Ok af, pf)
       /\ finalize af pf
          = (Ok s, snd (prepare_huggingface_benchmark world args p)).
Proof.
  unfold prepare_huggingface_benchmark.
  destruct (start_state world p) as (tr & Hstart).
  rewrite Hstart. cbn [configs].
  destruct (no_match (datasets args) (configs p)); [discriminate|].
  intros Hret Hplan. split; [reflexivity|].
  unfold plan_and_ingest, bind in *. rewrite Hplan in *. cbn [fst snd] in *.
  destruct (ingest world args l a p2) as [[af| |] pf] eqn:Hingest;
    try discriminate.
  destruct (finalize af pf) as [[s'| |] pF] eqn:Hfinal; try discriminate.
  cbn in Hret. injection Hret as ->. exists af, pf.
  split; [reflexivity | exact Hfinal].
Qed.

Lemma mem_filter_other (n x : pystr) (s : list pystr) :
  pystr_eqb n x = false ->
  mem n (filter (fun m => negb (pystr_eqb x m)) s) = mem n s.
Proof.
  intros Hn. unfold mem. induction s as [|y s IH]; [reflexivity|].
  cbn [filter]. destruct (pystr_eqb x y) eqn:Hxy; cbn [negb existsb].
  - apply pystr_eqb_eq in Hxy. subst y. rewrite Hn. exact IH.
  - now rewrite IH.
Qed.

Lemma mem_set_of (n : pystr) (l : list pystr) : mem n (set_of l) = mem n l.
Proof.
  induction l as [|x l IH]; [reflexivity|].
  cbn [set_of].
  change (mem n (x :: filter (fun m => negb (pystr_eqb x m)) (set_of l)))
    with (pystr_eqb n x
          || mem n (filter (fun m => negb (pystr_eqb x m)) (set_of l))).
  change (mem n (x :: l)) with (pystr_eqb n x || mem n l).
  destruct (pystr_eqb n x) eqn:Hn; [reflexivity|]. cbn [orb].
  now rewrite mem_filter_other.
Qed.

Lemma filter_true {A} (f : A -> bool) (l : list A) :
  (forall x, In x l -> f x = true) -> filter f l = l.
Proof.
  induction l as [|x l IH]; intros H; [reflexivity|].
  cbn. rewrite H by now left. f_equal. apply IH. intros y Hy. apply H.
  now right.
Qed.

(** Among sources with distinct names, those not named by the first [k]
    are the ones after the first [k]. *)
Lemma filter_not_first (l : list DatasetConfig) :
  NoDup (map name l) ->
  forall k : nat,
  filter (fun c => negb (mem (name c) (map name (firstn k l)))) l
  = skipn k l.
Proof.
  induction l as [|c l IH]; intros Hnd k.
  - now destruct k.
  - inversion Hnd as [|? ? Hc Hl]; subst. destruct k as [|k].
    + cbn [firstn map skipn]. apply filter_true. reflexivity.
    + cbn [firstn map skipn filter mem existsb].
      replace (pystr_eqb (name c) (name c)) with true
        by (symmetry; now apply pystr_eqb_eq).
      cbn [orb negb]. rewrite <- (IH Hl k). apply filter_ext_in.
      intros x Hx.
      replace (pystr_eqb (name x) (name c)) with false; [reflexivity|].
      symmetry. apply not_true_is_false. intros Heq.
      apply pystr_eqb_eq in Heq. apply Hc. rewrite <- Heq.
      now apply in_map.
Qed.

Lemma NoDup_names_filter (f : DatasetConfig -> bool)
    (l : list DatasetConfig) :
  NoDup (map name l) -> NoDup (map name (filter f l)).
Proof.
  induction l as [|c l IH]; intros Hnd; [constructor|].
  inversion Hnd as [|? ? Hc Hl]; subst. cbn [filter].
  destruct (f c); [|now apply IH].
  cbn [map]. constructor; [|now apply IH].
  intros Hin. apply Hc. apply in_map_iff in Hin as (x & Hx & Hin).
  apply filter_In in Hin as [Hin _]. rewrite <- Hx. now apply in_map.
Qed.

Lemma names_adjust (limit : Z) (l : list DatasetConfig) :
  map name (map (adjust limit) l) = map name l.
Proof. rewrite map_map. reflexivity. Qed.

Lemma filter_andb {A} (f g : A -> bool) (l : list A) :
  filter (fun x => f x && g x) l = filter g (filter f l).
Proof.
  induction l as [|x l IH]; [reflexivity|]. cbn [filter].
  destruct (f x); cbn [andb filter]; [|exact IH].
  destruct (g x); now rewrite IH.
Qed.

(** The sources that remain once the first [k] of the selected ones are
    completed are the selected ones after the first [k]. *)
Lemma remaining_after_first (ds : option (list pystr))
    (processed : list pystr) (cfgs : list DatasetConfig) (k : nat) :
  NoDup (map name cfgs) ->
  (forall n : pystr,
     mem n processed
     = mem n (map name (firstn k (filter (selected ds) cfgs)))) ->
  filter (remaining ds processed) cfgs
  = skipn k (filter (selected ds) cfgs).
Proof.
  intros Hnd Hmem.
  rewrite <- (filter_not_first _ (NoDup_names_filter (selected ds) cfgs Hnd) k).
  unfold remaining.
  rewrite (filter_andb (selected ds)
             (fun c => negb (mem (name c) processed))).
  apply filter_ext. intros c. now rewrite Hmem.
Qed.

Lemma checkpointed_mkdir (a : Acc) (fs_ : FS) :
  checkpointed a fs_ -> checkpointed a (apply_event EMkdir fs_).
Proof. intros H. exact H. Qed.

Lemma remaining_none (ds : option (list pystr)) (l : list DatasetConfig) :
  filter (remaining ds []) l = filter (selected ds) l.
Proof.
  apply filter_ext. intros c. unfold remaining. cbn. apply andb_true_r.
Qed.

(** C3, as the code has it.  A run that starts with no checkpoint is
    killed after the ingest loop has dealt with the first [k] sources, at
    least one source having completed with its checkpoint saved, and the
    pipeline is run again over what is left in the directory, with resume
    on and the same arguments, sources and streams.  The resumed run
    computes the document caps afresh, from the budget that is left and
    the sources that remain.  When those caps are the ones the
    uninterrupted run had given the remaining sources, and the
    uninterrupted run returns, the resumed run returns too and its final
    chunk stream is the one of the uninterrupted run. *)
Theorem resumed_run_same_chunks (world : World) (args : Args) (k : nat)
    (fs0 : FS) (cfgs : list DatasetConfig) (ak : Acc) (pk : proc)
    (s : RunStatistics) :
  resume args = true ->
  f_checkpoint fs0 = None ->
  NoDup (map name cfgs) ->
  interrupted_run world args k (mkProc fs0 cfgs []) = (Ok ak, pk) ->
  processed_datasets ak <> [] ->
  (let rem := filter (remaining (datasets args) (processed_datasets ak))
                cfgs in
   forall c : DatasetConfig, In c rem ->
     adjust (per_dataset_limit args (len (all_chunks ak)) (len rem)) c
     = adjust (per_dataset_limit args 0
                 (len (filter (selected (datasets args)) cfgs))) c) ->
  fst (prepare_huggingface_benchmark world args (mkProc fs0 cfgs []))
  = Returned s ->
  exists s' : RunStatistics,
    fst (prepare_huggingface_benchmark world args (mkProc (fs pk) cfgs []))
    = Returned s'
    /\ f_chunks (fs (snd (prepare_huggingface_benchmark world args
                            (mkProc (fs pk) cfgs []))))
       = f_chunks (fs (snd (prepare_huggingface_benchmark world args
                              (mkProc fs0 cfgs [])))).
Proof.
  intros Hresume Hnone Hnd Hint Hdone Hcaps Hfull. cbv zeta in Hcaps.
  (* the uninterrupted run, up to the ingest loop *)
  destruct (start_state world (mkProc fs0 cfgs [])) as (tr0 & Hstart0).
  cbn [fs configs] in Hstart0.
  destruct (init_fresh args (mkProc (apply_event EMkdir fs0) cfgs tr0)
              Hresume Hnone) as (p1 & Hinit & Hfs1 & Hcfg1).
  destruct (plan_from world args _ _ _ Hinit) as (p2 & Hplan & Hfs2).
  cbn [fst snd configs] in Hplan, Hcfg1. rewrite Hcfg1, remaining_none in Hplan.
  rewrite <- Hstart0 in Hplan.
  set (sel := filter (selected (datasets args)) cfgs) in *.
  change (len (@nil Chunk)) with 0 in Hplan.
  set (limit := per_dataset_limit args 0 (len sel)) in *.
  (* the interrupted run is its beginning *)
  unfold interrupted_run in Hint. unfold bind at 1 in Hint.
  rewrite Hplan in Hint. cbn [fst snd] in Hint.
  destruct (prepare_returned_inv world args _ p2 _ _ s Hfull Hplan)
    as (Hmatch & af & pf & Hing & Hfin).
  rewrite <- (firstn_skipn k (map (adjust limit) sel)) in Hing.
  rewrite ingest_app in Hing. unfold bind in Hing. rewrite Hint in Hing.
  destruct (finalize_inv _ _ _ _ Hfin) as (Hjson & Hchunks).
  (* what the interrupted run left *)
  destruct (ingest_inv _ _ _ _ _ _ _ Hint) as (_ & Hck & Hmem).
  destruct Hck as [[Heq _]|Hck]; [subst ak; now contradiction Hdone|].
  (* the resumed run, up to the ingest loop *)
  destruct (start_state world (mkProc (fs pk) cfgs [])) as (trr & Hstartr).
  cbn [fs configs] in Hstartr.
  destruct (init_resumed args ak
              (mkProc (apply_event EMkdir (fs pk)) cfgs trr)
              Hresume (checkpointed_mkdir _ _ Hck))
    as (tc & q1 & Hinitr & Hkeys & _ & Hcfgq).
  destruct (plan_from world args _ _ _ Hinitr) as (q2 & Hplanr & _).
  cbn [fst snd configs] in Hplanr, Hcfgq. rewrite Hcfgq in Hplanr.
  rewrite <- Hstartr in Hplanr.
  assert (Hrem : filter (remaining (datasets args)
                           (set_of (processed_datasets ak))) cfgs
                 = filter (remaining (datasets args) (processed_datasets ak))
                     cfgs).
  { apply filter_ext. intros c. unfold remaining. now rewrite mem_set_of. }
  rewrite Hrem in Hplanr.
  rewrite (map_ext_in _ _ _ Hcaps) in Hplanr.
  fold sel in Hplanr. fold limit in Hplanr.
  set (ar := start_acc args (all_chunks ak, tc,
                             set_of (processed_datasets ak))) in *.
  assert (Hresumed :
    exists (ar' : Acc) (q3 : proc),
      ingest world args
        (map (adjust limit)
           (filter (remaining (datasets args) (processed_datasets ak)) cfgs))
        ar q2 = (Ok ar', q3)
      /\ all_chunks ar' = all_chunks af
      /\ keys_ok (topic_counts ar') = true).
  { destruct (Z.lt_ge_cases (len (all_chunks ak)) (max_chunks args))
      as [Hlt|Hge].
    - rewrite (remaining_after_first _ _ _ k Hnd).
      + rewrite <- skipn_map.
        apply (ingest_sim _ _ _ _ _ _ _ _ _ Hing); [reflexivity | exact Hkeys].
      + intros n. rewrite (Hmem Hlt n), firstn_map, names_adjust.
        reflexivity.
    - rewrite ingest_budget_reached in Hing by lia.
      injection Hing as <- <-.
      exists ar, q2. rewrite ingest_budget_reached by (cbn; lia).
      split; [reflexivity|]. split; [reflexivity | exact Hkeys]. }
  destruct Hresumed as (ar' & q3 & Hingr & Hsame & Hkeysr).
  destruct (finalize_returns ar' q3) as (s' & qF & Hfinr & Hchunksr);
    [now rewrite Hsame | exact Hkeysr |].
  rewrite (prepare_returns world args (mkProc (fs pk) cfgs []) q2 q3 qF
             _ ar ar' s' Hmatch Hplanr Hingr Hfinr).
  exists s'. split; [reflexivity|].
  cbn [snd fs]. now rewrite Hchunksr, Hchunks, Hsame.
Qed.

Lemma DATASET_CONFIGS_names : NoDup (map name DATASET_CONFIGS).
Proof.
  repeat (constructor;
          [cbn; intros H;
           repeat (destruct H as [H|H]; [discriminate H|]); exact H|]).
  constructor.
Qed.

Lemma resumed_run_same_chunks_witness :
  let resumed := prepare_huggingface_benchmark sample_world sample_args
                   (mkProc (fs (snd sample_interrupted)) DATASET_CONFIGS []) in
  let full := prepare_huggingface_benchmark sample_world sample_args
                (mkProc no_dir DATASET_CONFIGS []) in
  exists s' : RunStatistics,
    fst resumed = Returned s'
    /\ f_chunks (fs (snd resumed)) = f_chunks (fs (snd full)).
Proof.
  cbv zeta.
  apply (resumed_run_same_chunks sample_world sample_args 1 no_dir
           DATASET_CONFIGS (returned (fst sample_interrupted) no_acc)
           (snd sample_interrupted)
           (stats_of (fst (prepare_huggingface_benchmark sample_world
                             sample_args (mkProc no_dir DATASET_CONFIGS []))))).
  - reflexivity.
  - reflexivity.
  - exact DATASET_CONFIGS_names.
  - vm_compute. reflexivity.
  - vm_compute. discriminate.
  - cbv zeta. intros c Hc. vm_compute in Hc.
    destruct Hc as [<-|[]]. vm_compute. reflexivity.
  - vm_compute. reflexivity.
Defined.

(** C3, as the claim states it, fails.  With a budget of 8 chunks and one
    chunk per document, the uninterrupted run gives each of the two
    sources a cap of [8 // 2 // 2 = 2] documents and ends with 4 chunks.
    Killed after the code source (2 chunks saved) and resumed, the run
    gives the source that remains a cap of [(8 - 2) // 1 // 2 = 3]
    documents and ends with 5 chunks. *)
Lemma resumed_run_more_chunks :
  let full := prepare_huggingface_benchmark sample_world wide_args
                (fresh no_dir) in
  let resumed := prepare_huggingface_benchmark sample_world wide_args
                   (fresh (fs (snd wide_interrupted))) in
  map processed_datasets
    (match fst wide_interrupted with Ok a => [a] | _ => [] end)
  = [[str "code"]]
  /\ doc_ids (f_checkpoint (fs (snd wide_interrupted)))
     = [str "code_0"; str "code_1"]
  /\ (exists s, fst full = Returned s)
  /\ (exists s, fst resumed = Returned s)
  /\ doc_ids (f_chunks (fs (snd full)))
     = [str "code_0"; str "code_1";
        str "stackoverflow_0"; str "stackoverflow_1"]
  /\ doc_ids (f_chunks (fs (snd resumed)))
     = [str "code_0"; str "code_1";
        str "stackoverflow_0"; str "stackoverflow_1"; str "stackoverflow_2"].
Proof.
  cbv zeta. split; [vm_compute; reflexivity|].
  split; [vm_compute; reflexivity|].
  split; [eexists; vm_compute; reflexivity|].
  split; [eexists; vm_compute; reflexivity|].
  split; vm_compute; reflexivity.
Qed.

(** ** Every emitted record *)

Lemma ingest_spans (world : World) (args : Args) (l : list DatasetConfig) :
  0 <= chunk_size args ->
  forall (a a' : Acc) (p p' : proc),
  ingest world args l a p = (Ok a', p') ->
  Forall span_matches (all_chunks a) ->
  Forall span_matches (all_chunks a').
Proof.
  intros Hcs. induction l as [|c l IH]; intros a a' p p' Hrun Ha.
  - now injection Hrun as <- <-.
  - destruct (Z.lt_ge_cases (len (all_chunks a)) (max_chunks args))
      as [Hbudget|Hbudget].
    + destruct (ingest_cons_inv _ _ _ _ _ _ _ _ Hrun Hbudget)
        as ([[out tc'] st] & p1 & Hproc & _ & Hrest).
      apply (IH _ _ _ _ Hrest). cbn [source_done all_chunks].
      destruct (process_dataset_spans _ _ _ _ _ _ _ _ _ Hcs Hproc)
        as (new & -> & Hnew).
      apply Forall_app. now split.
    + rewrite ingest_budget_reached in Hrun by lia.
      now injection Hrun as <- <-.
Qed.

Lemma init_empty (args : Args) (p : proc) :
  resume args = false \/ f_checkpoint (fs p) = None ->
  exists p1 : proc,
    init args p = (Ok ([], [], []), p1) /\ configs p1 = configs p.
Proof.
  intros H. destruct (resume args) eqn:Hresume.
  - destruct H as [H|H]; [discriminate|].
    destruct (init_fresh args p Hresume H) as (p1 & Hinit & _ & Hcfg).
    now exists p1.
  - exists p. unfold init. rewrite Hresume. now split.
Qed.

(** C9.  Every chunk record the pipeline emits has
    [end_word - start_word == word_count], where [word_count] is the
    number of whitespace-delimited words of its text: so it is for the
    records a source appends to the output list, and so it is for every
    line of the final chunk stream of a run that started without a
    checkpoint.  The chunk size is not negative, as the configuration
    surface requires. *)
Theorem emitted_chunk_span_is_word_count (world : World) (args : Args)
    (fs0 : FS) (cfgs : list DatasetConfig) (s : RunStatistics)
    (config : DatasetConfig) (output_chunks out : list Chunk)
    (tc tc' : TopicCounts) (st : Stats) :
  0 <= chunk_size args ->
  (process_dataset world config output_chunks tc
     (chunk_size args) (overlap args) = Ok (out, tc', st) ->
   exists new : list Chunk,
     out = output_chunks ++ new /\ Forall span_matches new)
  /\ (resume args = false \/ f_checkpoint fs0 = None ->
      fst (prepare_huggingface_benchmark world args (mkProc fs0 cfgs []))
      = Returned s ->
      exists chunks_ : list Chunk,
        f_chunks (fs (snd (prepare_huggingface_benchmark world args
                             (mkProc fs0 cfgs []))))
        = Some (map ChunkLine chunks_)
        /\ Forall span_matches chunks_).
Proof.
  intros Hcs. split; [now apply process_dataset_spans|].
  intros Hstart Hret.
  destruct (start_state world (mkProc fs0 cfgs [])) as (tr0 & Hstart0).
  cbn [fs configs] in Hstart0.
  destruct (init_empty args (mkProc (apply_event EMkdir fs0) cfgs tr0))
    as (p1 & Hinit & _).
  { destruct Hstart as [H|H]; [now left | right; exact H]. }
  destruct (plan_from world args _ _ _ Hinit) as (p2 & Hplan & _).
  rewrite <- Hstart0 in Hplan.
  destruct (prepare_returned_inv world args _ p2 _ _ s Hret Hplan)
    as (_ & af & pf & Hing & Hfin).
  destruct (finalize_inv _ _ _ _ Hfin) as (_ & Hchunks).
  exists (all_chunks af). split; [exact Hchunks|].
  apply (ingest_spans _ _ _ Hcs _ _ _ _ Hing). constructor.
Qed.

Lemma emitted_chunk_span_is_word_count_witness :
  let r := process_dataset sample_world code_config [] []
             (chunk_size sample_args) (overlap sample_args) in
  let run := prepare_huggingface_benchmark sample_world sample_args
               (mkProc no_dir DATASET_CONFIGS []) in
  (exists new : list Chunk,
     fst (fst (returned r ([], [], zero_stats))) = [] ++ new
     /\ Forall span_matches new)
  /\ (exists chunks_ : list Chunk,
        f_chunks (fs (snd run)) = Some (map ChunkLine chunks_)
        /\ Forall span_matches chunks_).
Proof.
  cbv zeta.
  pose (r := process_dataset sample_world code_config [] []
               (chunk_size sample_args) (overlap sample_args)).
  destruct (emitted_chunk_span_is_word_count sample_world sample_args
              no_dir DATASET_CONFIGS
              (stats_of (fst (prepare_huggingface_benchmark sample_world
                                sample_args
                                (mkProc no_dir DATASET_CONFIGS []))))
              code_config [] (fst (fst (returned r ([], [], zero_stats))))
              [] (snd (fst (returned r ([], [], zero_stats))))
              (snd (returned r ([], [], zero_stats))))
    as [Hsource Hrun].
  - cbn. lia.
  - split.
    + apply Hsource. vm_compute. reflexivity.
    + apply Hrun; [right; reflexivity | vm_compute; reflexivity].
Defined.

(** ** An overlap that is not smaller than the chunk size *)

(** With [overlap >= chunk_size] the chunker either never returns or
    returns what it returns for any other overlap. *)
Lemma chunk_text_overlap_free (text_ : pystr) (cs ov ov' : Z) :
  cs <= ov ->
  chunk_text text_ cs ov <> None ->
  chunk_text text_ cs ov' = chunk_text text_ cs ov.
Proof.
  intros Hbad Hret.
  destruct (Z.le_gt_cases (len (split text_)) cs) as [Hshort|Hlong].
  - now rewrite !chunk_text_short.
  - destruct (Z.lt_ge_cases 0 (len (split text_))) as [Hpos|Hzero].
    + exfalso. apply Hret. unfold chunk_text.
      now apply chunk_text_diverges.
    + unfold chunk_text, chunk_text_fuel.
      replace (len (split text_) <=? cs) with false
        by (symmetry; apply Z.leb_gt; exact Hlong).
      destruct (split text_) as [|w ws]; [reflexivity|].
      unfold len in Hzero. cbn [length] in Hzero. lia.
Qed.

Lemma doc_loop_overlap_free (config : DatasetConfig) (cs ov ov' : Z) :
  cs <= ov ->
  forall (dataset : list dict) (i : Z) (output_chunks : list Chunk)
         (tc : TopicCounts) (st : Stats),
  doc_loop config cs ov i dataset output_chunks tc st <> Hang ->
  doc_loop config cs ov' i dataset output_chunks tc st
  = doc_loop config cs ov i dataset output_chunks tc st.
Proof.
  intros Hbad.
  induction dataset as [|doc rest IH]; intros i output_chunks tc st Hrun;
    cbn [doc_loop] in *; [reflexivity|].
  destruct (i >=? max_docs config); [reflexivity|].
  destruct (get_or (Some (text_field config)) doc (PStr []))
    as [ | | |[|c s]| | | ]; try (now apply IH).
  destruct (len (split (strip (c :: s))) <? min_words config);
    [now apply IH|].
  destruct (extract_topic config doc) as [topic| |]; try reflexivity.
  destruct (key_of topic) as [k|]; [|reflexivity].
  destruct (chunk_text (strip (c :: s)) cs ov) as [ws|] eqn:Hchunks;
    [|contradiction].
  rewrite (chunk_text_overlap_free _ cs ov ov' Hbad)
    by (rewrite Hchunks; discriminate).
  rewrite Hchunks. now apply IH.
Qed.

Lemma process_dataset_overlap_free (world : World) (config : DatasetConfig)
    (output_chunks : list Chunk) (tc : TopicCounts) (cs ov ov' : Z) :
  cs <= ov ->
  process_dataset world config output_chunks tc cs ov <> Hang ->
  process_dataset world config output_chunks tc cs ov'
  = process_dataset world config output_chunks tc cs ov.
Proof.
  intros Hbad. unfold process_dataset.
  destruct (load_dataset world (kwargs_of config)); [|reflexivity].
  now apply doc_loop_overlap_free.
Qed.

(** The ingest loop with another overlap: unless the loop with the
    overlap of [args] never ends, it goes the same way and leaves the
    same directory. *)
Lemma ingest_overlap_free (world : World) (args : Args) (ov' : Z)
    (l : list DatasetConfig) :
  chunk_size args <= overlap args ->
  forall (a : Acc) (p : proc),
  match ingest world args l a p with
  | (Ok a', p') =>
      ingest world (with_overlap ov' args) l (acc_with_overlap ov' a) p
      = (Ok (acc_with_overlap ov' a'), p')
  | (Raise e, p') =>
      ingest world (with_overlap ov' args) l (acc_with_overlap ov' a) p
      = (Raise e, p')
  | (Hang, _) => True
  end.
Proof.
  intros Hbad. induction l as [|c l IH]; intros a p; [reflexivity|].
  cbn [ingest with_overlap acc_with_overlap max_chunks chunk_size overlap
       all_chunks topic_counts].
  destruct (len (all_chunks a) >=? max_chunks args); [reflexivity|].
  unfold bind, emit, lift.
  pose proof (process_dataset_overlap_free world c (all_chunks a)
                (topic_counts a) (chunk_size args) (overlap args) ov' Hbad)
    as Hsame.
  destruct (process_dataset world c (all_chunks a) (topic_counts a)
              (chunk_size args) (overlap args)) as [r| |] eqn:Hrun;
    [| |exact I]; rewrite Hsame by discriminate; [|reflexivity].
  destruct r as [[out tc'] st].
  change (source_done c (acc_with_overlap ov' a) (out, tc', st))
    with (acc_with_overlap ov' (source_done c a (out, tc', st))).
  change (all_chunks (acc_with_overlap ov' (source_done c a (out, tc', st))))
    with (all_chunks (source_done c a (out, tc', st))).
  change (topic_counts
            (acc_with_overlap ov' (source_done c a (out, tc', st))))
    with (topic_counts (source_done c a (out, tc', st))).
  change (processed_datasets
            (acc_with_overlap ov' (source_done c a (out, tc', st))))
    with (processed_datasets (source_done c a (out, tc', st))).
  destruct (save_checkpoint (all_chunks (source_done c a (out, tc', st)))
              (processed_datasets (source_done c a (out, tc', st)),
               topic_counts (source_done c a (out, tc', st))) _)
    as [[[]| |] p1]; try reflexivity.
  apply IH.
Qed.

Lemma plan_overlap_free (world : World) (args : Args) (ov' : Z) (p : proc) :
  match plan world args p with
  | (Ok x, p') =>
      plan world (with_overlap ov' args) p
      = (Ok (fst x, acc_with_overlap ov' (snd x)), p')
  | (Raise e, p') => plan world (with_overlap ov' args) p = (Raise e, p')
  | (Hang, p') => plan world (with_overlap ov' args) p = (Hang, p')
  end.
Proof.
  unfold plan, bind.
  change (init (with_overlap ov' args)) with (init args).
  destruct (init args p) as [[[[chunks_ tc] processed]| |] p1];
    try reflexivity.
  cbn [with_overlap max_chunks chunk_size overlap datasets].
  destruct (filter (remaining (datasets args) processed) (configs p1));
    reflexivity.
Qed.

Lemma plan_and_ingest_overlap_free (world : World) (args : Args) (ov' : Z)
    (p : proc) :
  chunk_size args <= overlap args ->
  match plan_and_ingest world args p with
  | (Ok a, p') =>
      plan_and_ingest world (with_overlap ov' args) p
      = (Ok (acc_with_overlap ov' a), p')
  | (Raise e, p') =>
      plan_and_ingest world (with_overlap ov' args) p = (Raise e, p')
  | (Hang, _) => True
  end.
Proof.
  intros Hbad. unfold plan_and_ingest, bind.
  pose proof (plan_overlap_free world args ov' p) as Hplan.
  destruct (plan world args p) as [[[l a]| |] p1]; [| |exact I];
    rewrite Hplan; [|reflexivity].
  cbn [fst snd]. apply (ingest_overlap_free world args ov' l Hbad a p1).
Qed.

(** [finalize] looks at the overlap only to write it into
    [metadata.json] and to return it. *)
Lemma finalize_overlap_free (ov' : Z) (a : Acc) (p : proc) :
  fst (to_outcome (finalize (acc_with_overlap ov' a) p))
  = outcome_with_overlap ov' (fst (to_outcome (finalize a p)))
  /\ forall f : path,
       f <> metadata_json ->
       read_file f (fs (snd (finalize (acc_with_overlap ov' a) p)))
       = read_file f (fs (snd (finalize a p))).
Proof.
  unfold finalize, dump_stats, bind.
  change (all_chunks (acc_with_overlap ov' a)) with (all_chunks a).
  change (stat_topic_counts (final_stats (acc_with_overlap ov' a)))
    with (stat_topic_counts (final_stats a)).
  change (final_stats (acc_with_overlap ov' a))
    with (stats_with_overlap ov' (final_stats a)).
  unfold emit, exists_, ret, raise. rewrite !write_chunks_run.
  cbn [fst snd fs configs trace].
  generalize (replay (append_lines chunks_jsonl (json_prefix (all_chunks a)))
                (apply_event (ETruncate chunks_jsonl) (fs p))).
  intros [d c m ch md].
  destruct (all_json_ok (all_chunks a)); [|split; reflexivity].
  destruct (json_topic_counts (stat_topic_counts (final_stats a)));
    cbn [fst snd fs configs trace apply_event set_file read_file
         f_checkpoint f_checkpoint_meta f_chunks f_metadata dir_exists].
  - destruct c, m; (split; [reflexivity|]);
      intros [] Hf; try reflexivity; contradiction.
  - split; [reflexivity|]. intros [] Hf; reflexivity.
Qed.

Lemma trace_grows {A} (m : M A) (p : proc) (e : event) :
  logs m -> In e (trace p) -> In e (trace (snd (m p))).
Proof.
  intros Hm Hin. destruct (Hm p) as (evs & -> & _).
  apply in_or_app. now left.
Qed.

Lemma bind_trace_grows {A B} (m : M A) (k : A -> M B) (p : proc) (e : event) :
  (forall a : A, logs (k a)) ->
  In e (trace (snd (m p))) -> In e (trace (snd (bind m k p))).
Proof.
  intros Hk Hin. unfold bind.
  destruct (m p) as [[a| |] p1]; cbn [snd] in *; try exact Hin.
  now apply trace_grows.
Qed.

(** A run that has a first selected source, a budget and nothing to
    resume from opens the stream of that source. *)
Lemma first_source_opened (world : World) (args : Args) (p : proc)
    (c : DatasetConfig) (rest : list DatasetConfig) :
  resume args = false \/ f_checkpoint (fs p) = None ->
  filter (selected (datasets args)) (configs p) = c :: rest ->
  0 < max_chunks args ->
  In (ELoadDataset (kwargs_of c))
    (trace (snd (prepare_huggingface_benchmark world args p))).
Proof.
  intros Hnew Hsel Hbudget. unfold prepare_huggingface_benchmark.
  destruct (start_state world p) as (tr & Hstart). rewrite Hstart.
  cbn [configs].
  replace (no_match (datasets args) (configs p)) with false
    by (unfold no_match; destruct (datasets args) as [[|d ds]|];
        try reflexivity; now rewrite Hsel).
  rewrite snd_to_outcome.
  apply bind_trace_grows; [intros; apply logs_finalize|].
  set (p0 := mkProc (apply_event EMkdir (fs p)) (configs p) tr).
  assert (Hinit : exists p1 : proc,
            init args p0 = (Ok ([], [], []), p1)
            /\ configs p1 = configs p).
  { destruct (resume args) eqn:Hresume.
    - destruct Hnew as [Hnew|Hnew]; [discriminate|].
      destruct (init_fresh args p0 Hresume) as (p1 & Hinit & _ & Hcfg).
      { subst p0. cbn [fs apply_event f_checkpoint]. exact Hnew. }
      exists p1. split; [exact Hinit | exact Hcfg].
    - exists p0. unfold init. rewrite Hresume. split; reflexivity. }
  destruct Hinit as (p1 & Hinit & Hcfg).
  destruct (plan_from world args p0 p1 _ Hinit) as (p' & Hplan & _).
  cbv zeta in Hplan. cbn [fst snd] in Hplan.
  rewrite remaining_none, Hcfg, Hsel in Hplan. cbn [map] in Hplan.
  unfold plan_and_ingest. unfold bind at 1. rewrite Hplan. cbn [fst snd].
  cbn [ingest start_acc all_chunks].
  replace (len (@nil Chunk) >=? max_chunks args) with false
    by (symmetry; apply geb_lt; exact Hbudget).
  apply bind_trace_grows.
  - intros _. apply logs_bind; [apply logs_lift|]. intros r.
    apply logs_bind; [apply logs_save_checkpoint|]. intros _.
    apply logs_ingest.
  - unfold emit. cbn [snd trace]. apply in_or_app. right. now left.
Qed.

(** C4, as the code has it.  No check of [overlap] against [chunk_size]
    exists, and a run with [overlap >= chunk_size] is not rejected.  The
    first thing it does is create the output directory.  It exits, with
    status 1, exactly when an explicit selection matches no source.
    When a source is selected, the budget is positive and there is no
    checkpoint to resume from, it opens the stream of the first selected
    source.  Unless it never ends, it ends as the run with any other
    overlap ends: the same exit, exception or return, the same
    statistics but for their [overlap] entry, and the same files but for
    [metadata.json].  Its chunker returns a document of at most
    [chunk_size] words as one whole-document span, and never returns on
    a longer one. *)
Theorem overlap_not_validated (world : World) (args : Args) (p : proc) :
  chunk_size args <= overlap args ->
  let r := prepare_huggingface_benchmark world args p in
  (exists rest : list event, trace (snd r) = trace p ++ EMkdir :: rest)
  /\ (forall status : Z, fst r = Exited status ->
        status = 1 /\ no_match (datasets args) (configs p) = true)
  /\ (no_match (datasets args) (configs p) = true -> fst r = Exited 1)
  /\ (forall (c : DatasetConfig) (rest : list DatasetConfig),
        resume args = false \/ f_checkpoint (fs p) = None ->
        filter (selected (datasets args)) (configs p) = c :: rest ->
        0 < max_chunks args ->
        In (ELoadDataset (kwargs_of c)) (trace (snd r)))
  /\ (fst r <> Hung ->
      forall ov : Z,
      let r' := prepare_huggingface_benchmark world (with_overlap ov args) p in
      fst r' = outcome_with_overlap ov (fst r)
      /\ forall f : path,
           f <> metadata_json ->
           read_file f (fs (snd r')) = read_file f (fs (snd r)))
  /\ (forall text_ : pystr,
        len (split text_) <= chunk_size args ->
        chunk_text text_ (chunk_size args) (overlap args)
        = Some [(text_, 0, len (split text_))])
  /\ (forall (text_ : pystr) (fuel : nat),
        chunk_size args < len (split text_) ->
        0 < len (split text_) ->
        chunk_text_fuel fuel text_ (chunk_size args) (overlap args) = None).
Proof.
  intros Hbad. cbv zeta.
  split; [|split; [|split; [|split; [|split; [|split]]]]].
  - unfold prepare_huggingface_benchmark.
    destruct (start_trace world p) as (l & Hstart). rewrite Hstart.
    cbn [configs].
    destruct (no_match (datasets args) (configs p)); [now exists l|].
    rewrite snd_to_outcome.
    destruct (logs_bind (plan_and_ingest world args)
                (fun a => finalize a)
                (logs_plan_and_ingest world args) logs_finalize
                (mkProc (replay (EMkdir :: l) (fs p)) (configs p)
                   (trace p ++ EMkdir :: l))) as (evs & Ht & _).
    rewrite Ht. cbn [trace]. exists (l ++ evs).
    now rewrite <- app_assoc.
  - unfold prepare_huggingface_benchmark. rewrite start_configs.
    destruct (no_match (datasets args) (configs p)).
    + intros status [= <-]. now split.
    + intros status H. now apply to_outcome_not_exited in H.
  - unfold prepare_huggingface_benchmark. rewrite start_configs.
    now intros ->.
  - intros c rest. apply first_source_opened.
  - intros Hends ov. revert Hends.
    unfold prepare_huggingface_benchmark. rewrite start_configs.
    cbn [with_overlap datasets].
    destruct (no_match (datasets args) (configs p));
      [intros _; split; reflexivity|].
    generalize (snd ((emit EMkdir;;; try_login world) p)). intros p0.
    unfold bind.
    pose proof (plan_and_ingest_overlap_free world args ov p0 Hbad) as Hsame.
    destruct (plan_and_ingest world args p0) as [[a|e|] p1];
      [| |intros Hends; now contradiction Hends];
      rewrite Hsame; intros _; [|split; reflexivity].
    rewrite !snd_to_outcome. apply finalize_overlap_free.
  - intros text_. apply chunk_text_short.
  - intros text_ fuel Hlong Hpos. now apply chunk_text_diverges.
Qed.

Lemma overlap_not_validated_witness :
  let args := mkArgs 8 200 200 (Some [str "code"]) true in
  let r := prepare_huggingface_benchmark sample_world args (fresh no_dir) in
  (exists rest : list event, trace (snd r) = EMkdir :: rest)
  /\ In (ELoadDataset (kwargs_of code_config)) (trace (snd r))
  /\ (forall ov : Z,
        fst (prepare_huggingface_benchmark sample_world
               (with_overlap ov args) (fresh no_dir))
        = outcome_with_overlap ov (fst r))
  /\ (forall text_ : pystr,
        len (split text_) <= 200 ->
        chunk_text text_ 200 200 = Some [(text_, 0, len (split text_))]).
Proof.
  cbv zeta.
  destruct (overlap_not_validated sample_world
              (mkArgs 8 200 200 (Some [str "code"]) true) (fresh no_dir))
    as (Hmkdir & _ & _ & Hopen & Hsame & Hshort & _).
  { cbn. lia. }
  split; [exact Hmkdir|]. split.
  - apply (Hopen code_config []);
      [right; reflexivity | vm_compute; reflexivity | reflexivity].
  - split; [|exact Hshort].
    intros ov. apply Hsame. vm_compute. discriminate.
Defined.

(** C4, as the claim states it, fails: with [chunk_size = 200] and
    [overlap = 200] the sample run over the code corpus creates the
    directory, opens the stream, chunks three documents and returns. *)
Lemma overlap_equal_to_chunk_size_runs :
  let args := mkArgs 8 200 200 (Some [str "code"]) true in
  let r := prepare_huggingface_benchmark sample_world args (fresh no_dir) in
  chunk_size args <= overlap args
  /\ hd_error (trace (snd r)) = Some EMkdir
  /\ In (ELoadDataset (kwargs_of code_config)) (trace (snd r))
  /\ exists s : RunStatistics,
       fst r = Returned s /\ total_documents s = 3 /\ total_chunks s = 3.
Proof.
  cbv zeta. split; [cbn; lia|]. split; [vm_compute; reflexivity|].
  split.
  - vm_compute. right. right. left. reflexivity.
  - eexists. split; [vm_compute; reflexivity|]. split; reflexivity.
Qed.

(** * More properties of the pipeline *)

(** ** The chunker: coverage, sizes and contents *)

Lemma slice_all {A} (l : list A) : slice l 0 (len l) = l.
Proof.
  unfold slice, clamp, len.
  replace (0 <? 0) with false by reflexivity.
  destruct (Z.of_nat (length l) <? 0) eqn:E; [apply Z.ltb_lt in E; lia|].
  rewrite Z.min_id, Z.min_l by lia.
  rewrite Z.sub_0_r, Nat2Z.id. cbn [Z.to_nat skipn]. apply firstn_all.
Qed.

Lemma nth_error_windows_from (words_ : list pystr) (cs ov start : Z)
    (n j : nat) :
  nth_error (windows_from words_ cs ov start n) j
  = if (j <? n)%nat
    then Some (window_at words_ cs (start + Z.of_nat j * (cs - ov)))
    else None.
Proof.
  unfold windows_from.
  destruct (j <? n)%nat eqn:E.
  - apply Nat.ltb_lt in E.
    rewrite nth_error_map, nth_error_nth' with (d := O)
      by (rewrite length_seq; exact E).
    rewrite seq_nth by exact E. reflexivity.
  - apply Nat.ltb_ge in E. apply nth_error_None.
    now rewrite length_map, length_seq.
Qed.

Lemma length_windows_from (words_ : list pystr) (cs ov start : Z) (n : nat) :
  length (windows_from words_ cs ov start n) = n.
Proof. unfold windows_from. now rewrite length_map, length_seq. Qed.

(** X1.  With [0 <= overlap < chunk_size], [chunk_text] returns, and
    no word of the document is lost: every word index lies in the span
    of one of the windows. *)
Theorem chunk_text_covers_every_word (text_ : pystr) (cs ov : Z) :
  0 <= ov < cs ->
  exists ws : list window,
    chunk_text text_ cs ov = Some ws
    /\ forall i : Z, 0 <= i < len (split text_) ->
         exists w : window, In w ws /\ window_start w <= i < window_end w.
Proof.
  intros Hov.
  destruct (Z.le_gt_cases (len (split text_)) cs) as [Hshort|Hlong].
  - rewrite chunk_text_short by exact Hshort.
    eexists. split; [reflexivity|].
    intros i Hi. eexists. split; [left; reflexivity|].
    unfold window_start, window_end. cbn [fst snd]. lia.
  - destruct (chunk_text_long text_ cs ov) as (n & Heq & Hn & Hmid & Hend);
      [lia | exact Hlong |].
    eexists. split; [exact Heq|].
    intros i Hi.
    assert (Hn1 : (1 <= n)%nat) by (apply Hn; lia).
    assert (Hwin : forall j : nat, (j < n)%nat ->
              Z.of_nat j * (cs - ov) <= i
              < Z.min (Z.of_nat j * (cs - ov) + cs) (len (split text_)) ->
              exists w : window,
                In w (windows_from (split text_) cs ov 0 n)
                /\ window_start w <= i < window_end w).
    { intros j Hj Hin.
      exists (window_at (split text_) cs (0 + Z.of_nat j * (cs - ov))).
      split.
      - apply (nth_error_In _ j). rewrite nth_error_windows_from.
        now replace (j <? n)%nat with true by (symmetry; apply Nat.ltb_lt; lia).
      - unfold window_at, window_start, window_end. cbn [fst snd]. lia. }
    destruct (Z_lt_le_dec i (Z.of_nat n * (cs - ov))) as [Hin|Hout].
    + assert (Hdiv : (cs - ov) * (i / (cs - ov)) <= i
                     < (cs - ov) * Z.succ (i / (cs - ov))).
      { split; [apply Z.mul_div_le | apply Z.mul_succ_div_gt]; lia. }
      assert (Hj0 : 0 <= i / (cs - ov)) by (apply Z.div_pos; lia).
      apply (Hwin (Z.to_nat (i / (cs - ov)))); rewrite ?Z2Nat.id by lia.
      * apply Nat2Z.inj_lt. rewrite Z2Nat.id by lia. nia.
      * nia.
    + apply (Hwin (n - 1)%nat); [lia|].
      rewrite Nat2Z.inj_sub, Z.mul_sub_distr_r by lia.
      destruct Hend as [Hend|Hend]; lia.
Qed.

Lemma chunk_text_covers_every_word_witness :
  exists ws : list window,
    chunk_text (doc_of_words 12) 5 2 = Some ws
    /\ forall i : Z, 0 <= i < len (split (doc_of_words 12)) ->
         exists w : window, In w ws /\ window_start w <= i < window_end w.
Proof. apply (chunk_text_covers_every_word (doc_of_words 12) 5 2). lia. Defined.

(** X2.  For [0 <= overlap < chunk_size] and a document of more than
    [chunk_size] words, every window spans at least [overlap] and at most
    [chunk_size] words, every window but the last spans exactly
    [chunk_size] words, and the last window ends with the last word of
    the document. *)
Theorem chunk_text_window_sizes (text_ : pystr) (cs ov : Z)
    (ws : list window) :
  0 <= ov < cs ->
  cs < len (split text_) ->
  chunk_text text_ cs ov = Some ws ->
  forall (j : nat) (w : window),
  nth_error ws j = Some w ->
  ov <= window_size w <= cs
  /\ ((S j < length ws)%nat -> window_size w = cs)
  /\ (S j = length ws -> window_end w = len (split text_)).
Proof.
  intros Hov Hlong Hret j w Hw.
  destruct (chunk_text_long text_ cs ov) as (n & Heq & Hn & Hmid & Hend);
    [lia | exact Hlong |].
  rewrite Heq in Hret. injection Hret as <-.
  rewrite length_windows_from.
  rewrite nth_error_windows_from in Hw.
  destruct (j <? n)%nat eqn:Hj; [|discriminate].
  apply Nat.ltb_lt in Hj. injection Hw as <-.
  unfold window_size, window_at, window_end, window_start. cbn [fst snd].
  assert (Hstart : 0 <= Z.of_nat j * (cs - ov)
                   /\ (j <> 0%nat ->
                       ov <= len (split text_) - Z.of_nat j * (cs - ov))).
  { split; [apply Z.mul_nonneg_nonneg; lia|].
    intros Hnz. apply Hmid. lia. }
  destruct Hstart as [Hs0 Hs1].
  split; [|split].
  - destruct (Nat.eq_dec j 0) as [->|Hnz]; [lia|].
    specialize (Hs1 Hnz). lia.
  - intros Hnext. destruct (Hmid (S j)) as [H _]; [lia|].
    rewrite Nat2Z.inj_succ, Z.mul_succ_l in H. lia.
  - intros Hlast. subst n.
    rewrite Nat2Z.inj_succ, Z.mul_succ_l in Hend.
    destruct Hend as [Hend|Hend]; lia.
Qed.

Lemma chunk_text_window_sizes_witness :
  let w := window_at (split (doc_of_words 12)) 5 9 in
  2 <= window_size w <= 5
  /\ ((S 3 < 4)%nat -> window_size w = 5)
  /\ (S 3 = 4%nat -> window_end w = len (split (doc_of_words 12))).
Proof.
  apply (chunk_text_window_sizes (doc_of_words 12) 5 2
           (windows_from (split (doc_of_words 12)) 5 2 0 4)
           ltac:(lia) ltac:(vm_compute; reflexivity)
           ltac:(vm_compute; reflexivity) 3%nat
           (window_at (split (doc_of_words 12)) 5 9)).
  vm_compute. reflexivity.
Defined.

(** X3.  The words of every window [chunk_text] returns are the words
    of the document from the window's start to its end, for a
    [chunk_size] that is not negative. *)
Theorem chunk_text_window_words (text_ : pystr) (cs ov : Z)
    (ws : list window) :
  0 <= cs ->
  chunk_text text_ cs ov = Some ws ->
  Forall (fun w : window =>
            split (window_text w)
            = slice (split text_) (window_start w) (window_end w)) ws.
Proof.
  intros Hcs Hret.
  destruct (Z.le_gt_cases (len (split text_)) cs) as [Hshort|Hlong].
  - rewrite chunk_text_short in Hret by exact Hshort.
    injection Hret as <-.
    constructor; [|constructor].
    unfold window_text, window_start, window_end. cbn [fst snd].
    now rewrite slice_all.
  - destruct (Z.le_gt_cases cs ov) as [Hbad|Hgood].
    + unfold chunk_text in Hret.
      rewrite chunk_text_diverges in Hret by lia. discriminate.
    + destruct (chunk_text_long text_ cs ov) as (n & Heq & _);
        [lia | exact Hlong |].
      rewrite Heq in Hret. injection Hret as <-.
      unfold windows_from. apply Forall_map, Forall_forall.
      intros j _.
      unfold window_at, window_text, window_start, window_end.
      cbn [fst snd].
      apply split_join, slice_Forall, split_words.
Qed.

Lemma chunk_text_window_words_witness :
  Forall (fun w : window =>
            split (window_text w)
            = slice (split (doc_of_words 12)) (window_start w) (window_end w))
    (windows_from (split (doc_of_words 12)) 5 2 0 4).
Proof.
  apply (chunk_text_window_words (doc_of_words 12) 5 2);
    [lia | vm_compute; reflexivity].
Defined.

(** X4.  With [overlap >= chunk_size], [chunk_text] never returns on
    a document of more than [chunk_size] words (and at least one): the
    loop is still running after any number of iterations. *)
Theorem chunk_text_never_returns (text_ : pystr) (cs ov : Z) :
  cs <= ov ->
  cs < len (split text_) ->
  0 < len (split text_) ->
  forall fuel : nat, chunk_text_fuel fuel text_ cs ov = None.
Proof.
  intros Hov Hlong Hpos fuel. unfold chunk_text_fuel.
  replace (len (split text_) <=? cs) with false
    by (symmetry; apply Z.leb_gt; exact Hlong).
  apply chunk_loop_diverges; lia.
Qed.

Lemma chunk_text_never_returns_witness :
  chunk_text_fuel 1000 (doc_of_words 3) 2 2 = None.
Proof.
  apply (chunk_text_never_returns (doc_of_words 3) 2 2);
    [lia | vm_compute; reflexivity | vm_compute; reflexivity].
Defined.

(** ** One source: the records and the counters *)

Lemma fold_left_add_shift {A} (f : A -> Z) (l : list A) (a : Z) :
  fold_left (fun n c => n + f c) l a = a + fold_left (fun n c => n + f c) l 0.
Proof.
  revert a. induction l as [|x l IH]; intros a; cbn [fold_left]; [lia|].
  rewrite (IH (a + f x)), (IH (0 + f x)). lia.
Qed.

Lemma sum_word_count_app (a b : list Chunk) :
  sum_word_count (a ++ b) = sum_word_count a + sum_word_count b.
Proof.
  unfold sum_word_count. rewrite fold_left_app.
  now rewrite fold_left_add_shift.
Qed.

Lemma len_app {A} (a b : list A) : len (a ++ b) = len a + len b.
Proof. unfold len. rewrite length_app. lia. Qed.

Lemma len_prefix_le {A} (n : Z) (l : list A) : 0 <= n -> len (prefix n l) <= n.
Proof.
  intros Hn. rewrite prefix_firstn by exact Hn.
  unfold len. rewrite length_firstn. lia.
Qed.

Lemma total_count_bump (t : pyval) (k : key) (tc : TopicCounts) :
  total_count (bump t k tc) = total_count tc + 1.
Proof.
  induction tc as [|[t' n] tc IH]; cbn [bump total_count fold_right snd].
  - lia.
  - destruct (same_key k t'); cbn [total_count fold_right snd].
    + fold (total_count tc). lia.
    + fold (total_count (bump t k tc)) (total_count tc). lia.
Qed.

Lemma sum_words_counted (records : list Chunk) :
  Forall (fun c => word_count c = len (split (text c))) records ->
  sum_words records = sum_word_count records.
Proof.
  intros H. unfold sum_words, sum_word_count. generalize 0.
  induction H as [|c l Hc Hl IH]; intros a; cbn [fold_left]; [reflexivity|].
  now rewrite Hc, IH.
Qed.

(** The records of one document. *)
Lemma records_of_account (config : DatasetConfig) (i : Z)
    (title_ topic : pyval) (ws : list window) :
  0 <= i < max_docs config ->
  forall idx : Z, 0 <= idx ->
  let records :=
    records_of config (name config ++ str "_" ++ of_int i) title_ topic
      idx ws in
  Forall (record_of_source config) records
  /\ len records = len ws
  /\ sum_words records = sum_word_count records.
Proof.
  intros Hi. induction ws as [|[[t s] e] ws IH]; intros idx Hidx;
    cbn [records_of]; cbv zeta.
  - repeat split. constructor.
  - destruct (IH (idx + 1)) as (Hall & Hlen & Hsum); [lia|].
    split; [|split].
    + constructor; [|exact Hall].
      unfold record_of_source.
      cbn [source_dataset doc_id id chunk_idx title word_count text].
      split; [reflexivity|]. split; [now exists i|].
      split; [reflexivity|]. split; [exact Hidx|].
      split; [apply len_prefix_le; lia | reflexivity].
    + unfold len in *. cbn [length]. lia.
    + apply sum_words_counted. constructor; [reflexivity|].
      eapply Forall_impl; [|exact Hall]. intros c Hc. apply Hc.
Qed.

Lemma chunk_text_nonempty (text_ : pystr) (cs ov : Z) (ws : list window) :
  0 <= cs -> chunk_text text_ cs ov = Some ws -> 1 <= len ws.
Proof.
  intros Hcs Hret.
  destruct (Z.le_gt_cases (len (split text_)) cs) as [Hshort|Hlong].
  - rewrite chunk_text_short in Hret by exact Hshort.
    injection Hret as <-. cbn. lia.
  - destruct (Z.le_gt_cases cs ov) as [Hbad|Hgood].
    + unfold chunk_text in Hret.
      rewrite chunk_text_diverges in Hret by lia. discriminate.
    + destruct (chunk_text_long text_ cs ov) as (n & Heq & Hn & _);
        [lia | exact Hlong |].
      rewrite Heq in Hret. injection Hret as <-.
      unfold len. rewrite length_windows_from.
      assert (1 <= n)%nat by (apply Hn; lia). lia.
Qed.

(** What the document loop adds to the caller's list and dict and to its
    own counters. *)
Lemma doc_loop_account (config : DatasetConfig) (cs ov : Z) :
  forall (dataset : list dict) (i : Z) (out0 : list Chunk)
         (tc0 : TopicCounts) (st0 : Stats)
         (out : list Chunk) (tc : TopicCounts) (st : Stats),
  0 <= i ->
  doc_loop config cs ov i dataset out0 tc0 st0 = Ok (out, tc, st) ->
  exists new : list Chunk,
    out = out0 ++ new
    /\ Forall (record_of_source config) new
    /\ chunks st = chunks st0 + len new
    /\ words st = words st0 + sum_word_count new
    /\ total_count tc = total_count tc0 + (documents st - documents st0)
    /\ documents st0 <= documents st
    /\ skipped_short st0 <= skipped_short st
    /\ skipped_empty st0 <= skipped_empty st
    /\ (0 <= cs -> documents st - documents st0 <= len new).
Proof.
  assert (Hnil : forall (out0 : list Chunk) (tc0 : TopicCounts) (st0 : Stats),
            exists new : list Chunk,
              out0 = out0 ++ new
              /\ Forall (record_of_source config) new
              /\ chunks st0 = chunks st0 + len new
              /\ words st0 = words st0 + sum_word_count new
              /\ total_count tc0 = total_count tc0 + (documents st0 - documents st0)
              /\ documents st0 <= documents st0
              /\ skipped_short st0 <= skipped_short st0
              /\ skipped_empty st0 <= skipped_empty st0
              /\ (0 <= cs -> documents st0 - documents st0 <= len new)).
  { intros. exists []. rewrite app_nil_r. cbn.
    repeat split; try lia. constructor. }
  induction dataset as [|doc rest IH];
    intros i out0 tc0 st0 out tc st Hi Hrun; cbn [doc_loop] in Hrun.
  - injection Hrun as <- <- <-. apply Hnil.
  - destruct (i >=? max_docs config) eqn:Hcap.
    { injection Hrun as <- <- <-. apply Hnil. }
    assert (Hi' : 0 <= i < max_docs config).
    { split; [exact Hi|]. destruct (Z.geb_spec i (max_docs config));
        [discriminate | lia]. }
    assert (Hskip : forall st1 : Stats,
              doc_loop config cs ov (i + 1) rest out0 tc0 st1 = Ok (out, tc, st) ->
              chunks st1 = chunks st0 -> words st1 = words st0 ->
              documents st1 = documents st0 ->
              skipped_short st0 <= skipped_short st1 ->
              skipped_empty st0 <= skipped_empty st1 ->
              exists new : list Chunk,
                out = out0 ++ new
                /\ Forall (record_of_source config) new
                /\ chunks st = chunks st0 + len new
                /\ words st = words st0 + sum_word_count new
                /\ total_count tc = total_count tc0 + (documents st - documents st0)
                /\ documents st0 <= documents st
                /\ skipped_short st0 <= skipped_short st
                /\ skipped_empty st0 <= skipped_empty st
                /\ (0 <= cs -> documents st - documents st0 <= len new)).
    { intros st1 Hrun1 H1 H2 H3 H4 H5.
      apply IH in Hrun1 as (new & ? & ? & ? & ? & ? & ? & ? & ? & ?); [|lia].
      exists new. repeat split; try assumption; try lia; intros; lia. }
    destruct (get_or (Some (text_field config)) doc (PStr []))
      as [ | | |[|c s]| | | ];
      try (apply (Hskip _ Hrun); cbn; lia).
    destruct (len (split (strip (c :: s))) <? min_words config);
      [apply (Hskip _ Hrun); cbn; lia|].
    destruct (extract_topic config doc) as [topic| |]; try discriminate.
    destruct (key_of topic) as [k|]; [|discriminate].
    destruct (chunk_text (strip (c :: s)) cs ov) as [ws|] eqn:Hws;
      [|discriminate].
    match type of Hrun with
    | doc_loop _ _ _ _ _ (_ ++ ?r) _ _ = _ =>
        set (records := r) in *
    end.
    pose proof (records_of_account config i
                  (if truthy (get_or (title_field config) doc
                                (PStr (name config ++ str "_" ++ of_int i)))
                   then get_or (title_field config) doc
                          (PStr (name config ++ str "_" ++ of_int i))
                   else PStr (name config ++ str "_" ++ of_int i))
                  topic ws Hi' 0 (Z.le_refl 0)) as Hacc.
    cbv zeta in Hacc. fold records in Hacc.
    destruct Hacc as (Hall & Hlen & Hsum).
    apply IH in Hrun
      as (new & -> & Hnew & Hc & Hw & Ht & Hd & Hs & He & Hdoc); [|lia].
    exists (records ++ new). rewrite <- app_assoc.
    cbn [count_document chunks words documents skipped_short skipped_empty]
      in *.
    rewrite total_count_bump in Ht.
    rewrite len_app, sum_word_count_app, Forall_app.
    assert (Hlast : 0 <= cs ->
              documents st - documents st0 <= len records + len new).
    { intros Hcs. specialize (Hdoc Hcs).
      pose proof (chunk_text_nonempty _ _ _ _ Hcs Hws). lia. }
    repeat split; try assumption; try lia; auto.
Qed.

Lemma process_dataset_account (world : World) (config : DatasetConfig)
    (cs ov : Z) (out0 : list Chunk) (tc0 : TopicCounts)
    (out : list Chunk) (tc : TopicCounts) (st : Stats) :
  process_dataset world config out0 tc0 cs ov = Ok (out, tc, st) ->
  exists new : list Chunk,
    out = out0 ++ new
    /\ Forall (record_of_source config) new
    /\ chunks st = len new
    /\ words st = sum_word_count new
    /\ total_count tc = total_count tc0 + documents st
    /\ 0 <= documents st
    /\ 0 <= skipped_short st
    /\ 0 <= skipped_empty st
    /\ (0 <= cs -> documents st <= len new).
Proof.
  unfold process_dataset.
  destruct (load_dataset world (kwargs_of config)) as [dataset|].
  - intros Hrun. apply doc_loop_account in Hrun; [|lia].
    destruct Hrun as (new & ? & ? & ? & ? & ? & ? & ? & ? & ?).
    cbn [zero_stats chunks words documents skipped_short skipped_empty] in *.
    exists new. repeat split; try assumption; try lia; intros; lia.
  - intros [= <- <- <-]. exists []. rewrite app_nil_r. cbn.
    repeat split; try lia. constructor.
Qed.

(** X5.  Every record [process_dataset] appends carries the name of
    its source, a [doc_id] made of that name and the position of the
    document in the stream (which is below the source's document cap),
    the identifier [generate_chunk_id] gives for its [doc_id], chunk
    index and source, a chunk index that is not negative, a title of at
    most 200 characters, and the number of words of its text; the records
    already in the list stay in front, untouched. *)
Theorem process_dataset_records (world : World) (config : DatasetConfig)
    (cs ov : Z) (out0 : list Chunk) (tc0 : TopicCounts)
    (out : list Chunk) (tc : TopicCounts) (st : Stats) :
  process_dataset world config out0 tc0 cs ov = Ok (out, tc, st) ->
  exists new : list Chunk,
    out = out0 ++ new /\ Forall (record_of_source config) new.
Proof.
  intros Hrun.
  apply process_dataset_account in Hrun as (new & H1 & H2 & _).
  now exists new.
Qed.

Lemma process_dataset_records_witness :
  exists new : list Chunk,
    fst (fst (returned tight_source ([], [], zero_stats))) = [] ++ new
    /\ Forall (record_of_source (adjust 4 code_config)) new.
Proof.
  apply (process_dataset_records sample_world (adjust 4 code_config)
           (chunk_size tight_args) (overlap tight_args) [] []
           (fst (fst (returned tight_source ([], [], zero_stats))))
           (snd (fst (returned tight_source ([], [], zero_stats))))
           (snd (returned tight_source ([], [], zero_stats)))).
  vm_compute. reflexivity.
Defined.

(** X6.  When [process_dataset] returns, its counters agree with what
    it appended: [chunks] is the number of records added to the list,
    [words] is the sum of their [word_count], no counter is negative,
    and with a [chunk_size] that is not negative every counted document
    has at least one record. *)
Theorem process_dataset_counters (world : World) (config : DatasetConfig)
    (cs ov : Z) (out0 : list Chunk) (tc0 : TopicCounts)
    (out : list Chunk) (tc : TopicCounts) (st : Stats) :
  process_dataset world config out0 tc0 cs ov = Ok (out, tc, st) ->
  len out = len out0 + chunks st
  /\ sum_word_count out = sum_word_count out0 + words st
  /\ 0 <= documents st /\ 0 <= skipped_short st /\ 0 <= skipped_empty st
  /\ (0 <= cs -> documents st <= chunks st).
Proof.
  intros Hrun.
  apply process_dataset_account in Hrun
    as (new & -> & _ & Hc & Hw & _ & Hd & Hs & He & Hdoc).
  rewrite len_app, sum_word_count_app, Hc, Hw.
  repeat split; try assumption; try lia; auto.
Qed.

Lemma process_dataset_counters_witness :
  let r := returned tight_source ([], [], zero_stats) in
  len (fst (fst r)) = len (@nil Chunk) + chunks (snd r)
  /\ sum_word_count (fst (fst r)) = sum_word_count [] + words (snd r)
  /\ 0 <= documents (snd r) /\ 0 <= skipped_short (snd r)
  /\ 0 <= skipped_empty (snd r)
  /\ (0 <= chunk_size tight_args -> documents (snd r) <= chunks (snd r)).
Proof.
  apply (process_dataset_counters sample_world (adjust 4 code_config)
           (chunk_size tight_args) (overlap tight_args) [] []
           (fst (fst (returned tight_source ([], [], zero_stats))))
           (snd (fst (returned tight_source ([], [], zero_stats))))
           (snd (returned tight_source ([], [], zero_stats)))).
  vm_compute. reflexivity.
Defined.

(** X7.  [process_dataset] counts one topic for each document it
    counts: the counts of the [topic_counts] dict grow in total by
    exactly [stats["documents"]]. *)
Theorem process_dataset_topic_total (world : World) (config : DatasetConfig)
    (cs ov : Z) (out0 : list Chunk) (tc0 : TopicCounts)
    (out : list Chunk) (tc : TopicCounts) (st : Stats) :
  process_dataset world config out0 tc0 cs ov = Ok (out, tc, st) ->
  total_count tc = total_count tc0 + documents st.
Proof.
  intros Hrun.
  now apply process_dataset_account in Hrun as (new & _ & _ & _ & _ & Ht & _).
Qed.

Lemma process_dataset_topic_total_witness :
  let r := returned tight_source ([], [], zero_stats) in
  total_count (snd (fst r)) = total_count [] + documents (snd r).
Proof.
  apply (process_dataset_topic_total sample_world (adjust 4 code_config)
           (chunk_size tight_args) (overlap tight_args) [] []
           (fst (fst (returned tight_source ([], [], zero_stats))))
           (snd (fst (returned tight_source ([], [], zero_stats))))
           (snd (returned tight_source ([], [], zero_stats)))).
  vm_compute. reflexivity.
Defined.

(** ** The checkpoint store: round trip and failure *)

Lemma dict_get_set {V} (k : pystr) (v : V) (d : list (pystr * V)) :
  dict_get k (dict_set k v d) = Some v.
Proof.
  assert (Hk : pystr_eqb k k = true) by now apply pystr_eqb_eq.
  induction d as [|[k' v'] d IH]; cbn [dict_set dict_get].
  - now rewrite Hk.
  - destruct (pystr_eqb k k') eqn:E; cbn [dict_get]; rewrite E;
      [reflexivity | exact IH].
Qed.

(** X8.  What [save_checkpoint] writes, [load_checkpoint] reads back:
    in an existing output directory, for records and topic counts [json]
    can write, saving succeeds whatever the checkpoint artifacts held
    before, loading then returns
    the same records, the sidecar with the processed sources and the
    topic counts (keyed as JSON keys them), and the set of processed
    sources; neither touches [chunks.jsonl] or [metadata.json]. *)
Theorem checkpoint_round_trip (cs : list Chunk) (pr : list pystr)
    (tc : TopicCounts) (tcj : list (pystr * Z)) (p : proc) :
  dir_exists (fs p) = true ->
  all_json_ok cs = true ->
  json_topic_counts tc = Some tcj ->
  exists p1 p2 : proc,
    save_checkpoint cs (pr, tc) p = (Ok tt, p1)
    /\ load_checkpoint p1 = (Ok (cs, mkMeta pr tcj, set_of pr), p2)
    /\ fs p2 = fs p1
    /\ f_chunks (fs p1) = f_chunks (fs p)
    /\ f_metadata (fs p1) = f_metadata (fs p).
Proof.
  intros _ Hcs Htc.
  destruct (save_checkpoint_ok cs pr tc p Hcs tcj Htc) as (evs & Hsave).
  eexists _, _. split; [exact Hsave|].
  split; [|split; [|split]].
  - apply load_checkpoint_present; reflexivity.
  - reflexivity.
  - reflexivity.
  - reflexivity.
Qed.

Lemma checkpoint_round_trip_witness :
  let a := returned (fst sample_ingested) no_acc in
  exists p1 p2 : proc,
    save_checkpoint (all_chunks a) ([str "code"], topic_counts a)
      (fresh corrupt_sidecar) = (Ok tt, p1)
    /\ load_checkpoint p1
       = (Ok (all_chunks a,
              mkMeta [str "code"]
                [(str "code_general", 2); (str "stackoverflow_general", 2)],
              set_of [str "code"]), p2)
    /\ fs p2 = fs p1
    /\ f_chunks (fs p1) = f_chunks (fs (fresh corrupt_sidecar))
    /\ f_metadata (fs p1) = f_metadata (fs (fresh corrupt_sidecar)).
Proof.
  apply (checkpoint_round_trip
           (all_chunks (returned (fst sample_ingested) no_acc))
           [str "code"]
           (topic_counts (returned (fst sample_ingested) no_acc))
           [(str "code_general", 2); (str "stackoverflow_general", 2)]
           (fresh corrupt_sidecar));
    vm_compute; reflexivity.
Defined.

(** X9.  [save_checkpoint] is not atomic.  When a record holds a value
    [json] cannot write, it raises [TypeError] after it has replaced
    [checkpoint.jsonl] by the records before that one, and it leaves the
    sidecar as it was: a [load_checkpoint] that follows returns those
    records together with the sidecar of the previous save. *)
Theorem save_checkpoint_failure_is_partial (cs : list Chunk)
    (md : list pystr * TopicCounts) (m : Meta) (p : proc) :
  dir_exists (fs p) = true ->
  all_json_ok cs = false ->
  f_checkpoint_meta (fs p) = Some [MetaDoc m] ->
  exists p1 p2 : proc,
    save_checkpoint cs md p = (Raise TypeError, p1)
    /\ f_checkpoint (fs p1) = Some (map ChunkLine (json_prefix cs))
    /\ f_checkpoint_meta (fs p1) = Some [MetaDoc m]
    /\ load_checkpoint p1
       = (Ok (json_prefix cs, m, set_of (meta_processed_datasets m)), p2).
Proof.
  intros _ Hcs Hmeta.
  assert (Hsave : save_checkpoint cs md p
                  = (Raise TypeError,
                     mkProc
                       (set_file checkpoint_jsonl
                          (Some (map ChunkLine (json_prefix cs))) (fs p))
                       (configs p)
                       (trace p ++ ETruncate checkpoint_jsonl
                        :: append_lines checkpoint_jsonl (json_prefix cs)))).
  { unfold save_checkpoint, bind. unfold emit at 1.
    rewrite write_chunks_run, Hcs.
    cbn [fs configs trace apply_event].
    rewrite (replay_append_lines checkpoint_jsonl (json_prefix cs) _ [])
      by apply read_set_file.
    rewrite set_set_file. f_equal. f_equal. list_eq. }
  assert (H1 : f_checkpoint
                 (set_file checkpoint_jsonl
                    (Some (map ChunkLine (json_prefix cs))) (fs p))
               = Some (map ChunkLine (json_prefix cs))) by reflexivity.
  assert (H2 : f_checkpoint_meta
                 (set_file checkpoint_jsonl
                    (Some (map ChunkLine (json_prefix cs))) (fs p))
               = Some [MetaDoc m]) by exact Hmeta.
  eexists _, _. split; [exact Hsave|].
  split; [exact H1|]. split; [exact H2|].
  now apply load_checkpoint_present.
Qed.

Lemma save_checkpoint_failure_is_partial_witness :
  let bad := mkChunk [] [] [] 0 [] 0 0 0 (PObj true (str "<date>")) [] in
  let good := mkChunk [] [] [] 0 [] 0 0 0 (PStr (str "a")) [] in
  let p := mkProc (mkFS true (Some []) (Some [MetaDoc (mkMeta [] [])])
                     None None) DATASET_CONFIGS [] in
  exists p1 p2 : proc,
    save_checkpoint [good; bad; good] ([str "code"], []) p
    = (Raise TypeError, p1)
    /\ f_checkpoint (fs p1) = Some [ChunkLine good]
    /\ f_checkpoint_meta (fs p1) = Some [MetaDoc (mkMeta [] [])]
    /\ load_checkpoint p1 = (Ok ([good], mkMeta [] [], []), p2).
Proof.
  cbv zeta.
  apply (save_checkpoint_failure_is_partial
           [mkChunk [] [] [] 0 [] 0 0 0 (PStr (str "a")) [];
            mkChunk [] [] [] 0 [] 0 0 0 (PObj true (str "<date>")) [];
            mkChunk [] [] [] 0 [] 0 0 0 (PStr (str "a")) []]
           ([str "code"], []) (mkMeta [] [])
           (mkProc (mkFS true (Some []) (Some [MetaDoc (mkMeta [] [])])
                      None None) DATASET_CONFIGS []));
    reflexivity.
Defined.

(** ** The ingest loop *)

(** X10.  A source whose stream cannot be opened is not retried: the
    failure of [load_dataset] is caught, the source is recorded with
    zero counters in [dataset_stats] and added to [processed_datasets],
    the checkpoint is saved saying so, and the loop goes on with the next
    source; the chunks and topic counts are as before. *)
Theorem unopened_source_is_marked_processed (world : World) (args : Args)
    (c : DatasetConfig) (l : list DatasetConfig) (a : Acc) (p : proc) :
  load_dataset world (kwargs_of c) = None ->
  len (all_chunks a) < max_chunks args ->
  all_json_ok (all_chunks a) = true ->
  keys_ok (topic_counts a) = true ->
  exists (a1 : Acc) (p1 : proc),
    ingest world args (c :: l) a p = ingest world args l a1 p1
    /\ all_chunks a1 = all_chunks a
    /\ topic_counts a1 = topic_counts a
    /\ mem (name c) (processed_datasets a1) = true
    /\ dict_get (name c) (dataset_stats (stats a1)) = Some zero_stats
    /\ checkpointed a1 (fs p1).
Proof.
  intros Hload Hbudget Hcs Hkeys.
  assert (Hrun : process_dataset world c (all_chunks a) (topic_counts a)
                   (chunk_size args) (overlap args)
                 = Ok (all_chunks a, topic_counts a, zero_stats)).
  { unfold process_dataset. now rewrite Hload. }
  set (a1 := source_done c a (all_chunks a, topic_counts a, zero_stats)).
  destruct (json_topic_counts (topic_counts a1)) as [tcj|] eqn:Htc;
    [|exfalso; apply (proj1 (json_topic_counts_keys_ok _) Hkeys Htc)].
  destruct (save_checkpoint_ok (all_chunks a1) (processed_datasets a1)
              (topic_counts a1)
              (snd (emit (ELoadDataset (kwargs_of c)) p)) Hcs tcj Htc)
    as (evs & Hsave).
  exists a1. eexists. split.
  - apply (ingest_cons_run world args c l a p _ _ Hbudget Hrun Hsave).
  - split; [reflexivity|]. split; [reflexivity|]. split.
    + cbn [a1 source_done processed_datasets]. rewrite mem_set_add.
      replace (pystr_eqb (name c) (name c)) with true
        by (symmetry; now apply pystr_eqb_eq).
      apply orb_true_r.
    + split.
      * cbn [a1 source_done stats dataset_stats]. apply dict_get_set.
      * apply (save_checkpoint_checkpointed a1 _ _ Hsave).
Qed.

Lemma unopened_source_is_marked_processed_witness :
  exists (a1 : Acc) (p1 : proc),
    ingest sample_world sample_args [arxiv_config; code_config] no_acc
      (fresh no_dir)
    = ingest sample_world sample_args [code_config] a1 p1
    /\ all_chunks a1 = all_chunks no_acc
    /\ topic_counts a1 = topic_counts no_acc
    /\ mem (name arxiv_config) (processed_datasets a1) = true
    /\ dict_get (name arxiv_config) (dataset_stats (stats a1))
       = Some zero_stats
    /\ checkpointed a1 (fs p1).
Proof.
  apply (unopened_source_is_marked_processed sample_world sample_args
           arxiv_config [code_config] no_acc (fresh no_dir));
    [reflexivity | vm_compute; reflexivity | reflexivity | reflexivity].
Defined.

(** ** A run, stage by stage *)

Lemma plan_inv (world : World) (args : Args) (p p2 : proc)
    (l : list DatasetConfig) (a : Acc) :
  plan world args p = (Ok (l, a), p2) ->
  exists (loaded : list Chunk * TopicCounts * list pystr) (p1 : proc),
    init args p = (Ok loaded, p1)
    /\ l = map (adjust (per_dataset_limit args (len (fst (fst loaded)))
                          (len (filter (remaining (datasets args) (snd loaded))
                                  (configs p1)))))
             (filter (remaining (datasets args) (snd loaded)) (configs p1))
    /\ a = start_acc args loaded
    /\ fs p2 = fs p1.
Proof.
  intros Hplan.
  destruct (init args p) as [[loaded| |] p1] eqn:Hinit.
  - destruct (plan_from world args p p1 loaded Hinit) as (p' & Heq & Hfs).
    rewrite Heq in Hplan. injection Hplan as <- <- <-.
    exists loaded, p1. repeat split. exact Hfs.
  - unfold plan, bind in Hplan. rewrite Hinit in Hplan. discriminate.
  - unfold plan, bind in Hplan. rewrite Hinit in Hplan. discriminate.
Qed.

Lemma prepare_returned_stages (world : World) (args : Args) (p : proc)
    (s : RunStatistics) :
  fst (prepare_huggingface_benchmark world args p) = Returned s ->
  exists (l : list DatasetConfig) (a af : Acc) (p2 pf : proc),
    plan world args (snd ((emit EMkdir;;; try_login world) p))
    = (Ok (l, a), p2)
    /\ ingest world args l a p2 = (Ok af, pf)
    /\ finalize af pf
       = (Ok s, snd (prepare_huggingface_benchmark world args p)).
Proof.
  intros Hret.
  destruct (plan world args (snd ((emit EMkdir;;; try_login world) p)))
    as [[[l a]| |] p2] eqn:Hplan.
  - destruct (prepare_returned_inv world args p p2 l a s Hret Hplan)
      as (_ & af & pf & Hingest & Hfinal).
    exists l, a, af, p2, pf. repeat split; assumption.
  - exfalso. revert Hret Hplan. unfold prepare_huggingface_benchmark.
    destruct (start_state world p) as (tr & Hstart). rewrite Hstart.
    destruct (no_match _ _); [discriminate|].
    intros Hret Hplan. unfold plan_and_ingest, bind in Hret.
    rewrite Hplan in Hret. discriminate.
  - exfalso. revert Hret Hplan. unfold prepare_huggingface_benchmark.
    destruct (start_state world p) as (tr & Hstart). rewrite Hstart.
    destruct (no_match _ _); [discriminate|].
    intros Hret Hplan. unfold plan_and_ingest, bind in Hret.
    rewrite Hplan in Hret. discriminate.
Qed.

Lemma counts_agree_start (args : Args)
    (loaded : list Chunk * TopicCounts * list pystr) :
  counts_agree (start_acc args loaded).
Proof. destruct loaded as [[cs tc] pr]. split; reflexivity. Qed.

Lemma ingest_counts (world : World) (args : Args) (l : list DatasetConfig) :
  forall (a a' : Acc) (p p' : proc),
  counts_agree a ->
  ingest world args l a p = (Ok a', p') ->
  counts_agree a'.
Proof.
  induction l as [|c l IH]; intros a a' p p' Ha Hrun.
  - now injection Hrun as <- <-.
  - destruct (Z.lt_ge_cases (len (all_chunks a)) (max_chunks args))
      as [Hbudget|Hbudget].
    + destruct (ingest_cons_inv _ _ _ _ _ _ _ _ Hrun Hbudget)
        as ([[out tc'] st] & p1 & Hproc & _ & Hrest).
      apply (IH _ _ _ _) in Hrest; [exact Hrest|].
      apply process_dataset_account in Hproc
        as (new & -> & _ & _ & Hw & _).
      destruct Ha as [_ Hwords]. split.
      * reflexivity.
      * cbn [source_done stats total_words all_chunks].
        rewrite sum_word_count_app, Hwords, Hw. reflexivity.
    + rewrite ingest_budget_reached in Hrun by lia.
      now injection Hrun as <- <-.
Qed.

(** What [finalize] leaves when it returns. *)
Lemma finalize_post (a : Acc) (p p' : proc) (s : RunStatistics) :
  finalize a p = (Ok s, p') ->
  s = final_stats a
  /\ dir_exists (fs p') = dir_exists (fs p)
  /\ f_checkpoint (fs p') = None
  /\ f_checkpoint_meta (fs p') = None
  /\ f_chunks (fs p') = Some (map ChunkLine (all_chunks a))
  /\ f_metadata (fs p') = Some [StatsDoc s].
Proof.
  unfold finalize, dump_stats, bind.
  unfold emit at 1. rewrite write_chunks_run.
  destruct (all_json_ok (all_chunks a)) eqn:Hok; [|discriminate].
  rewrite (json_prefix_all _ Hok).
  destruct p as [[d c m ch md] cfg tr].
  cbn [fs configs trace apply_event set_file f_checkpoint f_checkpoint_meta
       f_metadata dir_exists].
  rewrite (replay_append_lines chunks_jsonl (all_chunks a) _ []) by reflexivity.
  cbn [app set_file fs configs trace f_checkpoint f_checkpoint_meta
       f_metadata dir_exists stat_topic_counts].
  destruct (json_topic_counts (stat_topic_counts (final_stats a)));
    [|discriminate].
  destruct c, m; intros [= <- <-]; repeat split; reflexivity.
Qed.

Lemma dir_exists_replay (evs : list event) :
  forall fs_ : FS,
  dir_exists fs_ = true -> dir_exists (replay evs fs_) = true.
Proof.
  induction evs as [|e evs IH]; intros fs_ H; [exact H|].
  cbn [replay fold_left]. apply IH.
  destruct e as [ | | | | |f|f t|f]; cbn [apply_event]; try exact H;
    try reflexivity.
  - now destruct f.
  - destruct (read_file f fs_); [now destruct f | exact H].
  - now destruct f.
Qed.

(** X11.  When the run returns, the statistics it returns (the ones
    [metadata.json] holds) agree with [chunks.jsonl]: [total_chunks] is
    the number of lines of the chunk stream and [total_words] is the sum
    of their [word_count], whether the run resumed from a checkpoint or
    not. *)
Theorem returned_counts_match_chunk_stream (world : World) (args : Args)
    (p : proc) (s : RunStatistics) :
  fst (prepare_huggingface_benchmark world args p) = Returned s ->
  exists chunks_ : list Chunk,
    f_chunks (fs (snd (prepare_huggingface_benchmark world args p)))
    = Some (map ChunkLine chunks_)
    /\ total_chunks s = len chunks_
    /\ total_words s = sum_word_count chunks_.
Proof.
  intros Hret.
  destruct (prepare_returned_stages world args p s Hret)
    as (l & a & af & p2 & pf & Hplan & Hingest & Hfinal).
  apply plan_inv in Hplan as (loaded & p1 & _ & _ & -> & _).
  apply ingest_counts in Hingest; [|apply counts_agree_start].
  apply finalize_post in Hfinal as (-> & _ & _ & _ & Hchunks & _).
  exists (all_chunks af). split; [exact Hchunks|]. exact Hingest.
Qed.

Lemma returned_counts_match_chunk_stream_witness :
  let r := prepare_huggingface_benchmark sample_world sample_args
             (fresh no_dir) in
  exists chunks_ : list Chunk,
    f_chunks (fs (snd r)) = Some (map ChunkLine chunks_)
    /\ total_chunks (stats_of (fst r)) = len chunks_
    /\ total_words (stats_of (fst r)) = sum_word_count chunks_.
Proof.
  apply (returned_counts_match_chunk_stream sample_world sample_args
           (fresh no_dir)
           (stats_of (fst (prepare_huggingface_benchmark sample_world
                             sample_args (fresh no_dir))))).
  vm_compute. reflexivity.
Defined.

(** X12.  When the run returns, the output directory exists and holds
    the two final artifacts and no checkpoint artifact: [metadata.json]
    is the returned statistics, and [checkpoint.jsonl] and
    [checkpoint_meta.json] are gone, so a later run finds nothing to
    resume from. *)
Theorem returned_run_leaves_no_checkpoint (world : World) (args : Args)
    (p : proc) (s : RunStatistics) :
  fst (prepare_huggingface_benchmark world args p) = Returned s ->
  let after := snd (prepare_huggingface_benchmark world args p) in
  dir_exists (fs after) = true
  /\ f_checkpoint (fs after) = None
  /\ f_checkpoint_meta (fs after) = None
  /\ f_metadata (fs after) = Some [StatsDoc s]
  /\ f_chunks (fs after) <> None
  /\ forall args' : Args,
       fst (init args' after) = Ok ([], [], []).
Proof.
  intros Hret. cbv zeta.
  destruct (prepare_returned_stages world args p s Hret)
    as (l & a & af & p2 & pf & Hplan & Hingest & Hfinal).
  apply finalize_post in Hfinal
    as (_ & Hdir & Hck & Hmeta & Hchunks & Hmd).
  assert (Hpf : dir_exists (fs pf) = true).
  { destruct (logs_ingest world args l a p2) as (evs2 & _ & Hfs2).
    rewrite Hingest in Hfs2. cbn [snd] in Hfs2. rewrite Hfs2.
    apply dir_exists_replay.
    apply plan_inv in Hplan as (loaded & p1 & Hinit & _ & _ & ->).
    assert (Hlogs : logs (init args)) by (unfold init; effects).
    destruct (Hlogs (snd ((emit EMkdir;;; try_login world) p)))
      as (evs1 & _ & Hfs1).
    rewrite Hinit in Hfs1. cbn [snd] in Hfs1. rewrite Hfs1.
    apply dir_exists_replay.
    destruct (start_state world p) as (tr & ->). reflexivity. }
  split; [congruence|]. split; [exact Hck|]. split; [exact Hmeta|].
  split; [exact Hmd|]. split; [congruence|].
  intros args'. destruct (resume args') eqn:Hres.
  - destruct (init_fresh args' _ Hres Hck) as (p1 & -> & _). reflexivity.
  - unfold init. rewrite Hres. reflexivity.
Qed.

Lemma returned_run_leaves_no_checkpoint_witness :
  let after := snd (prepare_huggingface_benchmark sample_world wide_args
                      (fresh no_dir)) in
  let s := stats_of (fst (prepare_huggingface_benchmark sample_world
                            wide_args (fresh no_dir))) in
  dir_exists (fs after) = true
  /\ f_checkpoint (fs after) = None
  /\ f_checkpoint_meta (fs after) = None
  /\ f_metadata (fs after) = Some [StatsDoc s]
  /\ f_chunks (fs after) <> None
  /\ forall args' : Args, fst (init args' after) = Ok ([], [], []).
Proof.
  apply (returned_run_leaves_no_checkpoint sample_world wide_args
           (fresh no_dir)
           (stats_of (fst (prepare_huggingface_benchmark sample_world
                             wide_args (fresh no_dir))))).
  vm_compute. reflexivity.
Defined.

(** X13.  The ingest loop takes the remaining sources in order and
    skips none: when it returns it has processed the first [k] of them
    for some [k], appended exactly their names to [source_datasets] and
    added them to [processed_datasets], and it has left the others out
    only because the chunk budget was reached. *)
Theorem ingest_processes_a_prefix (world : World) (args : Args)
    (l : list DatasetConfig) :
  forall (a a' : Acc) (p p' : proc),
  ingest world args l a p = (Ok a', p') ->
  exists k : nat,
    (k <= length l)%nat
    /\ source_datasets (stats a')
       = source_datasets (stats a) ++ map name (firstn k l)
    /\ processed_datasets a' = add_all (firstn k l) (processed_datasets a)
    /\ ((k < length l)%nat -> max_chunks args <= len (all_chunks a')).
Proof.
  induction l as [|c l IH]; intros a a' p p' Hrun.
  - injection Hrun as <- <-. exists 0%nat. cbn. rewrite app_nil_r.
    repeat split; lia.
  - destruct (Z.lt_ge_cases (len (all_chunks a)) (max_chunks args))
      as [Hbudget|Hbudget].
    + destruct (ingest_cons_inv _ _ _ _ _ _ _ _ Hrun Hbudget)
        as ([[out tc'] st] & p1 & _ & _ & Hrest).
      destruct (IH _ _ _ _ Hrest) as (k & Hk & Hsrc & Hproc & Hstop).
      exists (S k). cbn [length firstn map add_all fold_left].
      cbn [source_done stats source_datasets processed_datasets] in Hsrc, Hproc.
      rewrite Hsrc, Hproc, <- app_assoc.
      repeat split; try reflexivity; lia.
    + rewrite ingest_budget_reached in Hrun by lia.
      injection Hrun as <- <-. exists 0%nat. cbn [firstn map add_all fold_left].
      rewrite app_nil_r. cbn [length]. repeat split; lia.
Qed.

Lemma ingest_processes_a_prefix_witness :
  let a' := returned (fst (ingest sample_world sample_args
                             [code_config; stackoverflow_config] no_acc
                             (mkProc no_dir DATASET_CONFIGS []))) no_acc in
  exists k : nat,
    (k <= length [code_config; stackoverflow_config])%nat
    /\ source_datasets (stats a')
       = source_datasets (stats no_acc)
         ++ map name (firstn k [code_config; stackoverflow_config])
    /\ processed_datasets a'
       = add_all (firstn k [code_config; stackoverflow_config])
           (processed_datasets no_acc)
    /\ ((k < length [code_config; stackoverflow_config])%nat ->
        max_chunks sample_args <= len (all_chunks a')).
Proof.
  apply (ingest_processes_a_prefix sample_world sample_args
           [code_config; stackoverflow_config] no_acc
           (returned (fst (ingest sample_world sample_args
                             [code_config; stackoverflow_config] no_acc
                             (mkProc no_dir DATASET_CONFIGS []))) no_acc)
           (mkProc no_dir DATASET_CONFIGS [])
           (snd (ingest sample_world sample_args
                   [code_config; stackoverflow_config] no_acc
                   (mkProc no_dir DATASET_CONFIGS [])))).
  vm_compute. reflexivity.
Defined.

(** ** Quota allocation *)

Lemma total_docs_adjust (limit : Z) (l : list DatasetConfig) :
  total_docs (map (adjust limit) l) <= len l * (limit / 2).
Proof.
  unfold len. induction l as [|c l IH]; [cbn; lia|].
  cbn [map total_docs fold_right length adjust max_docs].
  fold (total_docs (map (adjust limit) l)). lia.
Qed.

(** X14.  After quota allocation every remaining source has a document
    cap of at most half its share of the chunks still to produce,
    [(max_chunks - len(all_chunks)) // len(remaining_configs) // 2], and
    the caps together (the total of the progress bar) are at most half
    the chunks still to produce. *)
Theorem quota_caps_fit_half_the_budget (world : World) (args : Args)
    (p p2 : proc) (l : list DatasetConfig) (a : Acc) :
  plan world args p = (Ok (l, a), p2) ->
  l <> [] ->
  Forall (fun c => max_docs c
                   <= (max_chunks args - len (all_chunks a)) / len l / 2) l
  /\ 2 * total_docs l <= max_chunks args - len (all_chunks a).
Proof.
  intros Hplan Hne.
  apply plan_inv in Hplan as (loaded & p1 & _ & -> & -> & _).
  destruct loaded as [[cs tc] pr]. cbn [fst snd start_acc all_chunks] in *.
  set (rem := filter (remaining (datasets args) pr) (configs p1)) in *.
  assert (Hlen : len (map (adjust (per_dataset_limit args (len cs) (len rem)))
                        rem) = len rem).
  { unfold len. now rewrite length_map. }
  rewrite Hlen. unfold per_dataset_limit in *.
  set (limit := (max_chunks args - len cs) / len rem) in *.
  assert (Hpos : 0 < len rem).
  { unfold len. destruct rem; [now contradiction Hne | cbn; lia]. }
  split.
  - apply Forall_map, Forall_forall. intros c _.
    cbn [adjust max_docs]. lia.
  - pose proof (total_docs_adjust limit rem) as Hsum.
    pose proof (Z.mul_div_le limit 2 ltac:(lia)) as Hhalf.
    pose proof (Z.mul_div_le (max_chunks args - len cs) (len rem) Hpos)
      as Hshare.
    fold limit in Hshare.
    assert (len rem * (2 * (limit / 2)) <= len rem * limit)
      by (apply Z.mul_le_mono_nonneg_l; lia).
    lia.
Qed.

Lemma quota_caps_fit_half_the_budget_witness :
  let r := plan sample_world sample_args
             (mkProc no_dir DATASET_CONFIGS []) in
  let l := fst (returned (fst r) ([], no_acc)) in
  let a := snd (returned (fst r) ([], no_acc)) in
  Forall (fun c => max_docs c
                   <= (max_chunks sample_args - len (all_chunks a)) / len l / 2)
    l
  /\ 2 * total_docs l <= max_chunks sample_args - len (all_chunks a).
Proof.
  apply (quota_caps_fit_half_the_budget sample_world sample_args
           (mkProc no_dir DATASET_CONFIGS [])
           (snd (plan sample_world sample_args
                   (mkProc no_dir DATASET_CONFIGS [])))).
  - vm_compute. reflexivity.
  - vm_compute. discriminate.
Defined.

(** ** The top topics *)

Lemma insert_topic_perm (x : pyval * Z) (l : TopicCounts) :
  Permutation (insert_topic x l) (x :: l).
Proof.
  induction l as [|y l IH]; cbn [insert_topic]; [reflexivity|].
  destruct (snd y <=? snd x); [reflexivity|].
  rewrite IH. apply perm_swap.
Qed.

Lemma sorted_by_count_perm (tc : TopicCounts) :
  Permutation (sorted_by_count tc) tc.
Proof.
  induction tc as [|x tc IH]; [reflexivity|].
  cbn [sorted_by_count fold_right]. fold (sorted_by_count tc).
  now rewrite insert_topic_perm, IH.
Qed.

Lemma insert_topic_descending (x : pyval * Z) (l : TopicCounts) :
  descending l -> descending (insert_topic x l).
Proof.
  unfold descending. induction 1 as [|y l Hl IH Hy]; cbn [insert_topic].
  - repeat constructor.
  - destruct (Z.leb_spec (snd y) (snd x)) as [Hle|Hlt].
    + constructor; [now constructor|].
      constructor; [exact Hle|].
      eapply Forall_impl; [|exact Hy]. cbn. intros z Hz. lia.
    + constructor; [exact IH|].
      rewrite (insert_topic_perm x l). constructor; [lia | exact Hy].
Qed.

Lemma sorted_by_count_descending (tc : TopicCounts) :
  descending (sorted_by_count tc).
Proof.
  induction tc as [|x tc IH]; [constructor|].
  cbn [sorted_by_count fold_right]. fold (sorted_by_count tc).
  now apply insert_topic_descending.
Qed.

Lemma descending_app (a b : TopicCounts) :
  descending (a ++ b) ->
  descending a
  /\ forall x y : pyval * Z, In x a -> In y b -> snd y <= snd x.
Proof.
  unfold descending. induction a as [|z a IH]; cbn [app]; intros H.
  - split; [constructor | intros x y []].
  - apply StronglySorted_inv in H as [Hs Hz].
    destruct (IH Hs) as [Ha Hab].
    apply Forall_app in Hz as [Hza Hzb].
    split; [now constructor|].
    intros x y [<-|Hx] Hy.
    + rewrite Forall_forall in Hzb. now apply Hzb.
    + now apply Hab.
Qed.

(** X15.  The statistics the run ends with list the topics by count,
    largest first, and keep the first hundred: [top_topics] is the keys
    of the final [topic_counts] in order, there are at most 100 of them,
    together with the topics left out they are the topics counted during
    the run, and no topic left out has a larger count than one that is
    kept. *)
Theorem top_topics_are_the_largest (a : Acc) :
  let s := final_stats a in
  top_topics s = map fst (stat_topic_counts s)
  /\ len (stat_topic_counts s) = Z.min 100 (len (topic_counts a))
  /\ descending (stat_topic_counts s)
  /\ exists rest : TopicCounts,
       Permutation (stat_topic_counts s ++ rest) (topic_counts a)
       /\ forall x y : pyval * Z,
            In x (stat_topic_counts s) -> In y rest -> snd y <= snd x.
Proof.
  cbv zeta. unfold final_stats. cbn [top_topics stat_topic_counts].
  rewrite prefix_firstn by lia.
  pose proof (sorted_by_count_descending (topic_counts a)) as Hdesc.
  pose proof (sorted_by_count_perm (topic_counts a)) as Hperm.
  rewrite <- (firstn_skipn (Z.to_nat 100) (sorted_by_count (topic_counts a)))
    in Hdesc, Hperm.
  apply descending_app in Hdesc as [Htop Hrest].
  split; [reflexivity|]. split.
  - unfold len. rewrite length_firstn.
    rewrite (Permutation_length (sorted_by_count_perm (topic_counts a))). lia.
  - split; [exact Htop|].
    exists (skipn (Z.to_nat 100) (sorted_by_count (topic_counts a))).
    split; [exact Hperm | exact Hrest].
Qed.

(** ** The selection of sources *)

Lemma ingest_same_settings (world : World) (args1 args2 : Args)
    (l : list DatasetConfig) :
  max_chunks args1 = max_chunks args2 ->
  chunk_size args1 = chunk_size args2 ->
  overlap args1 = overlap args2 ->
  forall (a : Acc) (p : proc),
  ingest world args1 l a p = ingest world args2 l a p.
Proof.
  intros H1 H2 H3. induction l as [|c l IH]; intros a p; [reflexivity|].
  cbn [ingest]. rewrite H1, H2, H3.
  destruct (len (all_chunks a) >=? max_chunks args2); [reflexivity|].
  unfold bind.
  destruct (emit (ELoadDataset (kwargs_of c)) p) as [[[]| |] p1];
    try reflexivity.
  destruct (lift (process_dataset world c (all_chunks a) (topic_counts a)
                    (chunk_size args2) (overlap args2)) p1)
    as [[r| |] p2]; try reflexivity.
  destruct (save_checkpoint _ _ p2) as [[[]| |] p3]; try reflexivity.
  apply IH.
Qed.

Lemma plan_same_selection (world : World) (args1 args2 : Args) :
  (forall c : DatasetConfig,
     selected (datasets args1) c = selected (datasets args2) c) ->
  max_chunks args1 = max_chunks args2 ->
  chunk_size args1 = chunk_size args2 ->
  overlap args1 = overlap args2 ->
  resume args1 = resume args2 ->
  forall p : proc, plan world args1 p = plan world args2 p.
Proof.
  intros Hsel H1 H2 H3 H4 p.
  assert (Hrem : forall (pr : list pystr) (c : DatasetConfig),
            remaining (datasets args1) pr c = remaining (datasets args2) pr c).
  { intros pr c. unfold remaining. now rewrite Hsel. }
  unfold plan, bind, ret, allocate.
  replace (init args1 p) with (init args2 p)
    by (unfold init; now rewrite H4).
  destruct (init args2 p) as [[[[cs tc] pr]| |] p1]; try reflexivity.
  rewrite (filter_ext _ _ (Hrem pr)), H1, H2, H3.
  destruct (filter (remaining (datasets args2) pr) (configs p1)) as [|c l].
  - now rewrite (filter_ext _ _ (Hrem pr)).
  - cbn [configs].
    rewrite (filter_ext _ _ (Hrem pr)).
    now rewrite (map_ext _ _ (fun c0 =>
                   f_equal (fun b : bool =>
                              if b then adjust ((max_chunks args2 - len cs)
                                                / len (c :: l)) c0 else c0)
                     (Hrem pr c0))).
Qed.

Lemma run_same_selection (world : World) (args1 args2 : Args) (p : proc) :
  (forall c : DatasetConfig,
     selected (datasets args1) c = selected (datasets args2) c) ->
  (forall cfgs : list DatasetConfig,
     no_match (datasets args1) cfgs = no_match (datasets args2) cfgs) ->
  max_chunks args1 = max_chunks args2 ->
  chunk_size args1 = chunk_size args2 ->
  overlap args1 = overlap args2 ->
  resume args1 = resume args2 ->
  prepare_huggingface_benchmark world args1 p
  = prepare_huggingface_benchmark world args2 p.
Proof.
  intros Hsel Hno H1 H2 H3 H4. unfold prepare_huggingface_benchmark.
  rewrite Hno.
  destruct (no_match (datasets args2) _); [reflexivity|].
  f_equal. unfold plan_and_ingest, bind.
  rewrite (plan_same_selection world args1 args2 Hsel H1 H2 H3 H4).
  destruct (plan world args2 _) as [[[l a]| |] p2]; try reflexivity.
  cbn [fst snd].
  now rewrite (ingest_same_settings world args1 args2 l H1 H2 H3).
Qed.

(** X16.  Sources are selected by membership of their name in
    [datasets] and processed in the order of [DATASET_CONFIGS]: two
    selections with the same names give the same run, whatever the
    order of the names and however often a name is repeated; and an
    empty list selects every source, as no list does. *)
Theorem selection_is_by_membership (world : World)
    (max_chunks_ chunk_size_ overlap_ : Z) (resume_ : bool) (p : proc) :
  let run := fun ds =>
    prepare_huggingface_benchmark world
      (mkArgs max_chunks_ chunk_size_ overlap_ ds resume_) p in
  (forall ds1 ds2 : list pystr,
     ds1 <> [] -> ds2 <> [] -> same_names ds1 ds2 ->
     run (Some ds1) = run (Some ds2))
  /\ run (Some []) = run None.
Proof.
  cbv zeta. split.
  - intros [|d1 ds1] [|d2 ds2] Hne1 Hne2 Hsame; try contradiction.
    assert (Hsel : forall c : DatasetConfig,
              selected (Some (d1 :: ds1)) c = selected (Some (d2 :: ds2)) c).
    { intros c. apply Hsame. }
    apply run_same_selection; try reflexivity; [exact Hsel|].
    intros cfgs. unfold no_match. cbn [datasets].
    now rewrite (filter_ext _ _ Hsel).
  - apply run_same_selection; reflexivity.
Qed.

Lemma selection_is_by_membership_witness :
  prepare_huggingface_benchmark sample_world
    (mkArgs 8 15 5
       (Some [str "stackoverflow"; str "code"; str "stackoverflow"]) true)
    (fresh no_dir)
  = prepare_huggingface_benchmark sample_world
      (mkArgs 8 15 5 (Some [str "code"; str "stackoverflow"]) true)
      (fresh no_dir).
Proof.
  apply (proj1 (selection_is_by_membership sample_world 8 15 5 true
                  (fresh no_dir)));
    try discriminate.
  intros n. unfold mem. cbn [existsb].
  destruct (pystr_eqb n (str "stackoverflow")), (pystr_eqb n (str "code"));
    reflexivity.
Defined.

(** ** The final artifacts before finalize *)

Section Final.

Context {A B : Type}.

Lemma keeps_final_state (f : proc -> result A) :
  keeps_final (fun p => (f p, p)).
Proof. intros p. split; reflexivity. Qed.

Lemma keeps_final_bind (m : M A) (k : A -> M B) :
  keeps_final m -> (forall a, keeps_final (k a)) -> keeps_final (bind m k).
Proof.
  intros Hm Hk p. unfold bind. specialize (Hm p).
  destruct (m p) as [[a|e|] p1]; cbn [snd] in *; try exact Hm.
  destruct (Hk a p1) as [H1 H2]. destruct Hm as [H3 H4].
  split; congruence.
Qed.

End Final.

Lemma keeps_final_emit (e : event) :
  leaves_final e = true -> keeps_final (emit e).
Proof. intros He p. apply (leaves_final_apply e (fs p) He). Qed.

Ltac final :=
  repeat first
    [ apply keeps_final_bind; [|intros]
    | apply keeps_final_emit; reflexivity
    | apply keeps_final_state
    | apply (keeps_final_state (fun _ => Ok _))
    | match goal with
      | H : forall a, keeps_final _ |- _ => apply H
      | |- keeps_final (if ?b then _ else _) => destruct b
      | |- keeps_final (match ?x with _ => _ end) => destruct x
      end ].

Lemma keeps_final_write_checkpoint (cs : list Chunk) :
  keeps_final (write_chunks checkpoint_jsonl cs).
Proof.
  induction cs as [|c cs IH]; cbn [write_chunks]; unfold ret, raise; final.
  exact IH.
Qed.

Lemma keeps_final_save_checkpoint (cs : list Chunk)
    (md : list pystr * TopicCounts) :
  keeps_final (save_checkpoint cs md).
Proof.
  unfold save_checkpoint, raise.
  apply keeps_final_bind; [final | intros].
  apply keeps_final_bind; [apply keeps_final_write_checkpoint | intros].
  final.
Qed.

Lemma keeps_final_load_checkpoint : keeps_final load_checkpoint.
Proof. unfold load_checkpoint, exists_, read, lift, ret. final. Qed.

Lemma keeps_final_ingest (world : World) (args : Args)
    (l : list DatasetConfig) :
  forall a : Acc, keeps_final (ingest world args l a).
Proof.
  induction l as [|c l IH]; intros a; cbn [ingest]; unfold ret, lift.
  - final.
  - destruct (len (all_chunks a) >=? max_chunks args); [final|].
    apply keeps_final_bind; [final | intros].
    apply keeps_final_bind; [final | intros].
    apply keeps_final_bind; [apply keeps_final_save_checkpoint | intros].
    apply IH.
Qed.

Lemma keeps_final_plan (world : World) (args : Args) :
  keeps_final (plan world args).
Proof.
  unfold plan.
  apply keeps_final_bind.
  - unfold init. destruct (resume args); unfold ret; [|final].
    apply keeps_final_bind; [apply keeps_final_load_checkpoint | intros].
    destruct a as [[cs m] pr]. final.
  - intros [[cs tc] pr]. unfold ret.
    apply keeps_final_bind; [final | intros].
    apply keeps_final_bind; [|intros; final].
    destruct (filter _ _); [final|].
    intros p. split; reflexivity.
Qed.

(** X17.  Nothing before the final write touches the final artifacts:
    from loading the checkpoint to the end of the ingest loop, however
    that ends (it returns, an exception escapes, a loop never ends),
    [chunks.jsonl] and [metadata.json] are what they were when the run
    started. *)
Theorem final_artifacts_untouched_before_finalize (world : World)
    (args : Args) (p : proc) :
  let after := snd (plan_and_ingest world args
                      (snd ((emit EMkdir ;;; try_login world) p))) in
  f_chunks (fs after) = f_chunks (fs p)
  /\ f_metadata (fs after) = f_metadata (fs p).
Proof.
  cbv zeta.
  assert (H : keeps_final (plan_and_ingest world args)).
  { unfold plan_and_ingest. apply keeps_final_bind.
    - apply keeps_final_plan.
    - intros x. apply keeps_final_ingest. }
  destruct (H (snd ((emit EMkdir ;;; try_login world) p))) as [H1 H2].
  destruct (start_state world p) as (tr & Hstart).
  rewrite H1, H2, Hstart. split; reflexivity.
Qed.

(** ** The topic extractor: errors and string topics *)



Lemma comma_lower_char (c : ascii) :
  Ascii.eqb ","%char (lower_char c) = Ascii.eqb ","%char c.
Proof. destruct c as [[] [] [] [] [] [] [] []]; reflexivity. Qed.

Lemma isspace_lower_char (c : ascii) : isspace (lower_char c) = isspace c.
Proof. destruct c as [[] [] [] [] [] [] [] []]; reflexivity. Qed.

Lemma contains_lower_comma (s : pystr) :
  contains ","%char (lower s) = contains ","%char s.
Proof.
  unfold contains, lower. induction s as [|c s IH]; [reflexivity|].
  cbn [map existsb]. now rewrite comma_lower_char, IH.
Qed.

Lemma contains_before (c : ascii) (s : pystr) :
  contains c (before c s) = false.
Proof.
  unfold contains. induction s as [|x s IH]; [reflexivity|].
  cbn [before]. destruct (Ascii.eqb x c) eqn:E; [reflexivity|].
  cbn [existsb]. rewrite IH, Ascii.eqb_sym, E. reflexivity.
Qed.

Lemma lstrip_split (s : pystr) :
  exists blanks : pystr,
    s = blanks ++ lstrip s /\ forallb isspace blanks = true.
Proof.
  induction s as [|c s (blanks & Hs & Hb)]; [now exists []|].
  cbn [lstrip]. destruct (isspace c) eqn:E.
  - exists (c :: blanks). cbn. rewrite E, Hb. now rewrite <- Hs.
  - now exists [].
Qed.

Lemma lstrip_head (s : pystr) (c : ascii) (rest : pystr) :
  lstrip s = c :: rest -> isspace c = false.
Proof.
  induction s as [|x s IH]; [discriminate|].
  cbn [lstrip]. destruct (isspace x) eqn:E; [exact IH|].
  now intros [= <- _].
Qed.

Lemma contains_app_false (c : ascii) (a b : pystr) :
  contains c (a ++ b) = false -> contains c b = false.
Proof.
  unfold contains. rewrite existsb_app. intros H.
  now apply orb_false_iff in H.
Qed.

Lemma contains_rev (c : ascii) (s : pystr) :
  contains c (rev s) = contains c s.
Proof.
  unfold contains. induction s as [|x s IH]; [reflexivity|].
  cbn [rev existsb]. rewrite existsb_app, IH. cbn [existsb].
  rewrite orb_false_r. apply orb_comm.
Qed.

Lemma contains_lstrip (c : ascii) (s : pystr) :
  contains c s = false -> contains c (lstrip s) = false.
Proof.
  intros H. destruct (lstrip_split s) as (blanks & Hs & _).
  rewrite Hs in H. now apply contains_app_false in H.
Qed.

Lemma contains_strip (c : ascii) (s : pystr) :
  contains c s = false -> contains c (strip s) = false.
Proof.
  intros H. unfold strip. rewrite contains_rev. apply contains_lstrip.
  rewrite contains_rev. now apply contains_lstrip.
Qed.

Lemma strip_trimmed (s : pystr) : trimmed (strip s).
Proof.
  unfold strip, trimmed. split.
  - intros c rest Hrev.
    apply (f_equal (@rev ascii)) in Hrev. rewrite rev_involutive in Hrev.
    cbn [rev] in Hrev.
    destruct (lstrip_split (rev (lstrip s))) as (blanks & Hs & _).
    rewrite Hrev in Hs.
    apply (f_equal (@rev ascii)) in Hs.
    rewrite rev_involutive, app_assoc, rev_app_distr in Hs. cbn [rev app] in Hs.
    now apply lstrip_head in Hs.
  - intros front c Hrev.
    apply (f_equal (@rev ascii)) in Hrev.
    rewrite rev_involutive, rev_app_distr in Hrev. cbn [rev app] in Hrev.
    now apply lstrip_head in Hrev.
Qed.

Lemma lower_trimmed (s : pystr) : trimmed s -> trimmed (lower s).
Proof.
  unfold trimmed, lower. intros [Hhead Hlast]. split.
  - intros c rest Heq. destruct s as [|x s]; [discriminate|].
    injection Heq as <- _. rewrite isspace_lower_char. now apply (Hhead x s).
  - intros front c Heq.
    destruct (exists_last (l := s)) as (front' & x & ->).
    { destruct s; [destruct front; discriminate | discriminate]. }
    rewrite map_app in Heq. cbn [map] in Heq.
    apply app_inj_tail in Heq as [_ <-].
    rewrite isspace_lower_char. now apply (Hlast front' x).
Qed.

Lemma contains_replace_comma (s : pystr) :
  contains ","%char (replace "."%char "_"%char s) = contains ","%char s.
Proof.
  unfold contains, replace. induction s as [|x s IH]; [reflexivity|].
  cbn [map existsb]. rewrite IH.
  destruct (Ascii.eqb_spec x "."%char) as [->|Hx]; reflexivity.
Qed.

Lemma contains_replace_dot (s : pystr) :
  contains "."%char (replace "."%char "_"%char s) = false.
Proof.
  unfold contains, replace. induction s as [|x s IH]; [reflexivity|].
  cbn [map existsb]. rewrite IH.
  destruct (Ascii.eqb_spec x "."%char) as [->|Hx]; [reflexivity|].
  rewrite orb_false_r. apply Ascii.eqb_neq. congruence.
Qed.

(** X19.  A string-valued topic field always gives a string topic
    that is lowercase and holds no comma.  When the field has a comma
    the topic is the first tag, lowercased, without the blanks around
    it; when it has none, the topic is the lowercased field with every
    dot replaced by an underscore, and holds no dot. *)
Theorem extract_topic_of_string (config : DatasetConfig) (doc : dict)
    (s : pystr) :
  field_of (topic_field config) doc = Some (PStr s) ->
  exists t : pystr,
    extract_topic config doc = Ok (PStr t)
    /\ lowercase t
    /\ contains ","%char t = false
    /\ (contains ","%char s = true ->
        t = lower (strip (before ","%char s)) /\ trimmed t)
    /\ (contains ","%char s = false ->
        t = replace "."%char "_"%char (lower s)
        /\ contains "."%char t = false).
Proof.
  intros Hfield. unfold extract_topic. rewrite Hfield.
  destruct (contains ","%char s) eqn:Hcomma.
  - eexists. split; [reflexivity|]. split; [apply lower_idem|].
    split; [|split; [|discriminate]].
    + rewrite contains_lower_comma. apply contains_strip, contains_before.
    + intros _. split; [reflexivity|]. apply lower_trimmed, strip_trimmed.
  - eexists. split; [reflexivity|].
    split; [apply lowercase_replace_dot|].
    split; [|split; [discriminate|]].
    + rewrite contains_replace_comma, contains_lower_comma. exact Hcomma.
    + intros _. split; [reflexivity | apply contains_replace_dot].
Qed.

Lemma extract_topic_of_string_witness :
  exists t : pystr,
    extract_topic stackoverflow_config
      [(str "tags", PStr (str " Python , pandas"))] = Ok (PStr t)
    /\ lowercase t
    /\ contains ","%char t = false
    /\ (contains ","%char (str " Python , pandas") = true ->
        t = lower (strip (before ","%char (str " Python , pandas")))
        /\ trimmed t)
    /\ (contains ","%char (str " Python , pandas") = false ->
        t = replace "."%char "_"%char (lower (str " Python , pandas"))
        /\ contains "."%char t = false).
Proof.
  apply (extract_topic_of_string stackoverflow_config
           [(str "tags", PStr (str " Python , pandas"))]
           (str " Python , pandas")).
  reflexivity.
Defined.

(** ** The command line *)

(** X20.  The choices of [--datasets] are the names of
    [DATASET_CONFIGS], so a selection the command line lets through
    always matches a source: started from [main] in a fresh process, the
    run never takes the "No matching datasets" exit, and with
    [--list-datasets] it does nothing to the output directory. *)
Theorem main_never_exits_on_selection (world : World) (args : Namespace)
    (fs_ : FS) :
  accepted args ->
  (forall status : Z, fst (main world args (fresh fs_)) <> ExitedWith status)
  /\ (ns_list_datasets args = true ->
      main world args (fresh fs_) = (Finished, fresh fs_)).
Proof.
  intros Hacc. split.
  - intros status. unfold main.
    destruct (ns_list_datasets args); [discriminate|].
    destruct (prepare_huggingface_benchmark world _ (fresh fs_))
      as [[s|st|e|] p'] eqn:Hrun; try discriminate.
    exfalso. apply (f_equal fst) in Hrun. cbn [fst] in Hrun.
    revert Hrun. unfold prepare_huggingface_benchmark.
    destruct (start_state world (fresh fs_)) as (tr & ->).
    cbn [configs fresh datasets].
    destruct (no_match (ns_datasets args) DATASET_CONFIGS) eqn:Hno.
    + unfold accepted in Hacc. unfold no_match in Hno.
      destruct (ns_datasets args) as [[|d ds]|]; try discriminate.
      destruct Hacc as [_ Hall]. apply Forall_inv in Hall.
      assert (Hsel : exists c : DatasetConfig,
                In c DATASET_CONFIGS /\ selected (Some (d :: ds)) c = true).
      { cbn [selected mem existsb].
        destruct Hall as [<-|[<-|[<-|[<-|[]]]]];
          [ exists arxiv_config | exists code_config
          | exists stackoverflow_config | exists wikipedia_config ];
          (split; [cbn; tauto | reflexivity]). }
      destruct Hsel as (c & Hin & Hc).
      assert (Hf : In c (filter (selected (Some (d :: ds))) DATASET_CONFIGS))
        by (apply filter_In; now split).
      destruct (filter (selected (Some (d :: ds))) DATASET_CONFIGS);
        [destruct Hf | discriminate].
    + intros H. now apply to_outcome_not_exited in H.
  - intros Hlist. unfold main. now rewrite Hlist.
Qed.

Lemma main_never_exits_on_selection_witness :
  let args := mkNamespace (str "./data/hf_benchmark") 8 15 5
                (Some [str "code"; str "stackoverflow"]) false false in
  (forall status : Z,
     fst (main sample_world args (fresh no_dir)) <> ExitedWith status)
  /\ (ns_list_datasets args = true ->
      main sample_world args (fresh no_dir) = (Finished, fresh no_dir)).
Proof.
  apply (main_never_exits_on_selection sample_world
           (mkNamespace (str "./data/hf_benchmark") 8 15 5
              (Some [str "code"; str "stackoverflow"]) false false) no_dir).
  split; [discriminate|].
  repeat constructor; cbn; tauto.
Defined.

(** * convert_kepler.py: the weight names *)

Lemma startswith_spec (prefix_ s : pystr) :
  Kepler.startswith prefix_ s = true <-> exists t : pystr, s = prefix_ ++ t.
Proof.
  revert s.
  induction prefix_ as [|c prefix_ IH]; intros s; cbn [Kepler.startswith].
  - split; [now exists s | reflexivity].
  - destruct s as [|x s].
    + split; [discriminate | intros (t & Ht); discriminate].
    + rewrite andb_true_iff, IH. split.
      * intros [Hc (t & ->)]. apply Ascii.eqb_eq in Hc as ->. now exists t.
      * intros (t & [= -> ->]). split; [apply Ascii.eqb_refl | now exists t].
Qed.

(** Where the first separator is, when it is known to be there. *)
Lemma first_sep_unique (sep : ascii) (a a' b b' : pystr) :
  contains sep a = false -> contains sep a' = false ->
  a ++ sep :: b = a' ++ sep :: b' -> a = a' /\ b = b'.
Proof.
  unfold contains. revert a'.
  induction a as [|x a IH]; intros [|x' a'] Ha Ha' Heq; cbn in *.
  - now injection Heq as <-.
  - injection Heq as <- _. now rewrite Ascii.eqb_refl in Ha'.
  - injection Heq as -> _. now rewrite Ascii.eqb_refl in Ha.
  - injection Heq as <- Heq.
    apply orb_false_iff in Ha as [_ Ha], Ha' as [_ Ha'].
    destruct (IH a' Ha Ha' Heq) as [-> ->]. now split.
Qed.

Lemma startswith_encoder_no_dot (idx tail : pystr) :
  contains "."%char idx = false ->
  Kepler.startswith (str "sentence_encoder.") tail = false ->
  Kepler.startswith Kepler.sentence_encoder (idx ++ "."%char :: tail) = false.
Proof.
  intros Hidx Htail.
  destruct (Kepler.startswith Kepler.sentence_encoder (idx ++ "."%char :: tail))
    eqn:E; [|reflexivity].
  apply startswith_spec in E as (t & Ht).
  change (Kepler.sentence_encoder ++ t)
    with (str "encoder" ++ "."%char :: (str "sentence_encoder." ++ t)) in Ht.
  apply first_sep_unique in Ht as [_ ->]; [|exact Hidx|reflexivity].
  rewrite (proj2 (startswith_spec _ _)) in Htail; [discriminate | now exists t].
Qed.

Lemma replace_all_no_dot (new idx tail : pystr) :
  contains "."%char idx = false ->
  Kepler.startswith (str "sentence_encoder.") tail = false ->
  Kepler.replace_go Kepler.sentence_encoder new 0 (idx ++ "."%char :: tail)
  = idx ++ Kepler.replace_go Kepler.sentence_encoder new 0 ("."%char :: tail).
Proof.
  intros Hidx Htail. induction idx as [|c idx IH]; [reflexivity|].
  cbn [app Kepler.replace_go].
  change (c :: idx ++ "."%char :: tail) with ((c :: idx) ++ "."%char :: tail).
  rewrite startswith_encoder_no_dot by assumption.
  rewrite IH; [reflexivity|].
  unfold contains in *. cbn [existsb] in Hidx.
  now apply orb_false_iff in Hidx.
Qed.

Lemma split_on_no_sep (sep : ascii) (w' : pystr) :
  contains sep w' = false ->
  forall w t : pystr,
  Kepler.split_on sep w (w' ++ sep :: t)
  = (w ++ w') :: Kepler.split_on sep [] t.
Proof.
  unfold contains. induction w' as [|c w' IH]; intros H w t.
  - cbn [app Kepler.split_on]. now rewrite Ascii.eqb_refl, app_nil_r.
  - cbn [existsb] in H. apply orb_false_iff in H as [Hc H].
    cbn [app Kepler.split_on]. rewrite Ascii.eqb_sym, Hc.
    rewrite (IH H), <- app_assoc. reflexivity.
Qed.

Lemma split_on_nonempty (sep : ascii) (s w : pystr) :
  Kepler.split_on sep w s <> [].
Proof.
  revert w. induction s as [|c s IH]; intros w; cbn [Kepler.split_on].
  - discriminate.
  - destruct (Ascii.eqb c sep); [discriminate | apply IH].
Qed.

Lemma pystr_eqb_differs (a b : pystr) : a <> b -> pystr_eqb a b = false.
Proof.
  intros H. destruct (pystr_eqb a b) eqn:E; [|reflexivity].
  now apply pystr_eqb_eq in E.
Qed.

(** The name of a layer weight, step by step. *)
Lemma layer_key_steps (idx tail : pystr) :
  contains "."%char idx = false ->
  Kepler.startswith (str "sentence_encoder.") tail = false ->
  Kepler.replace_go Kepler.sentence_encoder [] 0 ("."%char :: tail)
  = "."%char :: tail ->
  let key := str "encoder.sentence_encoder.layers." ++ idx ++ str "." ++ tail in
  let short := str "layers." ++ idx ++ str "." ++ tail in
  Kepler.startswith Kepler.sentence_encoder key = true
  /\ Kepler.replace_all Kepler.sentence_encoder [] key = short
  /\ Kepler.startswith (str "layers.") short = true
  /\ Kepler.split_at "."%char short
     = str "layers" :: idx :: Kepler.split_at "."%char tail.
Proof.
  intros Hidx Htail Hrest. cbv zeta. split; [|split; [|split]].
  - apply startswith_spec. eexists. reflexivity.
  - change (Kepler.replace_all Kepler.sentence_encoder []
              (str "encoder.sentence_encoder.layers." ++ idx ++ str "." ++ tail))
      with (str "layers."
            ++ Kepler.replace_go Kepler.sentence_encoder [] 0
                 (idx ++ "."%char :: tail)).
    now rewrite replace_all_no_dot, Hrest.
  - apply startswith_spec. eexists. reflexivity.
  - unfold Kepler.split_at.
    change (str "layers." ++ idx ++ str "." ++ tail)
      with (str "layers" ++ "."%char :: (idx ++ "."%char :: tail)).
    rewrite split_on_no_sep by reflexivity.
    now rewrite split_on_no_sep by exact Hidx.
Qed.

Ltac layer_case idx Hidx :=
  match goal with
  | |- Kepler.map_fairseq_key (_ ++ _ ++ _ ++ ?tail) = _ =>
      let H1 := fresh in
      let H2 := fresh in
      let H3 := fresh in
      let H4 := fresh in
      destruct (layer_key_steps idx tail Hidx eq_refl eq_refl)
        as (H1 & H2 & H3 & H4);
      unfold Kepler.map_fairseq_key;
      rewrite H1, H2, H3, H4; cbn [negb];
      rewrite 4 pystr_eqb_differs by discriminate;
      reflexivity
  end.

(** X21.  [map_fairseq_key] names the weights as its tables say, for
    any layer: the weight [layers.<i>.<w>] of the sentence encoder
    becomes [encoder.layer.<i>.<w'>] for each of the sixteen weights [w]
    of a layer, whatever the text [<i>] is as long as it has no dot (it
    is not checked to be a number); and the four embedding weights get
    their four names. *)
Theorem map_fairseq_key_names (idx : pystr) (src dst : String.string) :
  contains "."%char idx = false ->
  (In (src, dst) layer_weights ->
   Kepler.map_fairseq_key
     (str "encoder.sentence_encoder.layers." ++ idx ++ str "." ++ str src)
   = Ok (Some (str "encoder.layer." ++ idx ++ str "." ++ str dst)))
  /\ (In (src, dst) embedding_weights ->
      Kepler.map_fairseq_key (str "encoder.sentence_encoder." ++ str src)
      = Ok (Some (str dst))).
Proof.
  intros Hidx. split; intros Hin.
  - unfold layer_weights in Hin.
    repeat (destruct Hin as [[= <- <-]|Hin]; [layer_case idx Hidx|]).
    destruct Hin.
  - unfold embedding_weights in Hin.
    repeat (destruct Hin as [[= <- <-]|Hin]; [vm_compute; reflexivity|]).
    destruct Hin.
Qed.

Lemma map_fairseq_key_names_witness :
  Kepler.map_fairseq_key
    (str "encoder.sentence_encoder.layers." ++ str "11" ++ str "."
     ++ str "self_attn.k_proj.bias")
  = Ok (Some (str "encoder.layer." ++ str "11" ++ str "."
              ++ str "attention.self.key.bias")).
Proof.
  apply (proj1 (map_fairseq_key_names (str "11") "self_attn.k_proj.bias"
                  "attention.self.key.bias" eq_refl)).
  cbn. tauto.
Defined.

Ltac named_weight :=
  eexists; split; [reflexivity|]; split; [discriminate|];
  intros v [= <-]; split;
  [ discriminate
  | first [ left; reflexivity
          | right; apply startswith_spec; eexists; reflexivity ] ].

Ltac no_weight :=
  eexists; split; [reflexivity|]; split; [reflexivity|]; discriminate.

Lemma map_fairseq_key_cases (key : pystr) :
  exists r : option pystr,
    Kepler.map_fairseq_key key = Ok r
    /\ (Kepler.startswith Kepler.sentence_encoder key = false -> r = None)
    /\ forall v : pystr,
         r = Some v ->
         v <> Kepler.token_type_embeddings
         /\ (Kepler.startswith (str "embeddings.") v = true
             \/ Kepler.startswith (str "encoder.layer.") v = true).
Proof.
  unfold Kepler.map_fairseq_key.
  destruct (Kepler.startswith Kepler.sentence_encoder key); cbn [negb];
    [|no_weight].
  generalize (Kepler.replace_all Kepler.sentence_encoder [] key) as short.
  intros short.
  do 4 (match goal with
        | |- context [if pystr_eqb ?a ?b then _ else _] =>
            destruct (pystr_eqb a b); [named_weight|]
        end).
  destruct (Kepler.startswith (str "layers.") short) eqn:Hlayers;
    [|no_weight].
  apply startswith_spec in Hlayers as (t & ->).
  unfold Kepler.split_at.
  change (str "layers." ++ t) with (str "layers" ++ "."%char :: t).
  rewrite split_on_no_sep by reflexivity.
  destruct (Kepler.split_on "."%char [] t) as [|layer_idx parts] eqn:Hparts.
  { now apply split_on_nonempty in Hparts. }
  cbv zeta.
  repeat (match goal with
          | |- context [if pystr_eqb ?a ?b then _ else _] =>
              destruct (pystr_eqb a b); [named_weight|]
          end).
  no_weight.
Qed.

(** X22.  [map_fairseq_key] never raises: a key that starts with
    [layers.] always has the second part [parts[1]] asks for.  It
    returns [None] for every key that does not start with
    [encoder.sentence_encoder.], and a name it returns starts with
    [embeddings.] or [encoder.layer.] and is never the name of the
    token-type embeddings. *)
Theorem map_fairseq_key_result (key : pystr) :
  exists r : option pystr,
    Kepler.map_fairseq_key key = Ok r
    /\ (Kepler.startswith Kepler.sentence_encoder key = false -> r = None)
    /\ forall v : pystr,
         r = Some v ->
         v <> Kepler.token_type_embeddings
         /\ (Kepler.startswith (str "embeddings.") v = true
             \/ Kepler.startswith (str "encoder.layer.") v = true).
Proof. exact (map_fairseq_key_cases key). Qed.

(** X26.  [map_fairseq_key] removes the prefix
    [encoder.sentence_encoder.] wherever it occurs, not only in front:
    a key with the prefix twice gets the name of the key with the prefix
    once, so two keys of a checkpoint can get the same name. *)
Theorem map_fairseq_key_repeated_prefix (key : pystr) :
  Kepler.startswith Kepler.sentence_encoder key = true ->
  Kepler.map_fairseq_key (Kepler.sentence_encoder ++ key)
  = Kepler.map_fairseq_key key.
Proof.
  intros Hkey. unfold Kepler.map_fairseq_key. rewrite Hkey.
  replace (Kepler.startswith Kepler.sentence_encoder
             (Kepler.sentence_encoder ++ key)) with true
    by (symmetry; apply startswith_spec; now exists key).
  reflexivity.
Qed.

Lemma map_fairseq_key_repeated_prefix_witness :
  Kepler.map_fairseq_key
    (Kepler.sentence_encoder
     ++ str "encoder.sentence_encoder.embed_tokens.weight")
  = Kepler.map_fairseq_key
      (str "encoder.sentence_encoder.embed_tokens.weight").
Proof.
  apply (map_fairseq_key_repeated_prefix
           (str "encoder.sentence_encoder.embed_tokens.weight")).
  reflexivity.
Defined.

(** ** Dicts *)

Lemma Forall_dict_set {V} (P : pystr * V -> Prop) (k : pystr) (v : V)
    (d : list (pystr * V)) :
  P (k, v) -> Forall P d -> Forall P (dict_set k v d).
Proof.
  intros Hkv. induction 1 as [|[k' v'] d Hx Hd IH]; cbn [dict_set].
  - now repeat constructor.
  - destruct (pystr_eqb k k') eqn:E.
    + apply pystr_eqb_eq in E as <-. now constructor.
    + now constructor.
Qed.

Lemma dict_get_absent {V} (k : pystr) (d : list (pystr * V)) :
  Forall (fun kv => fst kv <> k) d -> dict_get k d = None.
Proof.
  induction 1 as [|[k' v'] d Hx Hd IH]; [reflexivity|].
  cbn [dict_get]. cbn [fst] in Hx.
  rewrite pystr_eqb_differs by congruence. exact IH.
Qed.

Lemma dict_set_absent {V} (k : pystr) (v : V) (d : list (pystr * V)) :
  Forall (fun kv => fst kv <> k) d -> dict_set k v d = d ++ [(k, v)].
Proof.
  induction 1 as [|[k' v'] d Hx Hd IH]; [reflexivity|].
  cbn [dict_set app]. cbn [fst] in Hx.
  rewrite pystr_eqb_differs by congruence. now rewrite IH.
Qed.

Lemma keys_dict_set {V} (k x : pystr) (v : V) (d : list (pystr * V)) :
  In x (map fst (dict_set k v d)) <-> x = k \/ In x (map fst d).
Proof.
  induction d as [|[k' v'] d IH]; cbn [dict_set map fst In].
  - intuition congruence.
  - destruct (pystr_eqb k k') eqn:E; cbn [map fst In].
    + apply pystr_eqb_eq in E as <-. intuition congruence.
    + rewrite IH. intuition congruence.
Qed.

(** ** Renaming the weights of a checkpoint *)

Section RenameWeights.

Variable tensor : Type.
Variable as_float32 : tensor -> tensor.
Variable zeros : Z -> Z -> tensor.

Lemma map_keys_spec (state_dict : list (pystr * tensor)) :
  forall (items mapped : list (pystr * tensor)) (skipped : list pystr),
  incl items state_dict ->
  Forall (renamed_from tensor as_float32 state_dict) mapped ->
  exists mapped' : list (pystr * tensor),
    Kepler.map_keys tensor as_float32 items mapped skipped
    = Ok (mapped', skipped ++ filter is_skipped (map fst items))
    /\ Forall (renamed_from tensor as_float32 state_dict) mapped'
    /\ (forall v : pystr, In v (map fst mapped) -> In v (map fst mapped'))
    /\ (forall key v : pystr,
          In key (map fst items) ->
          Kepler.map_fairseq_key key = Ok (Some v) ->
          In v (map fst mapped')).
Proof.
  induction items as [|[key t] items IH]; intros mapped skipped Hincl Hm.
  - exists mapped. cbn. rewrite app_nil_r.
    repeat split; try assumption; try tauto.
  - assert (Hin : In (key, t) state_dict) by (apply Hincl; now left).
    assert (Hrest : incl items state_dict)
      by (intros x Hx; apply Hincl; now right).
    cbn [Kepler.map_keys map filter fst]. unfold is_skipped at 1.
    destruct (map_fairseq_key_cases key) as ([v|] & Hkey & _).
    + rewrite Hkey.
      destruct (IH (dict_set v (as_float32 t) mapped) skipped Hrest)
        as (m' & Hrun & Hm' & Hkeep & Hall).
      { apply Forall_dict_set; [|exact Hm]. now exists key, t. }
      exists m'. split; [exact Hrun|]. split; [exact Hm'|]. split.
      * intros x Hx. apply Hkeep, keys_dict_set. now right.
      * intros key' v' [<-|Hk] Hmap.
        -- rewrite Hkey in Hmap. injection Hmap as <-.
           apply Hkeep, keys_dict_set. now left.
        -- now apply (Hall key').
    + rewrite Hkey.
      destruct (IH mapped (skipped ++ [key]) Hrest Hm)
        as (m' & Hrun & Hm' & Hkeep & Hall).
      exists m'. rewrite Hrun, <- app_assoc.
      split; [reflexivity|]. split; [exact Hm'|]. split; [exact Hkeep|].
      intros key' v' [<-|Hk] Hmap.
      * rewrite Hkey in Hmap. discriminate.
      * now apply (Hall key').
Qed.

(** X23.  Renaming the weights of a checkpoint ends in one of two
    ways.  Either a weight with one of the five expected prefixes is
    missing and it raises [ValueError] for the first such prefix; or it
    returns the weights to save: every one of them but the last is the
    tensor of a checkpoint key under the name [map_fairseq_key] gives
    it, converted to float32; the last is always the dummy token-type
    embedding of zeros, which no checkpoint key can provide; and
    [skipped] is the keys [map_fairseq_key] has no name for, in
    order. *)
Theorem rename_weights_result (state_dict : list (pystr * tensor)) :
  match Kepler.rename_weights tensor as_float32 zeros state_dict with
  | Kepler.Weights _ mapped skipped =>
      skipped = filter is_skipped (map fst state_dict)
      /\ exists renamed : list (pystr * tensor),
           mapped = renamed
                    ++ [(Kepler.token_type_embeddings,
                         zeros 1 Kepler.hidden_size)]
           /\ Forall (renamed_from tensor as_float32 state_dict) renamed
           /\ Forall (fun prefix_ =>
                        Kepler.any_startswith tensor prefix_ renamed = true)
                Kepler.expected_prefixes
  | Kepler.ValueError _ prefix_ =>
      In prefix_ Kepler.expected_prefixes
      /\ forall key : pystr,
           In key (map fst state_dict) ->
           forall v : pystr,
           Kepler.map_fairseq_key key = Ok (Some v) ->
           Kepler.startswith prefix_ v = false
  | Kepler.Uncaught _ _ | Kepler.Loops _ => False
  end.
Proof.
  unfold Kepler.rename_weights.
  destruct (map_keys_spec state_dict state_dict [] [] (incl_refl _)
              (Forall_nil _)) as (mapped & -> & Hm & _ & Hall).
  cbn [app].
  destruct (find _ Kepler.expected_prefixes) as [prefix_|] eqn:Hfind.
  - apply find_some in Hfind as [Hin Hnone]. split; [exact Hin|].
    intros key Hkey v Hmap.
    apply negb_true_iff in Hnone. unfold Kepler.any_startswith in Hnone.
    specialize (Hall key v Hkey Hmap).
    apply in_map_iff in Hall as ([v' t] & <- & Hkv).
    destruct (Kepler.startswith prefix_ (fst (v', t))) eqn:E; [|reflexivity].
    assert (Hex : existsb (fun kv : pystr * tensor =>
                             Kepler.startswith prefix_ (fst kv)) mapped = true).
    { apply existsb_exists. now exists (v', t). }
    congruence.
  - assert (Habsent : Forall (fun kv => fst kv <> Kepler.token_type_embeddings)
                        mapped).
    { eapply Forall_impl; [|exact Hm].
      intros kv (key & t & _ & Hkey & _).
      destruct (map_fairseq_key_cases key) as (r & Hr & _ & Hname).
      rewrite Hkey in Hr. injection Hr as <-.
      now apply (Hname (fst kv)). }
    rewrite dict_get_absent, dict_set_absent by exact Habsent.
    split; [reflexivity|]. exists mapped. split; [reflexivity|].
    split; [exact Hm|].
    apply Forall_forall. intros prefix_ Hin.
    pose proof (find_none _ _ Hfind prefix_ Hin) as H.
    now apply negb_false_iff in H.
Qed.

End RenameWeights.

(** * The identifiers of a run *)

Lemma of_int_inj (n m : Z) : of_int n = of_int m -> n = m.
Proof.
  unfold of_int, str. intros H.
  apply (f_equal String.string_of_list_ascii) in H.
  rewrite !String.string_of_list_ascii_of_string in H.
  assert (Hnorm : forall z : Z,
            Z.to_int z <> Decimal.Pos Decimal.Nil
            /\ Z.to_int z <> Decimal.Neg Decimal.Nil).
  { intros [|p|p]; cbn; split; try discriminate;
      intros [= Hp]; now apply DecimalPos.Unsigned.to_uint_nonnil in Hp. }
  apply DecimalZ.to_int_inj.
  assert (Hn := DecimalString.NilZero.isi (Z.to_int n)
                  (proj1 (Hnorm n)) (proj2 (Hnorm n))).
  assert (Hm := DecimalString.NilZero.isi (Z.to_int m)
                  (proj1 (Hnorm m)) (proj2 (Hnorm m))).
  rewrite H in Hn. congruence.
Qed.

Lemma no_colon_uint (d : Decimal.uint) :
  contains ":"%char (str (DecimalString.NilEmpty.string_of_uint d)) = false.
Proof. induction d; cbn in *; try reflexivity; exact IHd. Qed.

Lemma no_colon_of_int (n : Z) : contains ":"%char (of_int n) = false.
Proof.
  unfold of_int, DecimalString.NilZero.string_of_int.
  destruct (Z.to_int n) as [d|d];
    unfold DecimalString.NilZero.string_of_uint;
    destruct d; try reflexivity; try apply no_colon_uint;
    cbn [str String.list_ascii_of_string contains existsb];
    apply no_colon_uint.
Qed.

(** X24.  The identifier of a chunk depends on its arguments only
    through the text [source:doc_id:chunk_idx].  For the [doc_id]s
    [process_dataset] builds and source names without a colon, that text
    determines the source, the position of the document and the chunk
    index, so two chunks of a run share an identifier only if they are
    the same chunk or their texts collide under the hash.  In general
    the text does not determine the arguments: a colon may belong to the
    source or to the [doc_id]. *)
Theorem chunk_identifier_text (source1 source2 : pystr)
    (i1 i2 idx1 idx2 : Z) :
  contains ":"%char source1 = false ->
  contains ":"%char source2 = false ->
  (forall (d d' s s' : pystr) (n n' : Z),
     content d n s = content d' n' s' ->
     generate_chunk_id d n s = generate_chunk_id d' n' s')
  /\ (content (doc_id_of source1 i1) idx1 source1
      = content (doc_id_of source2 i2) idx2 source2 ->
      source1 = source2 /\ i1 = i2 /\ idx1 = idx2)
  /\ (forall (a b : pystr) (n : Z),
        content (a ++ str ":" ++ b) n source1
        = content b n (source1 ++ str ":" ++ a)).
Proof.
  intros H1 H2. split; [|split].
  - intros d d' s s' n n' H. unfold generate_chunk_id.
    change (s ++ str ":" ++ d ++ str ":" ++ of_int n) with (content d n s).
    change (s' ++ str ":" ++ d' ++ str ":" ++ of_int n')
      with (content d' n' s').
    now rewrite H.
  - unfold content, doc_id_of. intros H.
    apply (first_sep_unique ":"%char) in H as [<- H]; [|exact H1|exact H2].
    split; [reflexivity|].
    rewrite <- !app_assoc in H. apply app_inv_head in H.
    injection H as H.
    apply (first_sep_unique ":"%char) in H as [Hi Hidx];
      try apply no_colon_of_int.
    split; now apply of_int_inj.
  - intros a b n. unfold content. now rewrite <- !app_assoc.
Qed.

Lemma chunk_identifier_text_witness :
  (forall (d d' s s' : pystr) (n n' : Z),
     content d n s = content d' n' s' ->
     generate_chunk_id d n s = generate_chunk_id d' n' s')
  /\ (content (doc_id_of (str "code") 3) 1 (str "code")
      = content (doc_id_of (str "code") 3) 1 (str "code") ->
      str "code" = str "code" /\ 3 = 3 /\ 1 = 1)
  /\ (forall (a b : pystr) (n : Z),
        content (a ++ str ":" ++ b) n (str "code")
        = content b n (str "code" ++ str ":" ++ a)).
Proof.
  apply (chunk_identifier_text (str "code") (str "code") 3 3 1 1);
    reflexivity.
Defined.

(** * A resumed run *)

Lemma ingest_new_records (world : World) (args : Args)
    (l : list DatasetConfig) :
  forall (a a' : Acc) (p p' : proc),
  ingest world args l a p = (Ok a', p') ->
  exists new : list Chunk,
    all_chunks a' = all_chunks a ++ new
    /\ Forall (fun c => exists config : DatasetConfig,
                 In config l /\ record_of_source config c) new.
Proof.
  induction l as [|c l IH]; intros a a' p p' Hrun.
  - injection Hrun as <- <-. exists []. now rewrite app_nil_r.
  - destruct (Z.lt_ge_cases (len (all_chunks a)) (max_chunks args))
      as [Hbudget|Hbudget].
    + destruct (ingest_cons_inv _ _ _ _ _ _ _ _ Hrun Hbudget)
        as ([[out tc'] st] & p1 & Hproc & _ & Hrest).
      apply process_dataset_account in Hproc as (new1 & -> & Hnew1 & _).
      destruct (IH _ _ _ _ Hrest) as (new2 & Hall & Hnew2).
      cbn [source_done all_chunks] in Hall.
      exists (new1 ++ new2). rewrite Hall, app_assoc. split; [reflexivity|].
      apply Forall_app. split.
      * eapply Forall_impl; [|exact Hnew1].
        intros r Hr. exists c. split; [now left | exact Hr].
      * eapply Forall_impl; [|exact Hnew2].
        intros r (config & Hin & Hr). exists config. split; [now right | exact Hr].
    + rewrite ingest_budget_reached in Hrun by lia.
      injection Hrun as <- <-. exists []. now rewrite app_nil_r.
Qed.

(** X25.  When the run returns, [chunks.jsonl] holds the chunks the
    checkpoint load brought back, in their order, followed by the
    records of this run, and every record of this run belongs to a
    source the sidecar did not list as processed.  When every loaded
    chunk belongs to a source the sidecar lists, as after a save that
    wrote both files, no source has records both among the loaded chunks
    and among the new ones.  Nothing more holds: the loaded chunks are
    not checked against the sidecar, so after a save that stopped
    between its two files a source whose records are already loaded is
    processed again. *)
Theorem run_appends_to_loaded_chunks (world : World) (args : Args)
    (p : proc) (s : RunStatistics) :
  fst (prepare_huggingface_benchmark world args p) = Returned s ->
  exists (loaded : list Chunk) (tc : TopicCounts) (processed : list pystr)
         (new : list Chunk),
    fst (init args (snd ((emit EMkdir ;;; try_login world) p)))
    = Ok (loaded, tc, processed)
    /\ f_chunks (fs (snd (prepare_huggingface_benchmark world args p)))
       = Some (map ChunkLine (loaded ++ new))
    /\ Forall (fun c => mem (source_dataset c) processed = false) new
    /\ (Forall (fun c => mem (source_dataset c) processed = true) loaded ->
        Forall (fun c => ~ In (source_dataset c) (map source_dataset loaded))
          new).
Proof.
  intros Hret.
  destruct (prepare_returned_stages world args p s Hret)
    as (l & a & af & p2 & pf & Hplan & Hingest & Hfinal).
  apply plan_inv in Hplan as ([[loaded tc] processed] & p1 & Hinit & -> & -> & _).
  apply ingest_new_records in Hingest as (new & Hall & Hnew).
  apply finalize_post in Hfinal as (_ & _ & _ & _ & Hchunks & _).
  exists loaded, tc, processed, new. rewrite Hinit. split; [reflexivity|].
  rewrite Hchunks, Hall. split; [reflexivity|].
  assert (Hfresh : Forall (fun c => mem (source_dataset c) processed = false)
                     new).
  { eapply Forall_impl; [|exact Hnew].
    intros c (config & Hin & Hc). cbn [fst snd] in Hin.
    apply in_map_iff in Hin as (c0 & <- & Hin).
    apply filter_In in Hin as [_ Hrem].
    destruct Hc as (-> & _). cbn [adjust name].
    unfold remaining in Hrem. apply andb_prop in Hrem as [_ Hrem].
    now apply negb_true_iff in Hrem. }
  split; [exact Hfresh|]. intros Hlisted.
  eapply Forall_impl; [|exact Hfresh].
  intros c Hc Hin. apply in_map_iff in Hin as (c0 & Hsame & Hin).
  rewrite Forall_forall in Hlisted. specialize (Hlisted c0 Hin).
  rewrite Hsame in Hlisted. congruence.
Qed.

Lemma run_appends_to_loaded_chunks_witness :
  let p := mkProc (fs (snd sample_interrupted)) DATASET_CONFIGS [] in
  exists (loaded : list Chunk) (tc : TopicCounts) (processed : list pystr)
         (new : list Chunk),
    fst (init sample_args (snd ((emit EMkdir ;;; try_login sample_world) p)))
    = Ok (loaded, tc, processed)
    /\ f_chunks (fs (snd (prepare_huggingface_benchmark sample_world
                            sample_args p)))
       = Some (map ChunkLine (loaded ++ new))
    /\ Forall (fun c => mem (source_dataset c) processed = false) new
    /\ (Forall (fun c => mem (source_dataset c) processed = true) loaded ->
        Forall (fun c => ~ In (source_dataset c) (map source_dataset loaded))
          new).
Proof.
  apply (run_appends_to_loaded_chunks sample_world sample_args
           (mkProc (fs (snd sample_interrupted)) DATASET_CONFIGS [])
           (stats_of (fst (prepare_huggingface_benchmark sample_world
                             sample_args
                             (mkProc (fs (snd sample_interrupted))
                                DATASET_CONFIGS []))))).
  vm_compute. reflexivity.
Defined.

(** A resumed run after a save cut short.  The second save of the wide
    sample run wrote
    [checkpoint.jsonl], with the chunks of both sources, and stopped
    before the sidecar, which still lists the code corpus only.  The
    resumed run loads the four chunks, processes stackoverflow again and
    returns; [chunks.jsonl] holds the stackoverflow records twice. *)
Lemma resume_after_partial_save_repeats_source :
  let saved :=
    fs (snd (interrupted_run sample_world wide_args 2 (fresh no_dir))) in
  let fs_ :=
    set_file checkpoint_meta_json
      (f_checkpoint_meta (fs (snd wide_interrupted))) saved in
  let r :=
    prepare_huggingface_benchmark sample_world wide_args
      (mkProc fs_ DATASET_CONFIGS []) in
  option_map (map (fun t => match t with ChunkLine c => doc_id c | _ => [] end))
    (f_checkpoint fs_)
  = Some [str "code_0"; str "code_1";
          str "stackoverflow_0"; str "stackoverflow_1"]
  /\ option_map (map (fun t => match t with
                              | MetaDoc m => meta_processed_datasets m
                              | _ => []
                              end)) (f_checkpoint_meta fs_)
     = Some [[str "code"]]
  /\ (exists s : RunStatistics, fst r = Returned s /\ total_chunks s = 6)
  /\ option_map (map (fun t => match t with ChunkLine c => doc_id c | _ => [] end))
       (f_chunks (fs (snd r)))
     = Some [str "code_0"; str "code_1";
             str "stackoverflow_0"; str "stackoverflow_1";
             str "stackoverflow_0"; str "stackoverflow_1"].
Proof.
  cbv zeta. split; [vm_compute; reflexivity|].
  split; [vm_compute; reflexivity|]. split.
  - eexists. split; [vm_compute; reflexivity | reflexivity].
  - vm_compute. reflexivity.
Qed.

Lemma fold_dict_set_fresh {V} (l : list (pystr * V)) :
  forall acc : list (pystr * V),
  NoDup (map fst (acc ++ l)) ->
  fold_left (fun d kv => dict_set (fst kv) (snd kv) d) l acc = acc ++ l.
Proof.
  induction l as [|[k v] l IH]; intros acc Hnd; cbn [fold_left fst snd].
  - now rewrite app_nil_r.
  - rewrite dict_set_absent.
    + rewrite IH; rewrite <- app_assoc; [reflexivity | exact Hnd].
    + rewrite map_app in Hnd. cbn [map fst] in Hnd.
      apply NoDup_remove_2 in Hnd.
      apply Forall_forall. intros [k' v'] Hin Heq. cbn [fst] in Heq. subst k'.
      apply Hnd, in_or_app. left. apply in_map_iff. now exists (k, v').
Qed.

(** X27.  Topic counts whose topics are strings survive the sidecar:
    [json] writes them, and what a resumed run makes of the sidecar's
    [topic_counts] is the same dict, with the same topics in the same
    order and the same counts. *)
Theorem topic_counts_round_trip (tc : TopicCounts) :
  string_topics tc ->
  NoDup (map fst tc) ->
  exists tcj : list (pystr * Z),
    json_topic_counts tc = Some tcj
    /\ topic_counts_of_json tcj = tc.
Proof.
  intros Hstr Hnd.
  assert (H : exists tcj : list (pystr * Z),
            json_topic_counts tc = Some tcj
            /\ map (fun kv : pystr * Z => (PStr (fst kv), snd kv)) tcj = tc).
  { clear Hnd. induction Hstr as [|[t n] tc (s & Hs) Htc (tcj & Hj & Hmap)].
    - now exists [].
    - cbn [fst] in Hs. subst t. exists ((s, n) :: tcj).
      cbn [json_topic_counts json_key]. rewrite Hj.
      split; [reflexivity|]. cbn [map fst snd]. now rewrite Hmap. }
  destruct H as (tcj & Hj & Hmap). exists tcj. split; [exact Hj|].
  unfold topic_counts_of_json.
  rewrite (fold_dict_set_fresh tcj []); [exact Hmap|].
  cbn [app]. rewrite <- Hmap, map_map in Hnd. cbn [fst] in Hnd.
  clear - Hnd. induction tcj as [|[k v] tcj IH]; [constructor|].
  cbn [map fst] in *. inversion Hnd as [|? ? Hnot Hrest]; subst.
  constructor; [|now apply IH].
  intros Hin. apply Hnot. apply in_map_iff in Hin as ([k' v'] & <- & Hin).
  apply in_map_iff. now exists (k', v').
Qed.

Lemma topic_counts_round_trip_witness :
  let tc := topic_counts (returned (fst sample_ingested) no_acc) in
  exists tcj : list (pystr * Z),
    json_topic_counts tc = Some tcj /\ topic_counts_of_json tcj = tc.
Proof.
  apply (topic_counts_round_trip
           (topic_counts (returned (fst sample_ingested) no_acc))).
  - vm_compute. repeat constructor; eexists; reflexivity.
  - vm_compute. repeat constructor; cbn; intuition discriminate.
Defined.

(** X28.  What the ingest loop has saved is what a resumed run starts
    from: when the loop returns after processing at least one source,
    the checkpoint artifacts hold its chunks and its processed sources,
    and loading them with resume enabled gives back exactly those chunks
    and that set of sources. *)
Theorem resume_starts_from_last_checkpoint (world : World) (args : Args)
    (l : list DatasetConfig) (a a' : Acc) (p p' : proc) :
  ingest world args l a p = (Ok a', p') ->
  processed_datasets a' <> processed_datasets a ->
  checkpointed a' (fs p')
  /\ forall (args' : Args) (q : proc),
       resume args' = true ->
       fs q = fs p' ->
       exists tc : TopicCounts,
         fst (init args' q)
         = Ok (all_chunks a', tc, set_of (processed_datasets a')).
Proof.
  intros Hrun Hnew.
  destruct (ingest_inv world args l a a' p p' Hrun) as (_ & [[-> _]|Hck] & _);
    [contradiction|].
  split; [exact Hck|].
  intros args' q Hres Hfs. rewrite <- Hfs in Hck.
  destruct (init_resumed args' a' q Hres Hck) as (tc & q1 & -> & _).
  now exists tc.
Qed.

Lemma resume_starts_from_last_checkpoint_witness :
  let r := ingest sample_world sample_args [code_config] no_acc
             (fresh no_dir) in
  let a' := returned (fst r) no_acc in
  checkpointed a' (fs (snd r))
  /\ forall (args' : Args) (q : proc),
       resume args' = true ->
       fs q = fs (snd r) ->
       exists tc : TopicCounts,
         fst (init args' q)
         = Ok (all_chunks a', tc, set_of (processed_datasets a')).
Proof.
  apply (resume_starts_from_last_checkpoint sample_world sample_args
           [code_config] no_acc
           (returned (fst (ingest sample_world sample_args [code_config]
                             no_acc (fresh no_dir))) no_acc)
           (fresh no_dir)
           (snd (ingest sample_world sample_args [code_config] no_acc
                   (fresh no_dir)))).
  - vm_compute. reflexivity.
  - vm_compute. discriminate.
Defined.
